(** * Response sanitizer of the knowledge-graph API (src/memory/api.py)

    A shallow embedding of [clean_embedding_data] and of the endpoint loops
    that call it, together with the properties the specification states
    about them.

    Python values are modelled as finite trees.  [None] doubles as the
    "absent" marker of the sanitizer, exactly as in the source.  Strings are
    byte strings and [str.lower] is modelled on the ASCII letters; floats and
    datetimes are opaque scalars.  A second model, [Store], keeps containers
    in a store of mutable cells and bounds the recursion depth; it is related
    to the tree model by [StoreFacts.clean_value_sim]. *)

From Stdlib Require Import ZArith String Ascii Bool Lia.
From stdpp Require Import list strings.

Open Scope string_scope.
Open Scope Z_scope.
Open Scope list_scope.

(** ** Values *)

(** Keys of a [dict].  The source annotates keys as [str].  A [bytes] key
    has a [lower] method of its own; every other hashable key (an [int], a
    [float], [None], a tuple) has none and is represented by [KInt]. *)
Inductive pykey :=
| KStr (s : string)
| KInt (z : Z)
| KBytes (b : string).

(** Containers of the standard library that are neither a [dict] nor a
    [list] nor a [tuple] and carry no [__dict__]. *)
Inductive opaque_kind :=
| OSet
| OFrozenset
| ODeque
| OMappingProxy.

#[local] Unset Elimination Schemes.
Inductive pyval :=
| PNone
| PBool (b : bool)
| PInt (z : Z)
| PFloat (bits : Z)                       (* IEEE-754 bit pattern, opaque *)
| PStr (s : string)
| PDatetime (t : Z)                       (* datetime.datetime, opaque *)
| PList (l : list pyval)
| PTuple (l : list pyval)
| PDict (items : list (pykey * pyval))    (* insertion order *)
| PObj (cls : string) (attrs : list (string * pyval))   (* class name, __dict__ *)
| POpaque (kind : opaque_kind) (entries : list (pykey * pyval)).
    (* a set, frozenset, deque or mapping proxy with what it holds: the
       items of a mapping proxy, the elements of the others keyed by their
       position.  Objects without a [__dict__] other than these (instances
       of classes with [__slots__]) are not represented. *)
#[local] Set Elimination Schemes.

Inductive exn :=
| AttributeError
| TypeError
| ValidationError
| RecursionError.

Inductive result (A : Type) :=
| Ok (a : A)
| Raise (e : exn).
Arguments Ok {A} a.
Arguments Raise {A} e.

#[global] Instance result_ret : MRet result := fun A a => Ok a.
#[global] Instance result_bind : MBind result := fun A B k m =>
  match m with
  | Ok a => k a
  | Raise e => Raise e
  end.

Definition key_eqb (a b : pykey) : bool :=
  match a, b with
  | KStr s, KStr t => String.eqb s t
  | KInt x, KInt y => Z.eqb x y
  | KBytes x, KBytes y => String.eqb x y
  | _, _ => false
  end.

(** [d[k] = v] on an insertion-ordered dict: an existing key keeps its
    position, a new key goes last. *)
Fixpoint dict_set {V} (d : list (pykey * V)) (k : pykey) (v : V)
  : list (pykey * V) :=
  match d with
  | [] => [(k, v)]
  | (k', v') :: d' =>
      if key_eqb k' k then (k', v) :: d' else (k', v') :: dict_set d' k v
  end.

Definition keys (d : list (pykey * pyval)) : list pykey := map fst d.

Fixpoint key_in (k : pykey) (ks : list pykey) : bool :=
  match ks with
  | [] => false
  | k' :: ks' => key_eqb k' k || key_in k ks'
  end.

Fixpoint distinct_keys (ks : list pykey) : bool :=
  match ks with
  | [] => true
  | k :: ks' => negb (key_in k ks') && distinct_keys ks'
  end.

(** ** String helpers: [str.lower] and [needle in hay] *)

Definition lower_ascii (c : ascii) : ascii :=
  let n := nat_of_ascii c in
  if (Nat.leb 65 n && Nat.leb n 90)%bool then ascii_of_nat (n + 32) else c.

Fixpoint lower (s : string) : string :=
  match s with
  | EmptyString => EmptyString
  | String c s' => String (lower_ascii c) (lower s')
  end.

Fixpoint contains (needle hay : string) : bool :=
  String.prefix needle hay
  || match hay with
     | EmptyString => false
     | String _ hay' => contains needle hay'
     end.

Definition str_in (s : string) (set : list string) : bool :=
  existsb (String.eqb s) set.

(** ** The sanitizer *)

Definition is_numeric (v : pyval) : bool :=
  match v with
  | PBool _ | PInt _ | PFloat _ => true     (* isinstance(v, (int, float)) *)
  | _ => false
  end.

Definition is_none (v : pyval) : bool :=
  match v with
  | PNone => true
  | _ => false
  end.

(** [is_large_float_list]: the [try] never fires on the values modelled
    here, since [len] and slicing are only reached for a [list]. *)
Definition is_large_float_list (val : pyval) : bool :=
  match val with
  | PList l => (Nat.leb 32 (length l) && forallb is_numeric (take 64 l))%bool
  | _ => false
  end.

(** [should_drop_key]: [key.lower()] exists on strings and on [bytes]; on
    the lowered [bytes] the test ['embedding' in lowered] is a type error. *)
Definition should_drop_key (key : pykey) : result bool :=
  match key with
  | KStr s =>
      let lowered := lower s in
      Ok (contains "embedding" lowered
          || str_in lowered ["name_embedding"; "fact_embedding"])
  | KInt _ => Raise AttributeError
  | KBytes _ => Raise TypeError
  end.

(** [k in {'attributes'}] *)
Definition in_attributes (k : pykey) : bool :=
  match k with
  | KStr s => str_in s ["attributes"]
  | KInt _ | KBytes _ => false
  end.

Section Loops.
Variable clean_value : pyval -> result pyval.

(** The [dict] branch: [for k, v in val.items()] with the accumulator
    [cleaned]. *)
Fixpoint clean_items (items : list (pykey * pyval))
         (cleaned : list (pykey * pyval)) : result pyval :=
  match items with
  | [] => Ok (PDict cleaned)
  | (k, v) :: rest =>
      match should_drop_key k with
      | Raise e => Raise e
      | Ok true => clean_items rest cleaned
      | Ok false =>
          if in_attributes k then clean_items rest cleaned
          else
            match clean_value v with
            | Raise e => Raise e
            | Ok cv =>
                if is_none cv then clean_items rest cleaned
                else clean_items rest (dict_set cleaned k cv)
            end
      end
  end.

(** The [__dict__] branch: [for k, v in val.__dict__.items()]. *)
Fixpoint clean_attrs (attrs : list (string * pyval))
         (cleaned : list (pykey * pyval)) : result pyval :=
  match attrs with
  | [] => Ok (PDict cleaned)
  | (k, v) :: rest =>
      match should_drop_key (KStr k) with
      | Raise e => Raise e
      | Ok d =>
          if (d || in_attributes (KStr k))%bool then clean_attrs rest cleaned
          else
            match clean_value v with
            | Raise e => Raise e
            | Ok cv =>
                if is_none cv then clean_attrs rest cleaned
                else clean_attrs rest (dict_set cleaned (KStr k) cv)
            end
      end
  end.

(** The list/tuple branch: [for item in val] with [cleaned_list]. *)
Fixpoint clean_seq (l : list pyval) (cleaned_list : list pyval)
  : result pyval :=
  match l with
  | [] => Ok (PList cleaned_list)
  | item :: rest =>
      match clean_value item with
      | Raise e => Raise e
      | Ok ci =>
          if is_none ci then clean_seq rest cleaned_list
          else clean_seq rest (cleaned_list ++ [ci])
      end
  end.
End Loops.

(** The recursion is structural: a finite tree is walked to its end.  The
    interpreter's recursion limit and values that contain themselves are the
    matter of [Store.clean_value] below, which computes the same results on
    every value nested less deeply than the limit
    ([StoreFacts.clean_value_sim]). *)
Fixpoint clean_value (val : pyval) : result pyval :=
  if is_large_float_list val then Ok PNone
  else
    match val with
    | PDict items => clean_items clean_value items []
    | PObj _ attrs => clean_attrs clean_value attrs []
    | PList l => clean_seq clean_value l []
    | PTuple l => clean_seq clean_value l []
    | _ => Ok val
    end.

Definition clean_embedding_data (value : pyval) : result pyval :=
  clean_value value.

(** ** Predicates of the specification *)

(** The Heavy/Internal Field predicate: case-insensitive "embedding"
    substring, the two denylisted names, or exactly [attributes]. *)
Definition heavy_key (k : pykey) : bool :=
  match k with
  | KStr s =>
      contains "embedding" (lower s)
      || str_in (lower s) ["name_embedding"; "fact_embedding"]
      || str_in s ["attributes"]
  | KInt _ | KBytes _ => false
  end.

(** The Embedding Vector heuristic, on any sequence (list or tuple). *)
Definition embedding_shaped (v : pyval) : bool :=
  match v with
  | PList l | PTuple l =>
      (Nat.leb 32 (length l) && forallb is_numeric (take 64 l))%bool
  | _ => false
  end.

Fixpoint has_embedding (v : pyval) : bool :=
  embedding_shaped v
  || match v with
     | PList l | PTuple l => existsb has_embedding l
     | PDict items => existsb (fun '(_, x) => has_embedding x) items
     | PObj _ attrs => existsb (fun '(_, x) => has_embedding x) attrs
     | POpaque _ entries => existsb (fun '(_, x) => has_embedding x) entries
     | _ => false
     end.

Fixpoint has_heavy_key (v : pyval) : bool :=
  match v with
  | PList l | PTuple l => existsb has_heavy_key l
  | PDict items =>
      existsb (fun '(k, x) => heavy_key k || has_heavy_key x) items
  | PObj _ attrs =>
      existsb (fun '(k, x) => heavy_key (KStr k) || has_heavy_key x) attrs
  | POpaque _ entries =>
      existsb (fun '(k, x) => heavy_key k || has_heavy_key x) entries
  | _ => false
  end.

Definition is_str_key (k : pykey) : bool :=
  match k with
  | KStr _ => true
  | KInt _ | KBytes _ => false
  end.

(** Mappings keyed by strings at every depth, as the data model of the
    specification has them.  The sanitizer never looks inside a [POpaque]
    value, whose keys therefore do not count. *)
Fixpoint str_keyed (v : pyval) : bool :=
  match v with
  | PList l | PTuple l => forallb str_keyed l
  | PDict items => forallb (fun '(k, x) => is_str_key k && str_keyed x) items
  | PObj _ attrs => forallb (fun '(_, x) => str_keyed x) attrs
  | _ => true
  end.

(** Values built from scalars, lists and string-keyed dicts only, with no
    [None] stored inside a container and no repeated key. *)
Fixpoint plain (v : pyval) : bool :=
  match v with
  | PList l => forallb (fun e => negb (is_none e) && plain e) l
  | PTuple _ => false
  | PDict items =>
      distinct_keys (keys items)
      && forallb (fun '(k, x) => is_str_key k && negb (is_none x) && plain x)
           items
  | PObj _ _ => false
  | POpaque _ _ => false
  | _ => true
  end.

(** Values built only from what the sanitizer examines: scalars, lists,
    tuples, dicts and objects with a [__dict__].  A set, a deque or a
    mapping proxy at any depth is returned as it is, with whatever it
    holds, by the final [return val]. *)
Fixpoint recognised (v : pyval) : bool :=
  match v with
  | PList l | PTuple l => forallb recognised l
  | PDict items => forallb (fun '(_, x) => recognised x) items
  | PObj _ attrs => forallb (fun '(_, x) => recognised x) attrs
  | POpaque _ _ => false
  | _ => true
  end.

(** An element that the list loop keeps and that is not numeric. *)
Definition kept_non_numeric (e : pyval) : bool :=
  negb (is_numeric e || is_none e || is_large_float_list e).

Definition seq_safe (l : list pyval) : bool :=
  (Nat.ltb (length l) 32 || existsb kept_non_numeric (take 64 l))%bool.

(** Every sequence the sanitizer walks through is short or has a kept
    non-numeric element among its first 64. *)
Fixpoint seqs_safe (v : pyval) : bool :=
  match v with
  | PList l => is_large_float_list v || (seq_safe l && forallb seqs_safe l)
  | PTuple l => seq_safe l && forallb seqs_safe l
  | PDict items => forallb (fun '(k, x) => heavy_key k || seqs_safe x) items
  | PObj _ attrs =>
      forallb (fun '(k, x) => heavy_key (KStr k) || seqs_safe x) attrs
  | _ => true
  end.

(** [d.get(k)] on the insertion-ordered representation. *)
Fixpoint dict_get (d : list (pykey * pyval)) (k : pykey) : option pyval :=
  match d with
  | [] => None
  | (k', v) :: d' => if key_eqb k' k then Some v else dict_get d' k
  end.

(** Entries and elements as the loops leave them in their accumulators. *)
Definition entry_ok (kv : pykey * pyval) : bool :=
  let '(k, x) := kv in
  is_str_key k && negb (is_none x) && plain x
  && negb (heavy_key k) && negb (has_heavy_key x).

Definition elem_ok (e : pyval) : bool :=
  negb (is_none e) && plain e && negb (has_heavy_key e).

(** ** Builtins used by the endpoints *)

(** Lookup in an attribute view ([__dict__]). *)
Fixpoint attr_get (attrs : list (string * pyval)) (name : string)
  : option pyval :=
  match attrs with
  | [] => None
  | (k, v) :: attrs' => if String.eqb k name then Some v else attr_get attrs' name
  end.

(** [getattr(o, name, default)].  Only instance attributes are modelled; the
    builtin values have none of the attribute names the endpoints read. *)
Definition getattr (o : pyval) (name : string) (default : pyval) : pyval :=
  match o with
  | PObj _ attrs =>
      match attr_get attrs name with
      | Some v => v
      | None => default
      end
  | _ => default
  end.

(** [o.name], raising when the attribute is missing. *)
Definition getattr_strict (o : pyval) (name : string) : result pyval :=
  match o with
  | PObj _ attrs =>
      match attr_get attrs name with
      | Some v => Ok v
      | None => Raise AttributeError
      end
  | _ => Raise AttributeError
  end.

Definition hasattr (o : pyval) (name : string) : bool :=
  match o with
  | PObj _ attrs =>
      match attr_get attrs name with
      | Some _ => true
      | None => false
      end
  | _ => false
  end.

(** [d.get(name, default)] *)
Definition dict_get_default (d : list (pykey * pyval)) (name : string)
           (default : pyval) : pyval :=
  match dict_get d (KStr name) with
  | Some v => v
  | None => default
  end.

(** Truth value of a value in a condition. *)
Definition py_truthy (v : pyval) : bool :=
  match v with
  | PNone => false
  | PBool b => b
  | PInt z => negb (z =? 0)
  | PFloat bits => negb ((bits =? 0) || (bits =? 2 ^ 63))    (* 0.0 and -0.0 *)
  | PStr s => negb (String.eqb s "")
  | PDatetime _ => true
  | PList l | PTuple l => negb (Nat.eqb (length l) 0)
  | PDict d => negb (Nat.eqb (length d) 0)
  | PObj _ _ => true
  | POpaque _ entries => negb (Nat.eqb (length entries) 0)
  end.

(** [type(v).__name__] *)
Definition type_name (v : pyval) : string :=
  match v with
  | PNone => "NoneType"
  | PBool _ => "bool"
  | PInt _ => "int"
  | PFloat _ => "float"
  | PStr _ => "str"
  | PDatetime _ => "datetime"
  | PList _ => "list"
  | PTuple _ => "tuple"
  | PDict _ => "dict"
  | PObj cls _ => cls
  | POpaque OSet _ => "set"
  | POpaque OFrozenset _ => "frozenset"
  | POpaque ODeque _ => "deque"
  | POpaque OMappingProxy _ => "mappingproxy"
  end.

(** Python slicing [l[start:stop]] with integer bounds. *)
Definition slice_index (n i : Z) : Z :=
  if i <? 0 then Z.max 0 (i + n) else Z.min i n.

Definition py_slice {A} (l : list A) (start : Z) (stop : option Z) : list A :=
  let n := Z.of_nat (length l) in
  let s := slice_index n start in
  let e := match stop with
           | Some j => slice_index n j
           | None => n
           end in
  take (Z.to_nat (e - s)) (drop (Z.to_nat s) l).

(** [if limit and len(results) > limit: results = results[:limit]] *)
Definition limit_results {A} (limit : Z) (results : list A) : list A :=
  if (negb (limit =? 0) && (limit <? Z.of_nat (length results)))%bool
  then py_slice results 0 (Some limit)
  else results.

(** [EpisodeType.text] where [get_episodes] uses it: as the default of a
    [getattr] whose result is only asked for its [value].  The attribute
    view of the enumeration member is not modelled. *)
Definition EpisodeType_text : pyval :=
  PObj "EpisodeType" [("value", PStr "text")].

(** ** Response models

    The pydantic models are records; a field accepts the values of its
    declared type and construction raises on every other value.  pydantic
    also converts some values of other types (a tuple for a list, an ISO
    8601 text for a datetime); these conversions are left out, so that
    construction can fail here where pydantic's succeeds, and never the
    other way round. *)

Record NodeResponse := {
  node_uuid : string;
  node_name : string;
  node_content_summary : string;
  node_labels : list string;
  node_created_at : Z
}.

Record FactResponse := {
  fact_uuid : string;
  fact_fact : string;
  fact_valid_from : option Z;
  fact_valid_until : option Z;
  fact_source_node_uuid : string
}.

Record EpisodeResponse := {
  episode_uuid : string;
  episode_name : string;
  episode_content : string;
  episode_source_type : string;
  episode_source_description : option string;
  episode_reference_time : Z;
  episode_created_at : Z
}.

Definition as_str (v : pyval) : result string :=
  match v with
  | PStr s => Ok s
  | _ => Raise ValidationError
  end.

Definition as_optional_str (v : pyval) : result (option string) :=
  match v with
  | PNone => Ok None
  | PStr s => Ok (Some s)
  | _ => Raise ValidationError
  end.

Definition as_datetime (v : pyval) : result Z :=
  match v with
  | PDatetime t => Ok t
  | _ => Raise ValidationError
  end.

Definition as_optional_datetime (v : pyval) : result (option Z) :=
  match v with
  | PNone => Ok None
  | PDatetime t => Ok (Some t)
  | _ => Raise ValidationError
  end.

Fixpoint as_strs (l : list pyval) : result (list string) :=
  match l with
  | [] => Ok []
  | v :: l' => s ← as_str v; ss ← as_strs l'; Ok (s :: ss)
  end.

Definition as_str_list (v : pyval) : result (list string) :=
  match v with
  | PList l => as_strs l
  | _ => Raise ValidationError
  end.

Definition new_NodeResponse (uuid : string)
           (name content_summary labels created_at : pyval)
  : result NodeResponse :=
  n ← as_str name;
  s ← as_str content_summary;
  ls ← as_str_list labels;
  c ← as_datetime created_at;
  Ok {| node_uuid := uuid; node_name := n; node_content_summary := s;
        node_labels := ls; node_created_at := c |}.

Definition new_FactResponse (uuid : string) (fact valid_from valid_until : pyval)
           (source_node_uuid : string) : result FactResponse :=
  f ← as_str fact;
  vf ← as_optional_datetime valid_from;
  vu ← as_optional_datetime valid_until;
  Ok {| fact_uuid := uuid; fact_fact := f; fact_valid_from := vf;
        fact_valid_until := vu; fact_source_node_uuid := source_node_uuid |}.

Definition new_EpisodeResponse (uuid : string)
           (name content source_type source_description
              reference_time created_at : pyval)
  : result EpisodeResponse :=
  n ← as_str name;
  c ← as_str content;
  st ← as_str source_type;
  sd ← as_optional_str source_description;
  rt ← as_datetime reference_time;
  ca ← as_datetime created_at;
  Ok {| episode_uuid := uuid; episode_name := n; episode_content := c;
        episode_source_type := st; episode_source_description := sd;
        episode_reference_time := rt; episode_created_at := ca |}.

(** ** Endpoint loops

    Each definition is the part of a handler that follows the call of the
    graph engine; its input is the engine's raw result list.  [Raise] in a
    handler's result is the exception its outer [except] turns into an HTTP
    error. *)

Section Endpoints.
(** [str(v)] of a value that is not a string. *)
Variable repr : pyval -> string.
(** Successive readings of [datetime.now(timezone.utc)]. *)
Variable clock : nat -> Z.

Definition py_str (v : pyval) : string :=
  match v with
  | PStr s => s
  | _ => repr v
  end.

(** [search_nodes], lines 548-573: no call of the sanitizer. *)
Fixpoint nodes_loop (node_results : list pyval) (tick : nat)
         (nodes : list NodeResponse) : list NodeResponse :=
  match node_results with
  | [] => nodes
  | result :: rest =>
      let node_uuid := py_str (getattr result "uuid" (PStr "")) in
      let node_name := getattr result "name" (PStr "Unknown") in
      let node_summary :=
        getattr result "content_summary" (getattr result "summary" (PStr "")) in
      let node_labels := getattr result "labels" (PList []) in
      let node_created := getattr result "created_at" (PDatetime (clock tick)) in
      match new_NodeResponse node_uuid node_name node_summary node_labels
              node_created with
      | Ok r => nodes_loop rest (S tick) (nodes ++ [r])
      | Raise _ => nodes_loop rest (S tick) nodes
      end
  end.

Definition search_nodes (limit : Z) (node_results : list pyval) (tick : nat)
  : list NodeResponse :=
  nodes_loop (limit_results limit node_results) tick [].

(** [search_facts], lines 486-514. *)
Definition fact_of_cleaned (cleaned_result : pyval) : result FactResponse :=
  match cleaned_result with
  | PDict d =>
      new_FactResponse
        (py_str (dict_get_default d "uuid" (PStr "")))
        (dict_get_default d "fact" (PStr ""))
        (dict_get_default d "valid_from" PNone)
        (dict_get_default d "valid_until" PNone)
        (py_str (dict_get_default d "source_node_uuid" (PStr "")))
  | _ =>
      u ← getattr_strict cleaned_result "uuid";
      f ← getattr_strict cleaned_result "fact";
      new_FactResponse
        (py_str u) f
        (getattr cleaned_result "valid_from" PNone)
        (getattr cleaned_result "valid_until" PNone)
        (py_str (getattr cleaned_result "source_node_uuid" (PStr "")))
  end.

Fixpoint facts_loop (results : list pyval) (facts : list FactResponse)
  : result (list FactResponse) :=
  match results with
  | [] => Ok facts
  | result :: rest =>
      if hasattr result "fact" then
        cleaned_result ← clean_embedding_data result;
        r ← fact_of_cleaned cleaned_result;
        facts_loop rest (facts ++ [r])
      else facts_loop rest facts
  end.

Definition search_facts (limit : Z) (results : list pyval)
  : result (list FactResponse) :=
  facts_loop (limit_results limit results) [].

(** [get_episodes], lines 607-639. *)

(** [any(label.lower().startswith("episodic") for label in labels)] over the
    elements of a list or tuple. *)
Fixpoint any_episodic (labels : list pyval) : result bool :=
  match labels with
  | [] => Ok false
  | PStr label :: rest =>
      if String.prefix "episodic" (lower label) then Ok true
      else any_episodic rest
  | _ :: _ => Raise AttributeError
  end.

(** The same over the keys of a dict. *)
Fixpoint any_episodic_key (ks : list pykey) : result bool :=
  match ks with
  | [] => Ok false
  | KStr label :: rest =>
      if String.prefix "episodic" (lower label) then Ok true
      else any_episodic_key rest
  | KInt _ :: _ => Raise AttributeError
  | KBytes _ :: _ => Raise TypeError     (* bytes.startswith(str) *)
  end.

Definition is_episodic (n : pyval) : result bool :=
  let labels := getattr n "labels" (PList []) in
  let labels := if py_truthy labels then labels else PList [] in
  found ← match labels with
          | PList l | PTuple l => any_episodic l
          | PDict d | POpaque OMappingProxy d => any_episodic_key (keys d)
          | POpaque _ entries => any_episodic (map snd entries)
          | PStr _ => Ok false      (* single characters never match *)
          | _ => Raise TypeError    (* not iterable *)
          end;
  Ok (found || contains "EpisodicNode" (type_name n)).

Fixpoint episodic_filter (node_results : list pyval)
         (episodic_nodes : list pyval) : result (list pyval) :=
  match node_results with
  | [] => Ok episodic_nodes
  | n :: rest =>
      b ← is_episodic n;
      if (b : bool) then episodic_filter rest (episodic_nodes ++ [n])
      else episodic_filter rest episodic_nodes
  end.

Definition episode_of (cleaned_ep : pyval) (tick : nat)
  : result EpisodeResponse :=
  new_EpisodeResponse
    (py_str (getattr cleaned_ep "uuid" (PStr "")))
    (getattr cleaned_ep "name" (PStr ""))
    (getattr cleaned_ep "episode_body" (PStr ""))
    (getattr (getattr cleaned_ep "source" EpisodeType_text) "value" (PStr "text"))
    (getattr cleaned_ep "source_description" PNone)
    (getattr cleaned_ep "reference_time" (PDatetime (clock tick)))
    (getattr cleaned_ep "created_at" (PDatetime (clock (S tick)))).

(** [try: ... except Exception: continue] around each episode; the clock is
    read twice once the sanitizer has returned. *)
Fixpoint episodes_loop (slicer : list pyval) (tick : nat)
         (episode_list : list EpisodeResponse) : list EpisodeResponse :=
  match slicer with
  | [] => episode_list
  | ep :: rest =>
      match clean_embedding_data ep with
      | Raise _ => episodes_loop rest tick episode_list
      | Ok cleaned_ep =>
          match episode_of cleaned_ep tick with
          | Ok r => episodes_loop rest (S (S tick)) (episode_list ++ [r])
          | Raise _ => episodes_loop rest (S (S tick)) episode_list
          end
      end
  end.

Definition get_episodes (limit offset : Z) (node_results : list pyval)
           (tick : nat) : result (list EpisodeResponse * nat) :=
  episodic_nodes ← episodic_filter node_results [];
  let slicer :=
    py_slice episodic_nodes offset
      (if negb (limit =? 0) then Some (offset + limit) else None) in
  Ok (episodes_loop slicer tick [], length episodic_nodes).
End Endpoints.

(** ** The sanitizer on a store

    The same function on values that live in a store of mutable cells:
    lists, tuples, dicts and objects are references, [cleaned = {}] and
    [cleaned_list = []] allocate, [cleaned[k] = cv] and [append] update a
    cell in place.  [depth] is what is left of the interpreter's recursion
    limit; a loop iterates over the contents its container has when the loop
    starts.  The cells are of the four kinds the sanitizer walks through. *)

Module Store.

Inductive val :=
| VNone
| VBool (b : bool)
| VInt (z : Z)
| VFloat (bits : Z)
| VStr (s : string)
| VDatetime (t : Z)
| VRef (a : nat).

Inductive cell :=
| CList (l : list val)
| CTuple (l : list val)
| CDict (items : list (pykey * val))
| CObj (cls : string) (attrs : list (string * val)).

Abbreviation heap := (list cell).

Definition alloc (h : heap) (c : cell) : heap * nat := (h ++ [c], length h).

(** [cleaned[k] = v] for the dict at address [a] *)
Definition set_item (h : heap) (a : nat) (k : pykey) (v : val) : heap :=
  match h !! a with
  | Some (CDict d) => <[a := CDict (dict_set d k v)]> h
  | _ => h
  end.

(** [cleaned_list.append(v)] for the list at address [a] *)
Definition append (h : heap) (a : nat) (v : val) : heap :=
  match h !! a with
  | Some (CList l) => <[a := CList (l ++ [v])]> h
  | _ => h
  end.

Definition is_numeric (v : val) : bool :=
  match v with
  | VBool _ | VInt _ | VFloat _ => true
  | _ => false
  end.

Definition is_none (v : val) : bool :=
  match v with
  | VNone => true
  | _ => false
  end.

Definition is_large_float_list (h : heap) (v : val) : bool :=
  match v with
  | VRef a =>
      match h !! a with
      | Some (CList l) =>
          (Nat.leb 32 (length l) && forallb is_numeric (take 64 l))%bool
      | _ => false
      end
  | _ => false
  end.

Section Loops.
(** The recursive call [clean_value(v)] one frame deeper. *)
Variable clean_value : val -> heap -> heap * result val.

Fixpoint clean_items (items : list (pykey * val)) (cleaned : nat) (h : heap)
  : heap * result val :=
  match items with
  | [] => (h, Ok (VRef cleaned))
  | (k, v) :: rest =>
      match should_drop_key k with
      | Raise e => (h, Raise e)
      | Ok true => clean_items rest cleaned h
      | Ok false =>
          if in_attributes k then clean_items rest cleaned h
          else
            match clean_value v h with
            | (h1, Raise e) => (h1, Raise e)
            | (h1, Ok cv) =>
                if is_none cv then clean_items rest cleaned h1
                else clean_items rest cleaned (set_item h1 cleaned k cv)
            end
      end
  end.

Fixpoint clean_attrs (attrs : list (string * val)) (cleaned : nat) (h : heap)
  : heap * result val :=
  match attrs with
  | [] => (h, Ok (VRef cleaned))
  | (k, v) :: rest =>
      match should_drop_key (KStr k) with
      | Raise e => (h, Raise e)
      | Ok d =>
          if (d || in_attributes (KStr k))%bool then clean_attrs rest cleaned h
          else
            match clean_value v h with
            | (h1, Raise e) => (h1, Raise e)
            | (h1, Ok cv) =>
                if is_none cv then clean_attrs rest cleaned h1
                else clean_attrs rest cleaned (set_item h1 cleaned (KStr k) cv)
            end
      end
  end.

Fixpoint clean_seq (l : list val) (cleaned_list : nat) (h : heap)
  : heap * result val :=
  match l with
  | [] => (h, Ok (VRef cleaned_list))
  | item :: rest =>
      match clean_value item h with
      | (h1, Raise e) => (h1, Raise e)
      | (h1, Ok ci) =>
          if is_none ci then clean_seq rest cleaned_list h1
          else clean_seq rest cleaned_list (append h1 cleaned_list ci)
      end
  end.
End Loops.

Fixpoint clean_value (depth : nat) (v : val) (h : heap) : heap * result val :=
  match depth with
  | O => (h, Raise RecursionError)
  | S depth' =>
      if is_large_float_list h v then (h, Ok VNone)
      else
        match v with
        | VRef a =>
            match h !! a with
            | Some (CDict items) =>
                let '(h1, cleaned) := alloc h (CDict []) in
                clean_items (clean_value depth') items cleaned h1
            | Some (CObj _ attrs) =>
                let '(h1, cleaned) := alloc h (CDict []) in
                clean_attrs (clean_value depth') attrs cleaned h1
            | Some (CList l) | Some (CTuple l) =>
                let '(h1, cleaned_list) := alloc h (CList []) in
                clean_seq (clean_value depth') l cleaned_list h1
            | None => (h, Ok v)
            end
        | _ => (h, Ok v)
        end
  end.

Definition clean_embedding_data (depth : nat) (value : val) (h : heap)
  : heap * result val :=
  clean_value depth value h.

(** The address a value refers to, if it is a reference. *)
Definition val_ref (v : val) : option nat :=
  match v with
  | VRef a => Some a
  | _ => None
  end.

Definition scalar_tree (v : val) : option pyval :=
  match v with
  | VNone => Some PNone
  | VBool b => Some (PBool b)
  | VInt z => Some (PInt z)
  | VFloat z => Some (PFloat z)
  | VStr s => Some (PStr s)
  | VDatetime t => Some (PDatetime t)
  | VRef _ => None
  end.

(** Reading a stored value back as a tree, down to [n] levels. *)
Fixpoint reify (n : nat) (h : heap) (v : val) : option pyval :=
  match v with
  | VRef a =>
      match n with
      | O => None
      | S n' =>
          match h !! a with
          | Some (CList l) => PList <$> mapM (reify n' h) l
          | Some (CTuple l) => PTuple <$> mapM (reify n' h) l
          | Some (CDict items) =>
              PDict <$> mapM (fun '(k, x) => pair k <$> reify n' h x) items
          | Some (CObj cls attrs) =>
              PObj cls <$> mapM (fun '(k, x) => pair k <$> reify n' h x) attrs
          | None => None
          end
      end
  | _ => scalar_tree v
  end.

(** [h'] keeps the first [n] cells of [h] and is at least as long. *)
Definition frame (n : nat) (h h' : heap) : Prop :=
  (length h <= length h')%nat /\ take n h' = take n h.

(** What a call may do to the store: keep every cell that exists when it
    starts, and return a scalar or a reference to a cell it allocated. *)
Definition call_ok (f : val -> heap -> heap * result val) : Prop :=
  forall v h h' r,
    f v h = (h', r) ->
    frame (length h) h h'
    /\ forall a, r = Ok (VRef a) -> (length h <= a)%nat.

(** [h2] has the cells of [h] at the addresses from [b] up to [e]. *)
Definition agree (b e : nat) (h h2 : heap) : Prop :=
  forall a, (b <= a)%nat -> (a < e)%nat -> h2 !! a = h !! a.

(** [v] reads back as [t] from every store that has the cells of [h]
    between [b] and [e]. *)
Definition stable (b e : nat) (h : heap) (v : val) (n : nat) (t : pyval)
  : Prop :=
  forall h2, agree b e h h2 -> reify n h2 v = Some t.

(** A cell and a tree whose children are related by [P]. *)
Definition cell_rel (P : val -> pyval -> Prop) (c : cell) (t : pyval) : Prop :=
  match c, t with
  | CList l, PList ts => Forall2 P l ts
  | CTuple l, PTuple ts => Forall2 P l ts
  | CDict items, PDict ts =>
      Forall2 (fun s u => s.1 = u.1 /\ P s.2 u.2) items ts
  | CObj cls attrs, PObj cls' ts =>
      cls = cls' /\ Forall2 (fun s u => s.1 = u.1 /\ P s.2 u.2) attrs ts
  | _, _ => False
  end.

End Store.

(** The outcome of a store call on a value that reads back as [t] agrees
    with the tree model: the same exception, or a result that reads back as
    the sanitized tree from the cells the call allocated. *)
Definition store_sim (n : nat) (h h' : Store.heap) (r : result Store.val)
           (t : pyval) : Prop :=
  match clean_value t with
  | Ok t' =>
      exists r', r = Ok r'
                 /\ Store.stable (length h) (length h') h' r' n t'
  | Raise e => r = Raise e
  end.

(** Loop invariants of the store model: the accumulator cell at [base]
    holds entries that read back as the entries of the tree accumulator,
    from the cells above [base]. *)
Definition seq_inv (n base : nat) (h : Store.heap) (acc : list pyval) : Prop :=
  exists acc_s,
    h !! base = Some (Store.CList acc_s)
    /\ Forall2 (fun s t => Store.stable (S base) (length h) h s n t) acc_s acc.

Definition dict_inv (n base : nat) (h : Store.heap)
           (acc : list (pykey * pyval)) : Prop :=
  exists acc_s,
    h !! base = Some (Store.CDict acc_s)
    /\ Forall2 (fun s u => s.1 = u.1
                           /\ Store.stable (S base) (length h) h s.2 n u.2)
         acc_s acc.


(** ** Sample values *)

Definition floats (n : nat) : list pyval := replicate n (PFloat 0).

(** A fact-like mapping with a 100-dimensional embedding, an [attributes]
    subtree, a short numeric list and falsy values. *)
Definition sample_fact : pyval :=
  PDict [(KStr "uuid", PStr "abc");
         (KStr "Name_Embedding", PList (floats 100));
         (KStr "attributes", PDict [(KStr "age", PInt 5)]);
         (KStr "coords", PList [PInt 1; PInt 2; PInt 3]);
         (KStr "meta", PDict []);
         (KStr "count", PInt 0);
         (KStr "vector", PList (floats 40));
         (KStr "valid_at", PNone);
         (KStr "fact", PStr "x works at Y")].

Definition sample_fact_clean : pyval :=
  PDict [(KStr "uuid", PStr "abc");
         (KStr "coords", PList [PInt 1; PInt 2; PInt 3]);
         (KStr "meta", PDict []);
         (KStr "count", PInt 0);
         (KStr "fact", PStr "x works at Y")].

Definition repr0 : pyval -> string := fun _ => "".
Definition clock0 : nat -> Z := fun t => 1700000000 + Z.of_nat t.

(** A node with an episodic label.  Its [source] is an object with a
    single [value] attribute, not a member of the engine's [EpisodeType]
    enumeration, whose attribute view leads back to its class. *)
Definition sample_episode : pyval :=
  PObj "EpisodicNode"
    [("uuid", PStr "e1"); ("name", PStr "Meeting notes");
     ("episode_body", PStr "Alice met Bob");
     ("source", PObj "EpisodeType" [("value", PStr "json")]);
     ("source_description", PStr "chat");
     ("created_at", PDatetime 5); ("valid_at", PDatetime 6);
     ("labels", PList [PStr "Episodic"])].

(** Entity nodes: with a name, with [name = None], and without a name. *)
Definition sample_node : pyval :=
  PObj "EntityNode"
    [("uuid", PStr "u"); ("name", PStr "Alice");
     ("name_embedding", PList (floats 100));
     ("summary", PStr "s"); ("labels", PList [PStr "Entity"]);
     ("created_at", PDatetime 5)].

Definition node_name_none : pyval :=
  PObj "EntityNode"
    [("uuid", PStr "u"); ("name", PNone);
     ("summary", PStr "s"); ("labels", PList [PStr "Entity"]);
     ("created_at", PDatetime 5)].

Definition node_no_name : pyval :=
  PObj "EntityNode"
    [("uuid", PStr "u");
     ("summary", PStr "s"); ("labels", PList [PStr "Entity"]);
     ("created_at", PDatetime 5)].

(** An edge with its embedding, and the same edge without it. *)
Definition sample_edge : pyval :=
  PObj "EntityEdge"
    [("uuid", PStr "f"); ("fact", PStr "x works at Y");
     ("fact_embedding", PList (floats 100));
     ("valid_at", PNone); ("source_node_uuid", PStr "u")].

Definition sample_edge_bare : pyval :=
  PObj "EntityEdge"
    [("uuid", PStr "f"); ("fact", PStr "x works at Y");
     ("source_node_uuid", PStr "u")].

(** A raw node without the attributes the sanitizer would drop. *)
Definition strip_heavy (o : pyval) : pyval :=
  match o with
  | PObj cls attrs =>
      PObj cls (List.filter (fun '(k, _) => negb (heavy_key (KStr k))) attrs)
  | _ => o
  end.

(** The defaults of an episode response read at clock readings [t], [t + 1]. *)
Definition default_episode (clock : nat -> Z) (r : EpisodeResponse) : Prop :=
  episode_uuid r = "" /\ episode_name r = "" /\ episode_content r = ""
  /\ episode_source_type r = "text"
  /\ episode_source_description r = None
  /\ exists t, episode_reference_time r = clock t
               /\ episode_created_at r = clock (S t).



(** A store without cycles: a mapping with an embedding and a tuple. *)
Definition sample_store_flat : Store.heap :=
  [Store.CDict [(KStr "uuid", Store.VStr "abc");
                (KStr "name_embedding", Store.VRef 1);
                (KStr "coords", Store.VRef 2)];
   Store.CList (replicate 40 (Store.VFloat 0));
   Store.CTuple [Store.VInt 1; Store.VInt 2]].

(** ** Induction over values *)

Section PyvalInd.
Variable P : pyval -> Prop.
Hypothesis HNone : P PNone.
Hypothesis HBool : forall b, P (PBool b).
Hypothesis HInt : forall z, P (PInt z).
Hypothesis HFloat : forall z, P (PFloat z).
Hypothesis HStr : forall s, P (PStr s).
Hypothesis HDatetime : forall t, P (PDatetime t).
Hypothesis HList : forall l, Forall P l -> P (PList l).
Hypothesis HTuple : forall l, Forall P l -> P (PTuple l).
Hypothesis HDict : forall items, Forall (fun kv => P kv.2) items -> P (PDict items).
Hypothesis HObj : forall cls attrs, Forall (fun kv => P kv.2) attrs -> P (PObj cls attrs).
Hypothesis HOpaque : forall kind entries,
  Forall (fun kv => P kv.2) entries -> P (POpaque kind entries).

Fixpoint pyval_ind (v : pyval) : P v :=
  match v with
  | PNone => HNone
  | PBool b => HBool b
  | PInt z => HInt z
  | PFloat z => HFloat z
  | PStr s => HStr s
  | PDatetime t => HDatetime t
  | PList l =>
      HList l ((fix go (l : list pyval) : Forall P l :=
                  match l with
                  | [] => List.Forall_nil _
                  | x :: l' => List.Forall_cons _ x l' (pyval_ind x) (go l')
                  end) l)
  | PTuple l =>
      HTuple l ((fix go (l : list pyval) : Forall P l :=
                   match l with
                   | [] => List.Forall_nil _
                   | x :: l' => List.Forall_cons _ x l' (pyval_ind x) (go l')
                   end) l)
  | PDict items =>
      HDict items
        ((fix go (l : list (pykey * pyval)) : Forall (fun kv => P kv.2) l :=
            match l with
            | [] => List.Forall_nil _
            | (k, x) :: l' =>
                List.Forall_cons (fun kv => P kv.2) (k, x) l' (pyval_ind x) (go l')
            end) items)
  | PObj cls attrs =>
      HObj cls attrs
        ((fix go (l : list (string * pyval)) : Forall (fun kv => P kv.2) l :=
            match l with
            | [] => List.Forall_nil _
            | (k, x) :: l' =>
                List.Forall_cons (fun kv => P kv.2) (k, x) l' (pyval_ind x) (go l')
            end) attrs)
  | POpaque kind entries =>
      HOpaque kind entries
        ((fix go (l : list (pykey * pyval)) : Forall (fun kv => P kv.2) l :=
            match l with
            | [] => List.Forall_nil _
            | (k, x) :: l' =>
                List.Forall_cons (fun kv => P kv.2) (k, x) l' (pyval_ind x) (go l')
            end) entries)
  end.
End PyvalInd.

(** ** Further definitions for the sanitizer *)

(** The attribute view of an object as the items of a dict. *)
Definition attrs_as_items (attrs : list (string * pyval))
  : list (pykey * pyval) :=
  map (fun '(k, v) => (KStr k, v)) attrs.

(** An element that the list loop leaves out. *)
Definition dropped_elem (e : pyval) : bool :=
  is_none e || is_large_float_list e.

(** ** More endpoint loops *)

(** The same truncation with an optional limit ([Optional[int]]). *)
Definition limit_results_opt {A} (limit : option Z) (results : list A)
  : list A :=
  match limit with
  | Some z => limit_results z results
  | None => results
  end.

(** The value of [limit and cond]: a falsy [limit] itself, else [cond]. *)
Definition limit_and (limit : option Z) (cond : Z -> bool) : pyval :=
  match limit with
  | None => PNone
  | Some z => if z =? 0 then PInt 0 else PBool (cond z)
  end.

(** The [data] of a [CypherQueryResponse]; [limited] is absent when the
    query returned nothing. *)
Record CypherData := {
  cypher_results : list pyval;
  cypher_total_results : nat;
  cypher_limited : option pyval
}.

(** [execute_cypher_query], lines 688-718; [rows] is what the driver
    returned. *)
Fixpoint cypher_rows (rows : list pyval) (processed_results : list pyval)
  : result (list pyval) :=
  match rows with
  | [] => Ok processed_results
  | row :: rest =>
      cleaned_row ← clean_embedding_data row;
      cypher_rows rest (processed_results ++ [cleaned_row])
  end.

Definition execute_cypher_query (limit : option Z) (rows : list pyval)
  : result CypherData :=
  if negb (Nat.eqb (length rows) 0) then
    processed_results ← cypher_rows rows [];
    let processed_results := limit_results_opt limit processed_results in
    Ok {| cypher_results := processed_results;
          cypher_total_results := length processed_results;
          cypher_limited :=
            Some (limit_and limit
                    (fun z => Z.of_nat (length processed_results) =? z)) |}
  else
    Ok {| cypher_results := []; cypher_total_results := 0;
          cypher_limited := None |}.

Section CenterFilter.
Variable repr : pyval -> string.


End CenterFilter.

(** The node response built when no attribute is found. *)
Definition default_node (created_at : Z) : NodeResponse :=
  {| node_uuid := ""; node_name := "Unknown"; node_content_summary := "";
     node_labels := []; node_created_at := created_at |}.

Definition is_object (v : pyval) : bool :=
  match v with
  | PObj _ _ => true
  | _ => false
  end.

(** ** Adding an episode

    [add_memory], lines 328-426.  The graph engine is an oracle: the
    outcome of [await get_graphiti()] for the request, and the engine's
    answer to the [i]-th call of [add_episode] made for it; an outcome is
    either a returned value or the text of the exception raised. *)

Inductive outcome (A : Type) :=
| Returned (a : A)
| Failed (msg : string).
Arguments Returned {A} a.
Arguments Failed {A} msg.

(** A [datetime]: seconds on its own wall clock, counted from
    1970-01-01 00:00:00, and its utc offset in seconds when it is aware. *)
Record pydatetime := {
  dt_wall : Z;
  dt_utcoffset : option Z
}.

(** [datetime.min] and [datetime.max]: 0001-01-01 00:00:00 and
    9999-12-31 23:59:59, to the second. *)
Definition datetime_min : Z := -62135596800.
Definition datetime_max : Z := 253402300799.

(** [rt.astimezone(timezone.utc).replace(tzinfo=None)] for an aware value,
    [rt.replace(tzinfo=None)] for a naive one.  [astimezone] subtracts the
    offset and raises [OverflowError] when that leaves the range of
    [datetime]. *)
Definition to_naive_utc (rt : pydatetime) : outcome pydatetime :=
  match dt_utcoffset rt with
  | Some offset =>
      let utc := dt_wall rt - offset in
      if (datetime_min <=? utc) && (utc <=? datetime_max)
      then Returned {| dt_wall := utc; dt_utcoffset := None |}
      else Failed "date value out of range"
  | None => Returned {| dt_wall := dt_wall rt; dt_utcoffset := None |}
  end.

(** [datetime(2024, 1, 1, 12, 0, 0)] *)
Definition default_reference_time : pydatetime :=
  {| dt_wall := 1704110400; dt_utcoffset := None |}.

Inductive EpisodeType :=
| EpisodeType_text_member
| EpisodeType_json_member.

Record AddMemoryRequest := {
  request_name : string;
  request_content : string;
  request_source_type : string;
  request_source_description : option string;
  request_reference_time : option pydatetime
}.

(** The arguments of one call of [graphiti.add_episode]; no
    [call_reference_time] when the parameter is not passed. *)
Record episode_call := {
  call_name : string;
  call_episode_body : string;
  call_source : EpisodeType;
  call_source_description : option string;
  call_reference_time : option pydatetime
}.

Inductive http_result :=
| Http200 (message : string) (episode_uuid : string)
| Http500 (detail : string).

(** [s[n:]] on strings *)
Fixpoint string_drop (n : nat) (s : string) : string :=
  match n, s with
  | S n', String _ s' => string_drop n' s'
  | _, _ => s
  end.

(** The character class [0-9a-fA-F-] *)
Definition is_hexdash (c : ascii) : bool :=
  let n := nat_of_ascii c in
  (Nat.leb 48 n && Nat.leb n 57) || (Nat.leb 97 n && Nat.leb n 102)
  || (Nat.leb 65 n && Nat.leb n 70) || Nat.eqb n 45.

(** The longest run of the class at the start of [s], and what follows. *)
Fixpoint span_hexdash (s : string) : string * string :=
  match s with
  | String c s' =>
      if is_hexdash c then
        let '(run, rest) := span_hexdash s' in (String c run, rest)
      else (EmptyString, s)
  | EmptyString => (EmptyString, EmptyString)
  end.

(** The pattern [uuid='([0-9a-fA-F-]+)'] matched at the start of [s]; the
    class holds no quote, so the greedy run is the only candidate. *)
Definition match_uuid_at (s : string) : option string :=
  if String.prefix "uuid='" s then
    let '(run, rest) := span_hexdash (string_drop 6 s) in
    if negb (String.eqb run "") && String.prefix "'" rest then Some run
    else None
  else None.

(** [re.search]: the leftmost match, its group 1. *)
Fixpoint re_search_uuid (s : string) : option string :=
  match match_uuid_at s with
  | Some g => Some g
  | None =>
      match s with
      | String _ s' => re_search_uuid s'
      | EmptyString => None
      end
  end.

Definition timezone_error (error_msg : string) : bool :=
  contains "offset-naive and offset-aware" error_msg
  || contains "timezone" (lower error_msg).

(** Lines 334-347: the reference time of the first call. *)
Definition reference_time_of (request : AddMemoryRequest)
  : outcome pydatetime :=
  match request_reference_time request with
  | Some rt => to_naive_utc rt
  | None => Returned default_reference_time
  end.

Section AddMemory.
Variable repr : pyval -> string.
Variable add_episode : nat -> episode_call -> outcome pyval.
(** The outcome of [await get_graphiti()]. *)
Variable started : outcome unit.

(** Lines 402-416; nothing in the [try] raises on the values modelled. *)
Definition episode_uuid_str (episode_uuid : pyval) : string :=
  if hasattr episode_uuid "uuid" then
    py_str repr (getattr episode_uuid "uuid" PNone)
  else
    let candidate := py_str repr episode_uuid in
    if contains "uuid='" candidate then
      match re_search_uuid candidate with
      | Some g => g
      | None => candidate
      end
    else candidate.

Definition added (request : AddMemoryRequest) (episode_uuid : pyval)
  : http_result :=
  Http200
    (String.append "Episode '"
       (String.append (request_name request) "' added successfully"))
    (episode_uuid_str episode_uuid).

(** The calls of [add_episode] made, in order, and the response.  An
    exception of [get_graphiti] or of the conversion of the reference time
    reaches the outer [except] before any call is made. *)
Definition add_memory (request : AddMemoryRequest)
  : list episode_call * http_result :=
  let failed (e : string) :=
    Http500 (String.append "Failed to add episode: " e) in
  match started with
  | Failed e => ([], failed e)
  | Returned _ =>
      let source_type :=
        if String.eqb (lower (request_source_type request)) "text"
        then EpisodeType_text_member else EpisodeType_json_member in
      match reference_time_of request with
      | Failed e => ([], failed e)
      | Returned reference_time =>
          let call rt :=
            {| call_name := request_name request;
               call_episode_body := request_content request;
               call_source := source_type;
               call_source_description := request_source_description request;
               call_reference_time := rt |} in
          match add_episode 0 (call (Some reference_time)) with
          | Returned episode_uuid =>
              ([call (Some reference_time)], added request episode_uuid)
          | Failed error_msg =>
              if timezone_error error_msg then
                match add_episode 1 (call (Some default_reference_time)) with
                | Returned episode_uuid =>
                    ([call (Some reference_time);
                      call (Some default_reference_time)],
                     added request episode_uuid)
                | Failed _ =>
                    match add_episode 2 (call None) with
                    | Returned episode_uuid =>
                        ([call (Some reference_time);
                          call (Some default_reference_time); call None],
                         added request episode_uuid)
                    | Failed _ =>
                        ([call (Some reference_time);
                          call (Some default_reference_time); call None],
                         failed error_msg)
                    end
                end
              else ([call (Some reference_time)], failed error_msg)
          end
      end
  end.
End AddMemory.

(** No single quote in [s]. *)
Fixpoint no_quote (s : string) : bool :=
  match s with
  | String c s' => negb (Ascii.eqb c "'") && no_quote s'
  | EmptyString => true
  end.

Fixpoint all_hexdash (s : string) : bool :=
  match s with
  | String c s' => is_hexdash c && all_hexdash s'
  | EmptyString => true
  end.

(** A reference time passed to the engine is naive. *)
Definition naive_call (c : episode_call) : bool :=
  match call_reference_time c with
  | Some rt =>
      match dt_utcoffset rt with
      | None => true
      | Some _ => false
      end
  | None => true
  end.

(** An engine that fails once over time zones, and a request. *)
Definition flaky_engine (i : nat) (c : episode_call) : outcome pyval :=
  match i with
  | O => Failed "can't compare offset-naive and offset-aware datetimes"
  | _ => Returned (PObj "AddEpisodeResults" [("uuid", PStr "e-1")])
  end.

Definition sample_request : AddMemoryRequest :=
  {| request_name := "Note"; request_content := "Alice met Bob";
     request_source_type := "Message"; request_source_description := None;
     request_reference_time :=
       Some {| dt_wall := 1700003600; dt_utcoffset := Some 3600 |} |}.

(** ** Start-up

    [get_graphiti], lines 176-260, and [health_check], lines 305-323.  The
    module-level globals and [os.environ] are the state; the constructors of
    the external libraries are oracles that return a handle or fail with the
    text of their exception. *)

Definition environment := string -> option string.

(** [os.getenv(name, default)] *)
Definition getenv (env : environment) (name default : string) : string :=
  match env name with
  | Some v => v
  | None => default
  end.

(** [os.environ[name] = value] *)
Definition setenv (env : environment) (name value : string) : environment :=
  fun k => if String.eqb k name then Some value else env k.

(** Truth value of [os.getenv(name)]: set and not empty. *)
Definition env_truthy (env : environment) (name : string) : bool :=
  match env name with
  | Some v => negb (String.eqb v "")
  | None => false
  end.

Definition missing_neo4j_message : string :=
  "Missing required Neo4j environment variables. Please set NEO4J_URI, NEO4J_USERNAME, NEO4J_PASSWORD, and NEO4J_DATABASE".

(** [os.getenv('USE_BGE_RERANKER', 'true').lower() == 'true'] *)
Definition bge_enabled (env : environment) : bool :=
  String.eqb (lower (getenv env "USE_BGE_RERANKER" "true")) "true".

Inductive health :=
| Healthy (graphiti_initialized enabled available active : bool)
| Unhealthy (error : string).

Section Startup.
(** Handles of the external objects. *)
Variables Graphiti_t Driver_t Llm_t Embedder_t Reranker_t : Type.

Variable Neo4jDriver : string -> string -> string -> string -> outcome Driver_t.
(** [OpenAIGenericClient(config=LLMConfig(api_key, model, small_model, base_url))] *)
Variable OpenAIGenericClient :
  option string -> string -> string -> string -> outcome Llm_t.
(** [int(text)] *)
Variable py_int : string -> outcome Z.
(** [OpenAIEmbedder(config=OpenAIEmbedderConfig(api_key, model, dim, base_url))] *)
Variable OpenAIEmbedder : string -> string -> Z -> string -> outcome Embedder_t.
Variable BGE_RERANKER_AVAILABLE : bool.
(** [BGERerankerClient()], which reads the environment. *)
Variable BGERerankerClient : environment -> outcome Reranker_t.
Variable Graphiti :
  Driver_t -> Llm_t -> Embedder_t -> option Reranker_t -> outcome Graphiti_t.
Variable build_indices_and_constraints : Graphiti_t -> outcome unit.

Record app_state := {
  graphiti_instance : option Graphiti_t;
  neo4j_driver_instance : option Driver_t;
  environ : environment
}.

Definition get_graphiti (st : app_state) : app_state * outcome Graphiti_t :=
  match graphiti_instance st with
  | Some g => (st, Returned g)
  | None =>
      let env := environ st in
      if negb (env_truthy env "NEO4J_URI" && env_truthy env "NEO4J_USERNAME"
               && env_truthy env "NEO4J_PASSWORD"
               && env_truthy env "NEO4J_DATABASE")
      then (st, Failed missing_neo4j_message)
      else
        match Neo4jDriver (getenv env "NEO4J_URI" "")
                (getenv env "NEO4J_USERNAME" "")
                (getenv env "NEO4J_PASSWORD" "")
                (getenv env "NEO4J_DATABASE" "") with
        | Failed e => (st, Failed e)
        | Returned neo4j_driver =>
            let st1 :=
              {| graphiti_instance := None;
                 neo4j_driver_instance := Some neo4j_driver;
                 environ := env |} in
            match OpenAIGenericClient (env "OPENROUTER_API_KEY")
                    (getenv env "OPENROUTER_LLM_MODEL" "openai/gpt-4.1-mini")
                    (getenv env "OPENROUTER_SMALL_MODEL" "openai/gpt-4.1-mini")
                    (getenv env "OPENROUTER_BASE_URL"
                       "https://openrouter.ai/api/v1") with
            | Failed e => (st1, Failed e)
            | Returned llm_client =>
                match py_int (getenv env "OLLAMA_EMBEDDING_DIM" "1024") with
                | Failed e => (st1, Failed e)
                | Returned embedding_dim =>
                    match OpenAIEmbedder
                            (getenv env "OLLAMA_API_KEY" "ollama")
                            (getenv env "OLLAMA_EMBEDDING_MODEL"
                               "mxbai-embed-large")
                            embedding_dim
                            (getenv env "OLLAMA_BASE_URL"
                               "http://localhost:11434/v1") with
                    | Failed e => (st1, Failed e)
                    | Returned embedder =>
                        let '(env2, cross_encoder) :=
                          if bge_enabled env && BGE_RERANKER_AVAILABLE then
                            let env2 :=
                              setenv env "HF_HOME"
                                (getenv env "BGE_MODEL_CACHE_DIR"
                                   "/app/models/bge-reranker") in
                            match BGERerankerClient env2 with
                            | Returned c => (env2, Some c)
                            | Failed _ => (env2, None)
                            end
                          else (env, None) in
                        let st2 :=
                          {| graphiti_instance := None;
                             neo4j_driver_instance := Some neo4j_driver;
                             environ := env2 |} in
                        match Graphiti neo4j_driver llm_client embedder
                                cross_encoder with
                        | Failed e => (st2, Failed e)
                        | Returned g =>
                            let st3 :=
                              {| graphiti_instance := Some g;
                                 neo4j_driver_instance := Some neo4j_driver;
                                 environ := env2 |} in
                            match build_indices_and_constraints g with
                            | Failed e => (st3, Failed e)
                            | Returned _ => (st3, Returned g)
                            end
                        end
                    end
                end
            end
        end
  end.

Definition health_check (st : app_state) : app_state * health :=
  match get_graphiti st with
  | (st', Returned _) =>
      let bge_reranker_enabled := bge_enabled (environ st') in
      (st', Healthy true bge_reranker_enabled BGE_RERANKER_AVAILABLE
              (bge_reranker_enabled && BGE_RERANKER_AVAILABLE))
  | (st', Failed e) => (st', Unhealthy e)
  end.
End Startup.

Arguments graphiti_instance {_ _} _.
Arguments neo4j_driver_instance {_ _} _.
Arguments environ {_ _} _.

(** Sample oracles: every constructor returns, the index build fails. *)
Definition sample_env : environment :=
  fun k =>
    if String.eqb k "NEO4J_URI" then Some "neo4j+s://db"
    else if String.eqb k "NEO4J_USERNAME" then Some "neo4j"
    else if String.eqb k "NEO4J_PASSWORD" then Some "secret"
    else if String.eqb k "NEO4J_DATABASE" then Some "neo4j"
    else None.

Definition sample_boot (build : outcome unit) (st : app_state nat nat)
  : app_state nat nat * outcome nat :=
  @get_graphiti nat nat unit unit unit
    (fun _ _ _ _ => Returned 7%nat)
    (fun _ _ _ _ => Returned tt)
    (fun _ => Returned 1024)
    (fun _ _ _ _ => Returned tt)
    true
    (fun _ => Failed "no model files")
    (fun _ _ _ _ => Returned 1%nat)
    (fun _ => build)
    st.

Definition sample_state : app_state nat nat :=
  {| graphiti_instance := None; neo4j_driver_instance := None;
     environ := sample_env |}.

(** ** The result tracker of the test script

    [TestResults] of test_comprehensive.py, lines 36-76. *)

Record test_result := {
  result_test : string;
  result_passed : bool;
  result_message : string;
  result_details : string
}.

Record TestResults := {
  tr_passed : nat;
  tr_failed : nat;
  tr_skipped : nat;
  tr_results : list test_result
}.

(** [__init__] *)
Definition TestResults_init : TestResults :=
  {| tr_passed := 0; tr_failed := 0; tr_skipped := 0; tr_results := [] |}.

Definition add_result (self : TestResults) (r : test_result) : TestResults :=
  {| tr_passed := if result_passed r then S (tr_passed self) else tr_passed self;
     tr_failed := if result_passed r then tr_failed self else S (tr_failed self);
     tr_skipped := tr_skipped self;
     tr_results := tr_results self ++ [r] |}.

(** What [print_summary] returns, and the total it prints. *)
Definition print_summary (self : TestResults) : bool :=
  Nat.eqb (tr_failed self) 0.

Definition summary_total (self : TestResults) : nat :=
  (tr_passed self + tr_failed self + tr_skipped self)%nat.

(** ** Results without their exception *)

Definition result_ok {A} (r : result A) : option A :=
  match r with
  | Ok a => Some a
  | Raise _ => None
  end.

Definition is_ok {A} (r : result A) : bool :=
  match r with
  | Ok _ => true
  | Raise _ => false
  end.

#[global] Instance result_fmap : FMap result := fun A B g m =>
  match m with
  | Ok a => Ok (g a)
  | Raise e => Raise e
  end.

(** A node that the filter of [get_episodes] keeps. *)
Definition episodic (n : pyval) : bool :=
  match is_episodic n with
  | Ok true => true
  | _ => false
  end.

(** * Properties *)

(** ** Unfolding and first facts *)

Lemma clean_value_eq (val : pyval) :
  clean_value val =
  if is_large_float_list val then Ok PNone
  else
    match val with
    | PDict items => clean_items clean_value items []
    | PObj _ attrs => clean_attrs clean_value attrs []
    | PList l => clean_seq clean_value l []
    | PTuple l => clean_seq clean_value l []
    | _ => Ok val
    end.
Proof. destruct val; reflexivity. Qed.

Lemma key_eqb_eq (a b : pykey) : key_eqb a b = true <-> a = b.
Proof.
  destruct a, b; simpl; split; intros H; try discriminate.
  - apply String.eqb_eq in H. congruence.
  - inversion H. apply String.eqb_refl.
  - apply Z.eqb_eq in H. congruence.
  - inversion H. apply Z.eqb_refl.
  - apply String.eqb_eq in H. congruence.
  - inversion H. apply String.eqb_refl.
Qed.

Lemma key_eqb_refl (a : pykey) : key_eqb a a = true.
Proof. now apply key_eqb_eq. Qed.

#[local] Arguments key_eqb : simpl never.

Lemma heavy_key_split (k : pykey) (b : bool) :
  should_drop_key k = Ok b -> heavy_key k = (b || in_attributes k)%bool.
Proof. destruct k; simpl; intros H; [congruence | discriminate..]. Qed.

Lemma should_drop_key_str (k : pykey) (b : bool) :
  should_drop_key k = Ok b -> is_str_key k = true.
Proof. destruct k; simpl; [reflexivity | discriminate..]. Qed.

(** ** The accumulating dict *)

Lemma dict_get_set (d : list (pykey * pyval)) (k k' : pykey) (v : pyval) :
  dict_get (dict_set d k v) k' = if key_eqb k k' then Some v else dict_get d k'.
Proof.
  induction d as [|[k0 v0] d IH]; simpl.
  - reflexivity.
  - destruct (key_eqb k0 k) eqn:E0; simpl.
    + apply key_eqb_eq in E0. subst k0. destruct (key_eqb k k'); reflexivity.
    + destruct (key_eqb k0 k') eqn:E1.
      * destruct (key_eqb k k') eqn:E2; [|reflexivity].
        apply key_eqb_eq in E1, E2. subst. rewrite key_eqb_refl in E0. discriminate.
      * apply IH.
Qed.

Lemma dict_set_fresh (d : list (pykey * pyval)) (k : pykey) (v : pyval) :
  key_in k (keys d) = false -> dict_set d k v = d ++ [(k, v)].
Proof.
  induction d as [|[k0 v0] d IH]; simpl; intros H.
  - reflexivity.
  - apply orb_false_iff in H as [H1 H2]. rewrite H1. f_equal. now apply IH.
Qed.

Lemma keys_dict_set (d : list (pykey * pyval)) (k : pykey) (v : pyval) :
  keys (dict_set d k v) = if key_in k (keys d) then keys d else keys d ++ [k].
Proof.
  induction d as [|[k0 v0] d IH]; simpl.
  - reflexivity.
  - destruct (key_eqb k0 k) eqn:E; simpl.
    + reflexivity.
    + unfold keys in *. rewrite IH. destruct (key_in k (map fst d)); reflexivity.
Qed.

Lemma key_in_app (k : pykey) (a b : list pykey) :
  key_in k (a ++ b) = (key_in k a || key_in k b)%bool.
Proof.
  induction a as [|x a IH]; simpl; [reflexivity|].
  rewrite IH. now rewrite orb_assoc.
Qed.

Lemma distinct_keys_snoc (ks : list pykey) (k : pykey) :
  distinct_keys ks = true -> key_in k ks = false ->
  distinct_keys (ks ++ [k]) = true.
Proof.
  induction ks as [|x ks IH]; simpl; intros Hd Hk.
  - reflexivity.
  - apply andb_true_iff in Hd as [Hx Hd].
    apply orb_false_iff in Hk as [Hxk Hk].
    rewrite key_in_app. simpl. rewrite orb_false_r.
    apply negb_true_iff in Hx. rewrite Hx. simpl.
    destruct (key_eqb k x) eqn:E.
    + apply key_eqb_eq in E. subst. rewrite key_eqb_refl in Hxk. discriminate.
    + simpl. now apply IH.
Qed.

Lemma distinct_keys_dict_set (d : list (pykey * pyval)) (k : pykey) (v : pyval) :
  distinct_keys (keys d) = true -> distinct_keys (keys (dict_set d k v)) = true.
Proof.
  intros Hd. rewrite keys_dict_set.
  destruct (key_in k (keys d)) eqn:E; [assumption|].
  now apply distinct_keys_snoc.
Qed.

Lemma forallb_dict_set (Q : pykey * pyval -> bool) d k v :
  forallb Q d = true -> Q (k, v) = true ->
  forallb Q (dict_set d k v) = true.
Proof.
  intros Hd Hq. induction d as [|[k0 v0] d IH]; simpl in *.
  - now rewrite Hq.
  - apply andb_true_iff in Hd as [H0 Hd].
    destruct (key_eqb k0 k) eqn:E; simpl.
    + apply key_eqb_eq in E. subst k0. now rewrite Hq, Hd.
    + rewrite H0. now apply IH.
Qed.

(** ** Loop invariants *)

Section LoopFacts.
Variable f : pyval -> result pyval.

(** Invariant rule for the [dict] loop. *)
Lemma clean_items_inv (I : list (pykey * pyval) -> Prop) items :
  (forall k v cv acc,
      In (k, v) items -> should_drop_key k = Ok false ->
      in_attributes k = false -> f v = Ok cv -> is_none cv = false ->
      I acc -> I (dict_set acc k cv)) ->
  forall acc r, I acc -> clean_items f items acc = Ok r ->
                exists d, r = PDict d /\ I d.
Proof.
  induction items as [|[k v] rest IH]; intros Hstep acc r Hacc Hr; simpl in Hr.
  - inversion Hr. eauto.
  - assert (Hrest : forall k v cv acc,
               In (k, v) rest -> should_drop_key k = Ok false ->
               in_attributes k = false -> f v = Ok cv -> is_none cv = false ->
               I acc -> I (dict_set acc k cv)).
    { intros. eapply Hstep; eauto. now right. }
    destruct (should_drop_key k) as [[|]|] eqn:Ek; try discriminate.
    + eapply IH; eauto.
    + destruct (in_attributes k) eqn:Ea.
      * eapply IH; eauto.
      * destruct (f v) as [cv|] eqn:Ef; try discriminate.
        destruct (is_none cv) eqn:En.
        -- eapply IH; eauto.
        -- eapply IH; [exact Hrest | | exact Hr].
           eapply Hstep; eauto. now left.
Qed.

(** Invariant rule for the [__dict__] loop. *)
Lemma clean_attrs_inv (I : list (pykey * pyval) -> Prop) attrs :
  (forall k v cv acc,
      In (k, v) attrs -> heavy_key (KStr k) = false ->
      f v = Ok cv -> is_none cv = false ->
      I acc -> I (dict_set acc (KStr k) cv)) ->
  forall acc r, I acc -> clean_attrs f attrs acc = Ok r ->
                exists d, r = PDict d /\ I d.
Proof.
  induction attrs as [|[k v] rest IH]; intros Hstep acc r Hacc Hr.
  - inversion Hr. eauto.
  - assert (Hrest : forall k v cv acc,
               In (k, v) rest -> heavy_key (KStr k) = false ->
               f v = Ok cv -> is_none cv = false ->
               I acc -> I (dict_set acc (KStr k) cv)).
    { intros. eapply Hstep; eauto. now right. }
    cbn [clean_attrs] in Hr.
    change (should_drop_key (KStr k)) with
      (Ok (contains "embedding" (lower k)
           || str_in (lower k) ["name_embedding"; "fact_embedding"])%bool) in Hr.
    cbv iota beta in Hr.
    change ((contains "embedding" (lower k)
             || str_in (lower k) ["name_embedding"; "fact_embedding"])
            || in_attributes (KStr k))%bool with (heavy_key (KStr k)) in Hr.
    destruct (heavy_key (KStr k)) eqn:Eh.
    + eapply IH; eauto.
    + destruct (f v) as [cv|] eqn:Ef; try discriminate.
      destruct (is_none cv) eqn:En.
      * eapply IH; eauto.
      * eapply IH; [exact Hrest | | exact Hr].
        eapply Hstep; eauto. now left.
Qed.

(** The list loop appends the kept results in order. *)
Lemma clean_seq_spec l : forall acc r,
  clean_seq f l acc = Ok r ->
  exists cs, Forall2 (fun e c => f e = Ok c) l cs
             /\ r = PList (acc ++ List.filter (fun c => negb (is_none c)) cs).
Proof.
  induction l as [|e l IH]; intros acc r Hr; simpl in Hr.
  - inversion Hr. exists []. split; [constructor|]. now rewrite app_nil_r.
  - destruct (f e) as [c|] eqn:Ef; try discriminate.
    destruct (is_none c) eqn:En.
    + destruct (IH _ _ Hr) as (cs & H2 & ->).
      exists (c :: cs). split; [now constructor|]. simpl. now rewrite En.
    + destruct (IH _ _ Hr) as (cs & H2 & ->).
      exists (c :: cs). split; [now constructor|]. simpl. rewrite En. simpl.
      now rewrite <- app_assoc.
Qed.
End LoopFacts.

(** ** Shape of results *)

Lemma clean_value_shape (v c : pyval) :
  clean_value v = Ok c ->
  match v with
  | PList _ => if is_large_float_list v then c = PNone else exists l', c = PList l'
  | PTuple _ => exists l', c = PList l'
  | PDict _ | PObj _ _ => exists d, c = PDict d
  | _ => c = v
  end.
Proof.
  rewrite clean_value_eq. destruct v; simpl is_large_float_list; try congruence.
  - destruct (_ && _)%bool; [congruence|].
    intros H. apply clean_seq_spec in H as (cs & _ & ->). eauto.
  - intros H. apply clean_seq_spec in H as (cs & _ & ->). eauto.
  - intros H. eapply (clean_items_inv _ (fun _ => True)) in H as (d & -> & _); eauto.
  - intros H. eapply (clean_attrs_inv _ (fun _ => True)) in H as (d & -> & _); eauto.
Qed.

Lemma clean_value_numeric (v c : pyval) :
  clean_value v = Ok c -> is_numeric c = is_numeric v.
Proof.
  intros H. apply clean_value_shape in H. destruct v; subst; try reflexivity.
  - destruct (is_large_float_list _); [|destruct H]; subst; reflexivity.
  - destruct H; subst; reflexivity.
  - destruct H; subst; reflexivity.
  - destruct H; subst; reflexivity.
Qed.

(** A result is [None] exactly for [None] itself and for a detected list. *)
Lemma clean_value_none (v c : pyval) :
  clean_value v = Ok c ->
  is_none c = (is_none v || is_large_float_list v)%bool.
Proof.
  intros H. apply clean_value_shape in H. destruct v; subst; try reflexivity.
  - destruct (is_large_float_list _); [|destruct H]; subst; reflexivity.
  - destruct H; subst; reflexivity.
  - destruct H; subst; reflexivity.
  - destruct H; subst; reflexivity.
Qed.

Lemma clean_list_none_iff (l : list pyval) :
  clean_value (PList l) = Ok PNone <-> is_large_float_list (PList l) = true.
Proof.
  split.
  - intros H. apply clean_value_shape in H.
    destruct (is_large_float_list (PList l)); [reflexivity|].
    destruct H; discriminate.
  - intros H. rewrite clean_value_eq. now rewrite H.
Qed.

Lemma take_min_length {A} (n : nat) (l : list A) :
  take (Nat.min n (length l)) l = take n l.
Proof.
  destruct (Nat.le_ge_cases n (length l)) as [H|H].
  - now rewrite Nat.min_l.
  - rewrite Nat.min_r by assumption.
    rewrite !firstn_all2; auto.
Qed.

(** ** Totality on string-keyed values *)

Section Totality.
Variable f : pyval -> result pyval.

Lemma clean_items_total items :
  Forall (fun kv => is_str_key kv.1 = true /\ exists c, f kv.2 = Ok c) items ->
  forall acc, exists d, clean_items f items acc = Ok (PDict d).
Proof.
  induction 1 as [|[k v] rest [Hk [c Hc]] _ IH]; intros acc; simpl in *.
  - eauto.
  - destruct k as [s| |]; [|discriminate..]. simpl should_drop_key.
    destruct (_ || _)%bool; [apply IH|].
    destruct (in_attributes _); [apply IH|].
    rewrite Hc. destruct (is_none c); apply IH.
Qed.

Lemma clean_attrs_total attrs :
  Forall (fun kv => exists c, f kv.2 = Ok c) attrs ->
  forall acc, exists d, clean_attrs f attrs acc = Ok (PDict d).
Proof.
  induction 1 as [|[k v] rest [c Hc] _ IH]; intros acc; simpl in *.
  - eauto.
  - destruct (_ || _)%bool; [apply IH|].
    rewrite Hc. destruct (is_none c); apply IH.
Qed.

Lemma clean_seq_total l :
  Forall (fun e => exists c, f e = Ok c) l ->
  forall acc, exists l', clean_seq f l acc = Ok (PList l').
Proof.
  induction 1 as [|e rest [c Hc] _ IH]; intros acc; simpl.
  - eauto.
  - rewrite Hc. destruct (is_none c); apply IH.
Qed.
End Totality.

Lemma clean_value_total (x : pyval) :
  str_keyed x = true -> exists y, clean_value x = Ok y.
Proof.
  induction x as [| | | | | |l IH|l IH|items IH|cls attrs IH|kind entries IHo] using pyval_ind;
    intros Hk; rewrite clean_value_eq;
    destruct (is_large_float_list _); eauto; simpl in Hk.
  - destruct (clean_seq_total clean_value l) with (acc := @nil pyval) as [l' ->]; eauto.
    rewrite forallb_forall in Hk. rewrite Forall_forall in IH |- *.
    intros e He. apply IH; [exact He|]. apply Hk. now apply list_elem_of_In.
  - destruct (clean_seq_total clean_value l) with (acc := @nil pyval) as [l' ->]; eauto.
    rewrite forallb_forall in Hk. rewrite Forall_forall in IH |- *.
    intros e He. apply IH; [exact He|]. apply Hk. now apply list_elem_of_In.
  - destruct (clean_items_total clean_value items) with (acc := @nil (pykey * pyval))
      as [d ->]; eauto.
    rewrite forallb_forall in Hk. rewrite Forall_forall in IH |- *.
    intros [k v] He. specialize (Hk (k, v)). simpl in *.
    apply list_elem_of_In in He as He'. specialize (Hk He').
    apply andb_true_iff in Hk as [Hk1 Hk2]. split; [exact Hk1|].
    now apply (IH (k, v)).
  - destruct (clean_attrs_total clean_value attrs) with (acc := @nil (pykey * pyval))
      as [d ->]; eauto.
    rewrite forallb_forall in Hk. rewrite Forall_forall in IH |- *.
    intros [k v] He. specialize (Hk (k, v)). simpl in *.
    apply list_elem_of_In in He as He'. specialize (Hk He').
    now apply (IH (k, v)).
Qed.

(** ** What the [dict] loop stores under each key *)

Lemma In_key_in (k : pykey) (v : pyval) (items : list (pykey * pyval)) :
  In (k, v) items -> key_in k (keys items) = true.
Proof.
  induction items as [|[k0 v0] items IH]; simpl; intros H; [contradiction|].
  destruct H as [H|H].
  - inversion H; subst. now rewrite key_eqb_refl.
  - rewrite IH by assumption. apply orb_true_r.
Qed.

Lemma key_eqb_in_notin (k0 k : pykey) (ks : list pykey) :
  key_in k0 ks = false -> key_in k ks = true -> key_eqb k0 k = false.
Proof.
  intros H0 H1. destruct (key_eqb k0 k) eqn:E; [|reflexivity].
  apply key_eqb_eq in E. subst. congruence.
Qed.

Section ItemsLookup.
Variable f : pyval -> result pyval.

Lemma clean_items_lookup items :
  distinct_keys (keys items) = true ->
  forall acc d, clean_items f items acc = Ok (PDict d) ->
    (forall k, key_in k (keys items) = false -> dict_get d k = dict_get acc k)
    /\ (forall k v, In (k, v) items ->
          (heavy_key k = true -> dict_get d k = dict_get acc k)
          /\ (heavy_key k = false ->
              exists cv, f v = Ok cv
                /\ dict_get d k = if is_none cv then dict_get acc k else Some cv)).
Proof.
  induction items as [|[k0 v0] rest IH]; intros Hd acc d Hr.
  - simpl in Hr. inversion Hr; subst. split; [reflexivity | intros ? ? []].
  - simpl in Hd. apply andb_true_iff in Hd as [Hk0 Hd].
    apply negb_true_iff in Hk0. fold (keys rest) in Hk0, Hd.
    assert (Hstep : exists acc',
               clean_items f rest acc' = Ok (PDict d)
               /\ (forall k, key_eqb k0 k = false -> dict_get acc' k = dict_get acc k)
               /\ (heavy_key k0 = true -> dict_get acc' k0 = dict_get acc k0)
               /\ (heavy_key k0 = false ->
                   exists cv, f v0 = Ok cv
                     /\ dict_get acc' k0
                        = if is_none cv then dict_get acc k0 else Some cv)).
    { simpl in Hr.
      destruct (should_drop_key k0) as [b|] eqn:Ek; [|discriminate].
      rewrite (heavy_key_split _ _ Ek).
      destruct b; simpl.
      { exists acc. repeat split; auto; discriminate. }
      destruct (in_attributes k0).
      { exists acc. repeat split; auto; discriminate. }
      destruct (f v0) as [cv|] eqn:Ef; [|discriminate].
      destruct (is_none cv) eqn:En.
      - exists acc. repeat split; auto; try discriminate.
        intros _. exists cv. now rewrite En.
      - exists (dict_set acc k0 cv). split; [exact Hr|]. split; [|split].
        + intros k Hk. rewrite dict_get_set. now rewrite Hk.
        + discriminate.
        + intros _. exists cv. rewrite En, dict_get_set, key_eqb_refl. auto. }
    destruct Hstep as (acc' & Hr' & Hother & Hh & Hl).
    destruct (IH Hd _ _ Hr') as [IH1 IH2]. split.
    + intros k Hk. simpl in Hk. apply orb_false_iff in Hk as [Hk1 Hk2].
      rewrite IH1 by assumption. now apply Hother.
    + intros k v [Hin|Hin].
      * inversion Hin; subst k0 v0. rewrite (IH1 _ Hk0). split; [exact Hh|].
        intros Hn. destruct (Hl Hn) as (cv & Hc & Hg). eauto.
      * assert (Hne : key_eqb k0 k = false).
        { eapply key_eqb_in_notin; eauto using In_key_in. }
        destruct (IH2 _ _ Hin) as [A B]. split.
        -- intros Hy. rewrite (A Hy). now apply Hother.
        -- intros Hn. destruct (B Hn) as (cv & Hc & Hg). exists cv.
           split; [exact Hc|]. rewrite Hg, (Hother _ Hne). reflexivity.
Qed.
End ItemsLookup.

(** ** Results are in normal form *)

Lemma entries_ok_dict (d : list (pykey * pyval)) :
  distinct_keys (keys d) = true /\ forallb entry_ok d = true <->
  plain (PDict d) = true /\ has_heavy_key (PDict d) = false.
Proof.
  simpl. rewrite andb_true_iff.
  assert (E : forallb entry_ok d = true <->
              forallb (fun '(k, x) => is_str_key k && negb (is_none x) && plain x) d = true
              /\ existsb (fun '(k, x) => heavy_key k || has_heavy_key x) d = false).
  { induction d as [|[k x] d IH]; simpl; [tauto|].
    rewrite !andb_true_iff, orb_false_iff, IH.
    destruct (is_str_key k), (is_none x), (plain x), (heavy_key k),
      (has_heavy_key x); simpl; intuition congruence. }
  rewrite E. tauto.
Qed.

Lemma elems_ok_list (l : list pyval) :
  forallb elem_ok l = true <->
  plain (PList l) = true /\ has_heavy_key (PList l) = false.
Proof.
  simpl. induction l as [|e l IH]; simpl; [tauto|].
  rewrite !andb_true_iff, orb_false_iff, IH. unfold elem_ok.
  destruct (is_none e), (plain e), (has_heavy_key e); simpl; intuition congruence.
Qed.

Lemma forallb_filter_in {A} (Q keep : A -> bool) (cs : list A) :
  (forall c, In c cs -> keep c = true -> Q c = true) ->
  forallb Q (List.filter keep cs) = true.
Proof.
  intros H. apply forallb_forall. intros c Hc.
  apply filter_In in Hc as [Hin Hk]. auto.
Qed.

Lemma Forall2_In_r {A B} (R : A -> B -> Prop) l cs c :
  Forall2 R l cs -> In c cs -> exists e, In e l /\ R e c.
Proof.
  induction 1 as [|e c' l cs HR _ IH]; simpl; intros Hin; [contradiction|].
  destruct Hin as [->|Hin]; [eauto|].
  destruct (IH Hin) as (e' & He & Hr). eauto.
Qed.

Lemma Forall_In_at {A} (Q : A -> Prop) (l : list A) (x : A) :
  Forall Q l -> In x l -> Q x.
Proof.
  intros H Hin. rewrite Forall_forall in H. apply H. now apply list_elem_of_In.
Qed.

(** Fetch the induction hypothesis of a child found by membership. *)
Ltac child_ih IH Hin IHv :=
  pose proof (Forall_In_at _ _ _ IH Hin) as IHv; simpl in IHv.

Lemma recognised_elem (l : list pyval) (e : pyval) :
  forallb recognised l = true -> In e l -> recognised e = true.
Proof. intros H Hin. rewrite forallb_forall in H. now apply H. Qed.

Lemma recognised_entry {K} (items : list (K * pyval)) (k : K) (v : pyval) :
  forallb (fun '(_, x) => recognised x) items = true ->
  In (k, v) items -> recognised v = true.
Proof. intros H Hin. rewrite forallb_forall in H. now apply (H (k, v)). Qed.

(** On an input without pass-through containers the result is a plain
    value without heavy keys. *)
Lemma clean_value_normal (x y : pyval) :
  recognised x = true ->
  clean_value x = Ok y -> plain y = true /\ has_heavy_key y = false.
Proof.
  revert y.
  induction x as [| | | | | |l IH|l IH|items IH|cls attrs IH|kind entries IHo] using pyval_ind;
    intros y Hr; rewrite clean_value_eq;
    destruct (is_large_float_list _);
    try (intros H; inversion H; subst; split; reflexivity);
    try discriminate Hr; simpl in Hr.
  - intros H. apply clean_seq_spec in H as (cs & H2 & ->). simpl app.
    apply elems_ok_list. apply forallb_filter_in. intros c Hc Hk.
    destruct (Forall2_In_r _ _ _ _ H2 Hc) as (e & He & Hec).
    child_ih IH He IHe.
    destruct (IHe _ (recognised_elem _ _ Hr He) Hec) as [Hp Hh].
    unfold elem_ok. now rewrite Hk, Hp, Hh.
  - intros H. apply clean_seq_spec in H as (cs & H2 & ->). simpl app.
    apply elems_ok_list. apply forallb_filter_in. intros c Hc Hk.
    destruct (Forall2_In_r _ _ _ _ H2 Hc) as (e & He & Hec).
    child_ih IH He IHe.
    destruct (IHe _ (recognised_elem _ _ Hr He) Hec) as [Hp Hh].
    unfold elem_ok. now rewrite Hk, Hp, Hh.
  - intros H.
    eapply (clean_items_inv _
              (fun d => distinct_keys (keys d) = true /\ forallb entry_ok d = true))
      in H as (d & -> & Hd); [now apply entries_ok_dict | | now split].
    intros k v cv acc Hin Hk Ha Hc Hn [Hacc1 Hacc2]. split.
    + now apply distinct_keys_dict_set.
    + apply forallb_dict_set; [assumption|].
      child_ih IH Hin IHv.
      destruct (IHv _ (recognised_entry _ _ _ Hr Hin) Hc) as [Hp Hh].
      unfold entry_ok. rewrite (should_drop_key_str _ _ Hk), Hn, Hp, Hh.
      rewrite (heavy_key_split _ _ Hk), Ha. reflexivity.
  - intros H.
    eapply (clean_attrs_inv _
              (fun d => distinct_keys (keys d) = true /\ forallb entry_ok d = true))
      in H as (d & -> & Hd); [now apply entries_ok_dict | | now split].
    intros k v cv acc Hin Hk Hc Hn [Hacc1 Hacc2]. split.
    + now apply distinct_keys_dict_set.
    + apply forallb_dict_set; [assumption|].
      child_ih IH Hin IHv.
      destruct (IHv _ (recognised_entry _ _ _ Hr Hin) Hc) as [Hp Hh].
      unfold entry_ok. rewrite Hn, Hp, Hh, Hk. reflexivity.
Qed.

(** ** Values the sanitizer leaves alone *)

Lemma key_eqb_sym (a b : pykey) : key_eqb a b = key_eqb b a.
Proof.
  destruct (key_eqb a b) eqn:E1, (key_eqb b a) eqn:E2; try reflexivity.
  - apply key_eqb_eq in E1. subst. now rewrite key_eqb_refl in E2.
  - apply key_eqb_eq in E2. subst. now rewrite key_eqb_refl in E1.
Qed.

Lemma distinct_keys_mid (a b : list pykey) (k : pykey) :
  distinct_keys (a ++ k :: b) = true -> key_in k a = false.
Proof.
  induction a as [|x a IH]; simpl; intros H; [reflexivity|].
  apply andb_true_iff in H as [Hx Hd]. apply negb_true_iff in Hx.
  rewrite key_in_app in Hx. apply orb_false_iff in Hx as [_ Hx].
  simpl in Hx. apply orb_false_iff in Hx as [Hx _].
  rewrite key_eqb_sym, Hx. simpl. now apply IH.
Qed.

Section FixedLoops.
Variable f : pyval -> result pyval.

Lemma clean_items_fixed items : forall acc,
  distinct_keys (keys (acc ++ items)) = true ->
  (forall k v, In (k, v) items ->
     is_str_key k = true /\ heavy_key k = false
     /\ is_none v = false /\ f v = Ok v) ->
  clean_items f items acc = Ok (PDict (acc ++ items)).
Proof.
  induction items as [|[k v] rest IH]; intros acc Hd Hall; simpl.
  - now rewrite app_nil_r.
  - destruct (Hall k v (or_introl eq_refl)) as (Hs & Hh & Hn & Hf).
    destruct k as [s| |]; [|discriminate..].
    simpl in Hh. apply orb_false_iff in Hh as [Hh1 Hh2].
    simpl should_drop_key. rewrite Hh1. simpl in_attributes. rewrite Hh2.
    rewrite Hf, Hn.
    unfold keys in Hd. rewrite map_app in Hd. simpl in Hd.
    rewrite dict_set_fresh by (eapply distinct_keys_mid; exact Hd).
    rewrite IH.
    + now rewrite <- app_assoc.
    + unfold keys. rewrite <- app_assoc, map_app. exact Hd.
    + intros k' v' Hin. apply Hall. now right.
Qed.

Lemma clean_seq_fixed l : forall acc,
  (forall e, In e l -> is_none e = false /\ f e = Ok e) ->
  clean_seq f l acc = Ok (PList (acc ++ l)).
Proof.
  induction l as [|e l IH]; intros acc Hall; simpl.
  - now rewrite app_nil_r.
  - destruct (Hall e (or_introl eq_refl)) as [Hn Hf]. rewrite Hf, Hn.
    rewrite IH by (intros; apply Hall; now right).
    now rewrite <- app_assoc.
Qed.
End FixedLoops.

Lemma has_embedding_top (v : pyval) :
  has_embedding v = false -> embedding_shaped v = false.
Proof.
  destruct v; simpl; intros H; try reflexivity;
    apply orb_false_iff in H as [H _]; exact H.
Qed.

Lemma large_is_shaped (v : pyval) :
  embedding_shaped v = false -> is_large_float_list v = false.
Proof. destruct v; simpl; auto. Qed.

Lemma clean_value_fixed (y : pyval) :
  plain y = true -> has_heavy_key y = false -> has_embedding y = false ->
  clean_value y = Ok y.
Proof.
  induction y as [| | | | | |l IH|l IH|items IH|cls attrs IH|kind entries IHo] using pyval_ind;
    intros Hp Hh He; try reflexivity; try discriminate.
  - rewrite clean_value_eq.
    rewrite (large_is_shaped _ (has_embedding_top _ He)).
    rewrite clean_seq_fixed; [reflexivity|].
    intros e Hin. simpl in Hp, Hh, He.
    apply orb_false_iff in He as [_ He].
    rewrite forallb_forall in Hp. specialize (Hp e Hin).
    apply andb_true_iff in Hp as [Hn Hp]. apply negb_true_iff in Hn.
    split; [exact Hn|]. child_ih IH Hin IHe. apply IHe; [exact Hp| |].
    + destruct (has_heavy_key e) eqn:E; [|reflexivity].
      rewrite <- Hh. symmetry. apply existsb_exists. eauto.
    + destruct (has_embedding e) eqn:E; [|reflexivity].
      rewrite <- He. symmetry. apply existsb_exists. eauto.
  - rewrite clean_value_eq. simpl is_large_float_list. cbv iota.
    simpl in Hp, Hh, He. apply andb_true_iff in Hp as [Hd Hp].
    rewrite clean_items_fixed; [reflexivity | exact Hd |].
    intros k v Hin. rewrite forallb_forall in Hp. specialize (Hp _ Hin).
    simpl in Hp. apply andb_true_iff in Hp as [Hp Hpl].
    apply andb_true_iff in Hp as [Hs Hn]. apply negb_true_iff in Hn.
    assert (Hk : (heavy_key k || has_heavy_key v)%bool = false).
    { destruct (heavy_key k || has_heavy_key v)%bool eqn:E; [|reflexivity].
      rewrite <- Hh. symmetry. apply existsb_exists. exists (k, v). auto. }
    apply orb_false_iff in Hk as [Hk1 Hk2].
    repeat split; try assumption.
    child_ih IH Hin IHv. apply IHv; try assumption.
    destruct (has_embedding v) eqn:E; [|reflexivity].
    rewrite <- He. symmetry. apply existsb_exists. exists (k, v). auto.
Qed.

(** ** Sequences that cannot turn into an embedding *)

Lemma forallb_take_S {A} (Q : A -> bool) (n : nat) (l : list A) :
  forallb Q (take n l) = false -> forallb Q (take (S n) l) = false.
Proof.
  revert l. induction n as [|n IH]; intros l; [discriminate|].
  destruct l as [|x l]; [discriminate|].
  change (take (S (S n)) (x :: l)) with (x :: take (S n) l).
  change (take (S n) (x :: l)) with (x :: take n l).
  simpl forallb. destruct (Q x); simpl; [apply IH | reflexivity].
Qed.

Lemma anchor_survives (l cs : list pyval) :
  Forall2 (fun e c => clean_value e = Ok c) l cs ->
  forall n, existsb kept_non_numeric (take n l) = true ->
  forallb is_numeric (take n (List.filter (fun c => negb (is_none c)) cs)) = false.
Proof.
  induction 1 as [|e c l cs Hec _ IH]; intros n Hn.
  - destruct n; discriminate.
  - destruct n as [|n]; [discriminate|].
    change (take (S n) (e :: l)) with (e :: take n l) in Hn. simpl existsb in Hn.
    pose proof (clean_value_none _ _ Hec) as Hnone.
    pose proof (clean_value_numeric _ _ Hec) as Hnum.
    simpl List.filter. unfold kept_non_numeric in Hn.
    rewrite <- orb_assoc, <- Hnone, <- Hnum in Hn.
    destruct (is_none c) eqn:Ec; simpl negb; cbv iota.
    + apply forallb_take_S. apply IH.
      rewrite orb_true_r in Hn. exact Hn.
    + change (take (S n) (c :: ?x)) with (c :: take n x). simpl forallb.
      rewrite orb_false_r in Hn.
      destruct (is_numeric c); simpl in *; [apply IH; exact Hn | reflexivity].
Qed.

Lemma filter_length_le {A} (keep : A -> bool) (l : list A) :
  (length (List.filter keep l) <= length l)%nat.
Proof.
  induction l as [|x l IH]; simpl; [lia|]. destruct (keep x); simpl; lia.
Qed.

Lemma seq_safe_out (l cs : list pyval) :
  Forall2 (fun e c => clean_value e = Ok c) l cs ->
  seq_safe l = true ->
  embedding_shaped (PList (List.filter (fun c => negb (is_none c)) cs)) = false.
Proof.
  intros H2 Hs. unfold seq_safe in Hs. unfold embedding_shaped.
  apply orb_true_iff in Hs as [Hs|Hs].
  - apply Nat.ltb_lt in Hs. apply Forall2_length in H2 as Hlen.
    pose proof (filter_length_le (fun c => negb (is_none c)) cs) as Hle.
    assert (E : Nat.leb 32 (length (List.filter (fun c => negb (is_none c)) cs))
                = false) by (apply Nat.leb_gt; lia).
    now rewrite E.
  - rewrite (anchor_survives _ _ H2 _ Hs). apply andb_false_r.
Qed.

Lemma existsb_filter_in {A} (Q keep : A -> bool) (cs : list A) :
  (forall c, In c cs -> keep c = true -> Q c = false) ->
  existsb Q (List.filter keep cs) = false.
Proof.
  intros H. destruct (existsb Q _) eqn:E; [|reflexivity].
  apply existsb_exists in E as (c & Hc & Hq).
  apply filter_In in Hc as [Hin Hk]. rewrite (H c Hin Hk) in Hq. discriminate.
Qed.

Lemma existsb_dict_set (Q : pykey * pyval -> bool) d k v :
  (forall k1 k2 x, Q (k1, x) = Q (k2, x)) ->
  existsb Q d = false -> Q (k, v) = false ->
  existsb Q (dict_set d k v) = false.
Proof.
  intros Hq Hd Hkv. induction d as [|[k0 v0] d IH]; simpl in *.
  - now rewrite Hkv.
  - apply orb_false_iff in Hd as [H0 Hd].
    destruct (key_eqb k0 k) eqn:E; simpl.
    + rewrite (Hq k0 k), Hkv, Hd. reflexivity.
    + rewrite H0. now apply IH.
Qed.

Lemma clean_value_no_embedding (x y : pyval) :
  recognised x = true ->
  clean_value x = Ok y -> seqs_safe x = true -> has_embedding y = false.
Proof.
  revert y.
  induction x as [| | | | | |l IH|l IH|items IH|cls attrs IH|kind entries IHo] using pyval_ind;
    intros y Hr; rewrite clean_value_eq;
    destruct (is_large_float_list _) eqn:El;
    try (intros H _; inversion H; subst; reflexivity);
    try discriminate Hr; simpl in Hr.
  - intros H Hs. apply clean_seq_spec in H as (cs & H2 & ->). simpl app.
    change (seqs_safe (PList l))
      with (is_large_float_list (PList l) || (seq_safe l && forallb seqs_safe l))%bool
      in Hs.
    rewrite El in Hs. simpl orb in Hs.
    apply andb_true_iff in Hs as [Hs Hall].
    change (has_embedding (PList ?o))
      with (embedding_shaped (PList o) || existsb has_embedding o)%bool.
    rewrite (seq_safe_out _ _ H2 Hs). simpl.
    apply existsb_filter_in. intros c Hc _.
    destruct (Forall2_In_r _ _ _ _ H2 Hc) as (e & He & Hec).
    child_ih IH He IHe. apply (IHe _ (recognised_elem _ _ Hr He) Hec).
    rewrite forallb_forall in Hall. now apply Hall.
  - intros H Hs. apply clean_seq_spec in H as (cs & H2 & ->). simpl app.
    simpl in Hs. apply andb_true_iff in Hs as [Hs Hall].
    change (has_embedding (PList ?o))
      with (embedding_shaped (PList o) || existsb has_embedding o)%bool.
    rewrite (seq_safe_out _ _ H2 Hs). simpl.
    apply existsb_filter_in. intros c Hc _.
    destruct (Forall2_In_r _ _ _ _ H2 Hc) as (e & He & Hec).
    child_ih IH He IHe. apply (IHe _ (recognised_elem _ _ Hr He) Hec).
    rewrite forallb_forall in Hall. now apply Hall.
  - intros H Hs. simpl in Hs. rewrite forallb_forall in Hs.
    eapply (clean_items_inv _
              (fun d => existsb (fun '(_, x) => has_embedding x) d = false))
      in H as (d & -> & Hd); [exact Hd | | reflexivity].
    intros k v cv acc Hin Hk Ha Hc Hn Hacc.
    apply existsb_dict_set; [reflexivity | exact Hacc |].
    child_ih IH Hin IHv. apply (IHv _ (recognised_entry _ _ _ Hr Hin) Hc).
    specialize (Hs _ Hin). simpl in Hs.
    rewrite (heavy_key_split _ _ Hk), Ha in Hs. exact Hs.
  - intros H Hs. cbn [seqs_safe] in Hs. rewrite forallb_forall in Hs.
    eapply (clean_attrs_inv _
              (fun d => existsb (fun '(_, x) => has_embedding x) d = false))
      in H as (d & -> & Hd); [exact Hd | | reflexivity].
    intros k v cv acc Hin Hk Hc Hn Hacc.
    apply existsb_dict_set; [reflexivity | exact Hacc |].
    child_ih IH Hin IHv. apply (IHv _ (recognised_entry _ _ _ Hr Hin) Hc).
    specialize (Hs _ Hin). cbv beta iota in Hs. rewrite Hk in Hs. exact Hs.
Qed.

(** ** Values a second pass returns unchanged *)

Lemma dict_set_length_le {V} (d : list (pykey * V)) (k : pykey) (v : V) :
  (length (dict_set d k v) <= S (length d))%nat.
Proof.
  induction d as [|[k0 v0] d IH]; simpl; [lia|].
  destruct (key_eqb k0 k); simpl; lia.
Qed.

Lemma dict_set_grow {V} (d : list (pykey * V)) (k : pykey) (v : V) :
  length (dict_set d k v) = S (length d) -> dict_set d k v = d ++ [(k, v)].
Proof.
  induction d as [|[k0 v0] d IH]; simpl; [reflexivity|].
  destruct (key_eqb k0 k); simpl; intros H; [lia|].
  f_equal. apply IH. lia.
Qed.

Lemma clean_items_length f items : forall acc d,
  clean_items f items acc = Ok (PDict d) ->
  (length d <= length acc + length items)%nat.
Proof.
  induction items as [|[k v] rest IH]; intros acc d H; simpl in H.
  - inversion H. lia.
  - simpl length.
    destruct (should_drop_key k) as [[|]|]; try discriminate.
    + apply IH in H. lia.
    + destruct (in_attributes k); [apply IH in H; lia|].
      destruct (f v) as [cv|]; try discriminate.
      destruct (is_none cv); apply IH in H; [lia|].
      pose proof (dict_set_length_le acc k cv). lia.
Qed.

(** A dict loop whose result is as long as its input has stored every
    entry, each under a fresh key. *)
Lemma clean_items_full f items : forall acc d,
  clean_items f items acc = Ok (PDict d) ->
  length d = (length acc + length items)%nat ->
  exists cs, d = acc ++ cs
    /\ Forall2 (fun kv kc => kv.1 = kc.1 /\ f kv.2 = Ok kc.2) items cs.
Proof.
  induction items as [|[k v] rest IH]; intros acc d H Hl; simpl in H.
  - inversion H. exists []. split; [now rewrite app_nil_r | constructor].
  - simpl length in Hl.
    destruct (should_drop_key k) as [[|]|]; try discriminate.
    + apply clean_items_length in H. lia.
    + destruct (in_attributes k); [apply clean_items_length in H; lia|].
      destruct (f v) as [cv|] eqn:Ef; try discriminate.
      destruct (is_none cv); [apply clean_items_length in H; lia|].
      pose proof (clean_items_length _ _ _ _ H) as Hle.
      pose proof (dict_set_length_le acc k cv) as Hs.
      assert (Hg : dict_set acc k cv = acc ++ [(k, cv)])
        by (apply dict_set_grow; lia).
      rewrite Hg in H.
      destruct (IH _ _ H) as (cs & -> & H2).
      { rewrite length_app. simpl. lia. }
      exists ((k, cv) :: cs). split; [now rewrite <- app_assoc|].
      constructor; [now split | exact H2].
Qed.

Lemma Forall2_same {A} (R : A -> A -> Prop) (l : list A) :
  Forall2 R l l -> Forall (fun x => R x x) l.
Proof.
  induction l as [|x l IH]; intros H; [constructor|].
  inversion H; subst. constructor; [assumption | now apply IH].
Qed.

Lemma clean_items_id f items :
  clean_items f items [] = Ok (PDict items) ->
  Forall (fun kv => f kv.2 = Ok kv.2) items.
Proof.
  intros H. destruct (clean_items_full _ _ _ _ H eq_refl) as (cs & Hcs & H2).
  simpl in Hcs. subst cs. apply Forall2_same in H2.
  eapply Forall_impl; [exact H2|]. now intros kv [_ Hkv].
Qed.

Lemma filter_all {A} (keep : A -> bool) (l : list A) :
  length (List.filter keep l) = length l -> List.filter keep l = l.
Proof.
  induction l as [|x l IH]; simpl; [reflexivity|].
  destruct (keep x); simpl; intros H.
  - f_equal. apply IH. lia.
  - pose proof (filter_length_le keep l). lia.
Qed.

Lemma clean_seq_id f l :
  clean_seq f l [] = Ok (PList l) -> Forall (fun e => f e = Ok e) l.
Proof.
  intros H. apply clean_seq_spec in H as (cs & H2 & Hl).
  simpl in Hl. injection Hl as Hl.
  pose proof (Forall2_length _ _ _ H2) as Hlen.
  rewrite Hl in Hlen at 1.
  rewrite (filter_all _ _ Hlen) in Hl. subst cs.
  now apply Forall2_same in H2.
Qed.

(** A plain value that the sanitizer returns unchanged holds no
    embedding-shaped list. *)
Lemma clean_value_fixed_inv (y : pyval) :
  plain y = true -> clean_value y = Ok y -> has_embedding y = false.
Proof.
  induction y as [| | | | | |l IH|l IH|items IH|cls attrs IH|kind entries IHo] using pyval_ind;
    intros Hp H; try reflexivity; try discriminate Hp.
  - rewrite clean_value_eq in H.
    destruct (is_large_float_list (PList l)) eqn:El; [discriminate|].
    apply clean_seq_id in H.
    change (has_embedding (PList l))
      with (is_large_float_list (PList l) || existsb has_embedding l)%bool.
    rewrite El. simpl orb.
    apply not_true_is_false. intros Hex.
    apply existsb_exists in Hex as (e & Hin & He).
    child_ih IH Hin IHe.
    simpl in Hp. rewrite forallb_forall in Hp. specialize (Hp _ Hin).
    apply andb_true_iff in Hp as [_ Hp].
    rewrite (IHe Hp (Forall_In_at _ _ _ H Hin)) in He. discriminate.
  - rewrite clean_value_eq in H. simpl in H.
    apply clean_items_id in H.
    change (has_embedding (PDict items))
      with (false || existsb (fun '(_, x) => has_embedding x) items)%bool.
    simpl orb.
    apply not_true_is_false. intros Hex.
    apply existsb_exists in Hex as ([k v] & Hin & He).
    child_ih IH Hin IHv.
    simpl in Hp. apply andb_true_iff in Hp as [_ Hp].
    rewrite forallb_forall in Hp. specialize (Hp _ Hin). simpl in Hp.
    apply andb_true_iff in Hp as [_ Hp].
    pose proof (Forall_In_at _ _ _ H Hin) as Hv. simpl in Hv.
    rewrite (IHv Hp Hv) in He. discriminate.
Qed.

(** * The sanitizer: stated properties *)

Example sample_fact_cleaned : clean_embedding_data sample_fact = Ok sample_fact_clean.
Proof. vm_compute. reflexivity. Qed.

(** ** No leakage *)

(** C1, as stated, fails: a tuple of 50 floats comes out as a list of 50
    floats, and a list whose leading [None] is dropped comes out as a list of
    40 floats; both results are embedding-shaped.  A deque is returned as it
    is, with the heavy key and the embedding of the mapping it holds. *)
Lemma no_leakage_counterexample :
  (clean_embedding_data (PTuple (floats 50)) = Ok (PList (floats 50))
   /\ has_embedding (PList (floats 50)) = true)
  /\ (clean_embedding_data (PList (PNone :: floats 40)) = Ok (PList (floats 40))
      /\ has_embedding (PList (floats 40)) = true)
  /\ (let q := POpaque ODeque
                 [(KInt 0, PDict [(KStr "name_embedding", PList (floats 40))])] in
      clean_embedding_data q = Ok q
      /\ has_heavy_key q = true /\ has_embedding q = true).
Proof. repeat apply conj; vm_compute; reflexivity. Qed.

(** C1 (amended): for an input built only from the values the sanitizer
    examines (scalars, lists, tuples, mappings, objects with a [__dict__];
    no set, deque or mapping proxy at any depth), the result of sanitizing
    it holds no heavy key at any depth; it holds no embedding-shaped value
    at any depth provided every sequence the sanitizer walks through is
    shorter than 32 or has, among its first 64 elements, a non-numeric
    element that is kept. *)
Theorem no_leakage (x y : pyval) :
  recognised x = true ->
  clean_embedding_data x = Ok y ->
  has_heavy_key y = false /\ (seqs_safe x = true -> has_embedding y = false).
Proof.
  unfold clean_embedding_data. intros Hr H. split.
  - apply (clean_value_normal _ _ Hr H).
  - now apply clean_value_no_embedding.
Qed.

Lemma no_leakage_witness :
  recognised sample_fact = true
  /\ clean_embedding_data sample_fact = Ok sample_fact_clean
  /\ seqs_safe sample_fact = true
  /\ has_heavy_key sample_fact_clean = false
  /\ has_embedding sample_fact_clean = false.
Proof.
  assert (Hr : recognised sample_fact = true) by (vm_compute; reflexivity).
  assert (H : clean_embedding_data sample_fact = Ok sample_fact_clean)
    by (vm_compute; reflexivity).
  assert (Hs : seqs_safe sample_fact = true) by (vm_compute; reflexivity).
  destruct (no_leakage _ _ Hr H) as [Hk He].
  repeat apply conj; [exact Hr | exact H | exact Hs | exact Hk | exact (He Hs)].
Defined.

(** ** Idempotence *)

(** C3, as stated, fails: the list [None, 0.0 x 40] is sanitized to
    [0.0 x 40], which a second pass replaces by [None]; and a second pass can
    itself produce an embedding-shaped list. *)
Lemma idempotence_counterexample :
  (clean_embedding_data (PList (PNone :: floats 40)) = Ok (PList (floats 40))
   /\ clean_embedding_data (PList (floats 40)) = Ok PNone)
  /\ (let x := PList (PList (PNone :: floats 40) :: floats 32) in
      clean_embedding_data x = Ok (PList (PList (floats 40) :: floats 32))
      /\ clean_embedding_data (PList (PList (floats 40) :: floats 32))
         = Ok (PList (floats 32))
      /\ has_embedding (PList (floats 32)) = true).
Proof. repeat apply conj; vm_compute; reflexivity. Qed.

(** C3 (amended): let [y] be the sanitized value of an input built only
    from the values the sanitizer examines (no set, deque or mapping proxy at
    any depth).  Sanitizing [y] again returns [y] unchanged exactly when [y]
    holds no embedding-shaped list; and [y] holds no heavy key. *)
Theorem idempotence (x y : pyval) :
  recognised x = true ->
  clean_embedding_data x = Ok y ->
  (clean_embedding_data y = Ok y <-> has_embedding y = false)
  /\ has_heavy_key y = false.
Proof.
  unfold clean_embedding_data. intros Hr H.
  destruct (clean_value_normal _ _ Hr H) as [Hp Hh].
  split; [split|exact Hh].
  - now apply clean_value_fixed_inv.
  - now apply clean_value_fixed.
Qed.

Lemma idempotence_witness :
  recognised sample_fact = true
  /\ clean_embedding_data sample_fact = Ok sample_fact_clean
  /\ (clean_embedding_data sample_fact_clean = Ok sample_fact_clean
      <-> has_embedding sample_fact_clean = false)
  /\ has_heavy_key sample_fact_clean = false.
Proof.
  assert (Hr : recognised sample_fact = true) by (vm_compute; reflexivity).
  assert (H : clean_embedding_data sample_fact = Ok sample_fact_clean)
    by (vm_compute; reflexivity).
  destruct (idempotence _ _ Hr H) as [H1 H2].
  repeat apply conj; [exact Hr | exact H | apply H1 | apply H1 | exact H2].
Defined.

(** ** Omission of mapping entries *)

(** C4, as stated, fails: a [None] stored under a non-heavy key is not an
    embedding, yet its entry is omitted. *)
Lemma omission_counterexample :
  heavy_key (KStr "a") = false
  /\ is_large_float_list PNone = false
  /\ clean_embedding_data (PDict [(KStr "a", PNone)]) = Ok (PDict []).
Proof. repeat apply conj; vm_compute; reflexivity. Qed.

(** C4 (amended): sanitizing a mapping yields a mapping in which every heavy
    key is missing and every other key holds the sanitized value of its
    entry, unless that entry's value is [None] or a detected embedding list,
    in which case the key is missing. *)
Theorem omission_only_for_none (items : list (pykey * pyval)) (out : pyval) :
  distinct_keys (keys items) = true ->
  clean_embedding_data (PDict items) = Ok out ->
  exists d, out = PDict d
    /\ forall k v, In (k, v) items ->
         (heavy_key k = true -> dict_get d k = None)
         /\ (heavy_key k = false ->
             exists cv, clean_embedding_data v = Ok cv
               /\ dict_get d k
                  = if (is_none v || is_large_float_list v)%bool then None
                    else Some cv).
Proof.
  unfold clean_embedding_data. intros Hd H.
  pose proof (clean_value_shape _ _ H) as [d ->]. exists d. split; [reflexivity|].
  rewrite clean_value_eq in H. simpl in H.
  destruct (clean_items_lookup _ _ Hd _ _ H) as [_ Hl].
  intros k v Hin. destruct (Hl _ _ Hin) as [A B]. split; [exact A|].
  intros Hn. destruct (B Hn) as (cv & Hc & Hg). exists cv. split; [exact Hc|].
  rewrite Hg, (clean_value_none _ _ Hc). reflexivity.
Qed.

Lemma omission_only_for_none_witness :
  let items := [(KStr "meta", PDict []); (KStr "count", PInt 0);
                (KStr "flag", PBool false); (KStr "valid_at", PNone);
                (KStr "vector", PList (floats 40));
                (KStr "fact_embedding", PStr "kept out")] in
  distinct_keys (keys items) = true
  /\ clean_embedding_data (PDict items)
     = Ok (PDict [(KStr "meta", PDict []); (KStr "count", PInt 0);
                  (KStr "flag", PBool false)])
  /\ exists d, PDict [(KStr "meta", PDict []); (KStr "count", PInt 0);
                      (KStr "flag", PBool false)] = PDict d
       /\ forall k v, In (k, v) items ->
            (heavy_key k = true -> dict_get d k = None)
            /\ (heavy_key k = false ->
                exists cv, clean_embedding_data v = Ok cv
                  /\ dict_get d k
                     = if (is_none v || is_large_float_list v)%bool then None
                       else Some cv).
Proof.
  intros items.
  assert (Hd : distinct_keys (keys items) = true) by (vm_compute; reflexivity).
  assert (H : clean_embedding_data (PDict items)
              = Ok (PDict [(KStr "meta", PDict []); (KStr "count", PInt 0);
                           (KStr "flag", PBool false)]))
    by (vm_compute; reflexivity).
  split; [exact Hd|]. split; [exact H|].
  exact (omission_only_for_none items _ Hd H).
Defined.

(** ** Precedence of the embedding test *)

(** C7, as stated, fails for a sequence that is a tuple: the test only
    looks at lists, and the tuple comes back as a list. *)
Lemma precedence_counterexample :
  embedding_shaped (PTuple (floats 50)) = true
  /\ clean_embedding_data (PTuple (floats 50)) = Ok (PList (floats 50)).
Proof. split; vm_compute; reflexivity. Qed.

(** C7 (amended): a top-level list of length at least 32 whose first 64
    elements are all numeric is replaced by [None], before any other
    classification. *)
Theorem precedence_for_lists (l : list pyval) :
  (32 <= length l)%nat -> forallb is_numeric (take 64 l) = true ->
  clean_embedding_data (PList l) = Ok PNone.
Proof.
  intros Hlen Hnum. unfold clean_embedding_data. apply clean_list_none_iff.
  unfold is_large_float_list. rewrite Hnum.
  apply Nat.leb_le in Hlen. now rewrite Hlen.
Qed.

Lemma precedence_for_lists_witness :
  (32 <= length (floats 50))%nat
  /\ forallb is_numeric (take 64 (floats 50)) = true
  /\ clean_embedding_data (PList (floats 50)) = Ok PNone.
Proof.
  assert (Hlen : (32 <= length (floats 50))%nat) by (vm_compute; lia).
  assert (Hnum : forallb is_numeric (take 64 (floats 50)) = true)
    by (vm_compute; reflexivity).
  repeat apply conj; try assumption.
  exact (precedence_for_lists _ Hlen Hnum).
Defined.

(** ** Booleans in the embedding test *)

(** C10: a list of length at least 32 whose first min(64, length) elements
    are booleans, integers or floats in any mix is classified as an embedding
    and dropped. *)
Theorem booleans_count_as_numeric (l : list pyval) :
  (32 <= length l)%nat ->
  Forall (fun v => match v with
                   | PBool _ | PInt _ | PFloat _ => True
                   | _ => False
                   end) (take (Nat.min 64 (length l)) l) ->
  is_large_float_list (PList l) = true
  /\ clean_embedding_data (PList l) = Ok PNone.
Proof.
  intros Hlen Hall. rewrite take_min_length in Hall.
  assert (E : is_large_float_list (PList l) = true).
  { unfold is_large_float_list. apply Nat.leb_le in Hlen. rewrite Hlen.
    apply forallb_forall. intros v Hv.
    pose proof (Forall_In_at _ _ _ Hall Hv) as Hq.
    destruct v; simpl in *; solve [reflexivity | contradiction]. }
  split; [exact E|]. unfold clean_embedding_data. now apply clean_list_none_iff.
Qed.

Lemma booleans_count_as_numeric_witness :
  let l := replicate 31 (PBool true) ++ [PInt 7] in
  (32 <= length l)%nat
  /\ is_large_float_list (PList l) = true
  /\ clean_embedding_data (PList l) = Ok PNone.
Proof.
  intros l.
  assert (Hlen : (32 <= length l)%nat) by (vm_compute; lia).
  split; [exact Hlen|].
  apply (booleans_count_as_numeric l Hlen).
  vm_compute. repeat constructor.
Defined.

(** * The endpoints: stated properties *)

Lemma limit_results_Forall {A} (P : A -> Prop) (limit : Z) (l : list A) :
  Forall P l -> Forall P (limit_results limit l).
Proof.
  intros H. unfold limit_results, py_slice.
  destruct (_ && _)%bool; [|exact H].
  apply Forall_take. now apply Forall_drop.
Qed.

Lemma limit_results_map {A B} (g : A -> B) (limit : Z) (l : list A) :
  limit_results limit (map g l) = map g (limit_results limit l).
Proof.
  unfold limit_results, py_slice. rewrite length_map.
  destruct (_ && _)%bool; [|reflexivity].
  now rewrite skipn_map, firstn_map.
Qed.

Lemma attr_get_strip (attrs : list (string * pyval)) (name : string) :
  heavy_key (KStr name) = false ->
  attr_get (List.filter (fun '(k, _) => negb (heavy_key (KStr k))) attrs) name
  = attr_get attrs name.
Proof.
  intros Hn. induction attrs as [|[k v] attrs IH]; [reflexivity|].
  cbn [List.filter attr_get].
  destruct (String.eqb k name) eqn:E.
  - apply String.eqb_eq in E. subst k. rewrite Hn. cbn [negb attr_get].
    now rewrite String.eqb_refl.
  - destruct (heavy_key (KStr k)); cbn [negb attr_get]; [exact IH|].
    now rewrite E.
Qed.

Lemma getattr_strip (o : pyval) (name : string) (d : pyval) :
  heavy_key (KStr name) = false ->
  getattr (strip_heavy o) name d = getattr o name d.
Proof.
  intros Hn. destruct o; try reflexivity.
  unfold strip_heavy, getattr. now rewrite attr_get_strip.
Qed.

Section EndpointFacts.
Variable repr : pyval -> string.
Variable clock : nat -> Z.

Lemma nodes_loop_strip (node_results : list pyval) : forall tick nodes,
  nodes_loop repr clock (map strip_heavy node_results) tick nodes
  = nodes_loop repr clock node_results tick nodes.
Proof.
  induction node_results as [|n rest IH]; intros tick nodes; [reflexivity|].
  cbn [map nodes_loop].
  rewrite !getattr_strip by reflexivity.
  destruct (new_NodeResponse _ _ _ _ _); apply IH.
Qed.

Lemma episode_of_dict (d : list (pykey * pyval)) (tick : nat) :
  exists r, episode_of repr clock (PDict d) tick = Ok r /\ default_episode clock r.
Proof.
  eexists. split; [reflexivity|].
  unfold default_episode. cbn. repeat apply conj; try reflexivity.
  exists tick. split; reflexivity.
Qed.

Lemma is_episodic_obj (n : pyval) :
  is_episodic n = Ok true -> exists cls attrs, n = PObj cls attrs.
Proof.
  destruct n as [| | | | | | | | | |[] es];
    try (vm_compute; discriminate); eauto.
Qed.

Lemma episodic_filter_objs (node_results : list pyval) :
  forall acc r,
    episodic_filter node_results acc = Ok r ->
    Forall (fun n => exists cls attrs, n = PObj cls attrs) acc ->
    Forall (fun n => exists cls attrs, n = PObj cls attrs) r.
Proof.
  induction node_results as [|n rest IH]; intros acc r Hr Hacc.
  - inversion Hr; subst. exact Hacc.
  - cbn [episodic_filter] in Hr.
    destruct (is_episodic n) as [[|]|] eqn:En; cbn in Hr; try discriminate.
    + apply (IH _ _ Hr). apply Forall_app. split; [exact Hacc|].
      constructor; [now apply is_episodic_obj | constructor].
    + now apply (IH _ _ Hr).
Qed.

Lemma episodes_loop_defaults (slicer : list pyval) :
  Forall (fun n => exists cls attrs, n = PObj cls attrs) slicer ->
  forall tick acc,
    Forall (default_episode clock) acc ->
    Forall (default_episode clock) (episodes_loop repr clock slicer tick acc).
Proof.
  induction 1 as [|ep rest (cls & attrs & ->) _ IH]; intros tick acc Hacc.
  - exact Hacc.
  - cbn [episodes_loop].
    destruct (clean_embedding_data (PObj cls attrs)) as [c|] eqn:Ec; [|now apply IH].
    destruct (clean_value_shape _ _ Ec) as [d ->].
    destruct (episode_of_dict d tick) as (r & -> & Hr).
    apply IH. apply Forall_app. split; [exact Hacc|].
    constructor; [exact Hr | constructor].
Qed.
End EndpointFacts.

(** ** Sanitizing in the endpoints *)

(** C6, as stated, fails for Search nodes: its responses are not obtained
    from the sanitized results.  Two raw nodes with the same sanitized value
    give different outputs, and the response of a named node differs from
    what the same loop yields on its sanitized value. *)
Lemma search_nodes_counterexample :
  (clean_embedding_data node_name_none = clean_embedding_data node_no_name
   /\ search_nodes repr0 clock0 10 [node_name_none] 0 = []
   /\ search_nodes repr0 clock0 10 [node_no_name] 0
      = [{| node_uuid := "u"; node_name := "Unknown";
            node_content_summary := "s"; node_labels := ["Entity"];
            node_created_at := 5 |}])
  /\ (exists c, clean_embedding_data sample_node = Ok c
        /\ search_nodes repr0 clock0 10 [sample_node] 0
           = [{| node_uuid := "u"; node_name := "Alice";
                 node_content_summary := "s"; node_labels := ["Entity"];
                 node_created_at := 5 |}]
        /\ search_nodes repr0 clock0 10 [c] 0
           = [{| node_uuid := ""; node_name := "Unknown";
                 node_content_summary := ""; node_labels := [];
                 node_created_at := clock0 0 |}]).
Proof.
  split.
  - repeat apply conj; vm_compute; reflexivity.
  - eexists. repeat apply conj; vm_compute; reflexivity.
Qed.

(** ** Episodes read from the sanitized value *)

(** C9: the sanitizer turns every attribute-bearing object into a plain
    mapping, and every episode returned by List episodes carries the
    defaults: empty uuid, name and content, source type [text], no source
    description, and two successive clock readings as timestamps. *)
Theorem episodes_carry_defaults (repr : pyval -> string) (clock : nat -> Z) :
  (forall cls attrs y,
      clean_embedding_data (PObj cls attrs) = Ok y -> exists d, y = PDict d)
  /\ (forall limit offset node_results tick eps total,
         get_episodes repr clock limit offset node_results tick = Ok (eps, total) ->
         Forall (default_episode clock) eps).
Proof.
  split.
  - intros cls attrs y H. exact (clean_value_shape _ _ H).
  - intros limit offset node_results tick eps total H.
    unfold get_episodes in H.
    destruct (episodic_filter node_results []) as [nodes|] eqn:Ef;
      cbn in H; [|discriminate].
    inversion H; subst. apply episodes_loop_defaults; [|constructor].
    unfold py_slice. apply Forall_take, Forall_drop.
    eapply episodic_filter_objs; [exact Ef | constructor].
Qed.

Lemma episodes_carry_defaults_witness :
  get_episodes repr0 clock0 20 0 [sample_node; sample_episode] 0
  = Ok ([{| episode_uuid := ""; episode_name := ""; episode_content := "";
            episode_source_type := "text"; episode_source_description := None;
            episode_reference_time := clock0 0;
            episode_created_at := clock0 1 |}], 1%nat)
  /\ Forall (default_episode clock0)
       [{| episode_uuid := ""; episode_name := ""; episode_content := "";
           episode_source_type := "text"; episode_source_description := None;
           episode_reference_time := clock0 0;
           episode_created_at := clock0 1 |}].
Proof.
  assert (H : get_episodes repr0 clock0 20 0 [sample_node; sample_episode] 0
              = Ok ([{| episode_uuid := ""; episode_name := "";
                        episode_content := ""; episode_source_type := "text";
                        episode_source_description := None;
                        episode_reference_time := clock0 0;
                        episode_created_at := clock0 1 |}], 1%nat))
    by (vm_compute; reflexivity).
  split; [exact H|].
  exact (proj2 (episodes_carry_defaults repr0 clock0) _ _ _ _ _ _ H).
Defined.

(** * The sanitizer on a store: stated properties *)

Module StoreFacts.
Lemma frame_refl (n : nat) (h : Store.heap) : Store.frame n h h.
Proof. split; [lia | reflexivity]. Qed.

Lemma frame_trans (n : nat) (h1 h2 h3 : Store.heap) :
  Store.frame n h1 h2 -> Store.frame n h2 h3 -> Store.frame n h1 h3.
Proof. intros [L1 T1] [L2 T2]. split; [lia | congruence]. Qed.

Lemma frame_weaken (n m : nat) (h h' : Store.heap) :
  (n <= m)%nat -> Store.frame m h h' -> Store.frame n h h'.
Proof.
  intros Hnm [L T]. split; [exact L|].
  assert (E : forall l : Store.heap, take n l = take n (take m l)).
  { intros l. rewrite take_take. f_equal. lia. }
  rewrite (E h'), (E h). now rewrite T.
Qed.

Lemma frame_alloc (n : nat) (h : Store.heap) (c : Store.cell) :
  (n <= length h)%nat -> Store.frame n h (h ++ [c]).
Proof.
  intros Hn. split.
  - rewrite length_app. simpl. lia.
  - now rewrite take_app_le.
Qed.

Lemma frame_insert (n a : nat) (h : Store.heap) (c : Store.cell) :
  (n <= a)%nat -> Store.frame n h (<[a := c]> h).
Proof.
  intros Hn. split.
  - rewrite length_insert. lia.
  - now apply take_insert_ge.
Qed.

Lemma frame_set_item (n a : nat) (h : Store.heap) (k : pykey) (v : Store.val) :
  (n <= a)%nat -> Store.frame n h (Store.set_item h a k v).
Proof.
  intros Hn. unfold Store.set_item.
  destruct (h !! a) as [[| |d|]|]; try apply frame_refl.
  now apply frame_insert.
Qed.

Lemma frame_append (n a : nat) (h : Store.heap) (v : Store.val) :
  (n <= a)%nat -> Store.frame n h (Store.append h a v).
Proof.
  intros Hn. unfold Store.append.
  destruct (h !! a) as [[l| | |]|]; try apply frame_refl.
  now apply frame_insert.
Qed.


Section LoopFrames.
Variable rec : Store.val -> Store.heap -> Store.heap * result Store.val.
Hypothesis rec_ok : Store.call_ok rec.

Lemma clean_items_frame (n : nat) (items : list (pykey * Store.val)) (cleaned : nat) :
  (n <= cleaned)%nat ->
  forall h h' r,
    (n <= length h)%nat ->
    Store.clean_items rec items cleaned h = (h', r) ->
    Store.frame n h h' /\ forall a, r = Ok (Store.VRef a) -> a = cleaned.
Proof.
  intros Hc. induction items as [|[k v] rest IH]; intros h h' r Hn Hr.
  - inversion Hr; subst. split; [apply frame_refl | congruence].
  - cbn [Store.clean_items] in Hr.
    destruct (should_drop_key k) as [[|]|]; [now apply IH| |].
    + destruct (in_attributes k); [now apply IH|].
      destruct (rec v h) as [h1 [cv|e]] eqn:Ev;
        destruct (rec_ok _ _ _ _ Ev) as [F _];
        pose proof (frame_weaken _ _ _ _ Hn F) as F1;
        destruct F as [L _].
      * destruct (Store.is_none cv).
        -- destruct (IH h1 h' r) as [F2 A]; [lia | exact Hr |].
           split; [eapply frame_trans; eauto | exact A].
        -- pose proof (frame_set_item n cleaned h1 k cv Hc) as F2.
           destruct (IH (Store.set_item h1 cleaned k cv) h' r) as [F3 A];
             [destruct F2; lia | exact Hr |].
           split; [|exact A].
           eapply frame_trans; [exact F1|]. eapply frame_trans; eauto.
      * inversion Hr; subst. split; [exact F1 | discriminate].
    + inversion Hr; subst. split; [apply frame_refl | discriminate].
Qed.

Lemma clean_attrs_frame (n : nat) (attrs : list (string * Store.val)) (cleaned : nat) :
  (n <= cleaned)%nat ->
  forall h h' r,
    (n <= length h)%nat ->
    Store.clean_attrs rec attrs cleaned h = (h', r) ->
    Store.frame n h h' /\ forall a, r = Ok (Store.VRef a) -> a = cleaned.
Proof.
  intros Hc. induction attrs as [|[k v] rest IH]; intros h h' r Hn Hr.
  - inversion Hr; subst. split; [apply frame_refl | congruence].
  - cbn [Store.clean_attrs] in Hr.
    destruct (should_drop_key (KStr k)) as [d|];
      [|inversion Hr; subst; split; [apply frame_refl | discriminate]].
    destruct (d || in_attributes (KStr k))%bool; [now apply IH|].
    destruct (rec v h) as [h1 [cv|e]] eqn:Ev;
      destruct (rec_ok _ _ _ _ Ev) as [F _];
      pose proof (frame_weaken _ _ _ _ Hn F) as F1;
      destruct F as [L _].
    + destruct (Store.is_none cv).
      * destruct (IH h1 h' r) as [F2 A]; [lia | exact Hr |].
        split; [eapply frame_trans; eauto | exact A].
      * pose proof (frame_set_item n cleaned h1 (KStr k) cv Hc) as F2.
        destruct (IH (Store.set_item h1 cleaned (KStr k) cv) h' r) as [F3 A];
          [destruct F2; lia | exact Hr |].
        split; [|exact A].
        eapply frame_trans; [exact F1|]. eapply frame_trans; eauto.
    + inversion Hr; subst. split; [exact F1 | discriminate].
Qed.

Lemma clean_seq_frame (n : nat) (l : list Store.val) (cleaned_list : nat) :
  (n <= cleaned_list)%nat ->
  forall h h' r,
    (n <= length h)%nat ->
    Store.clean_seq rec l cleaned_list h = (h', r) ->
    Store.frame n h h' /\ forall a, r = Ok (Store.VRef a) -> a = cleaned_list.
Proof.
  intros Hc. induction l as [|item rest IH]; intros h h' r Hn Hr.
  - inversion Hr; subst. split; [apply frame_refl | congruence].
  - cbn [Store.clean_seq] in Hr.
    destruct (rec item h) as [h1 [ci|e]] eqn:Ev;
      destruct (rec_ok _ _ _ _ Ev) as [F _];
      pose proof (frame_weaken _ _ _ _ Hn F) as F1;
      destruct F as [L _].
    + destruct (Store.is_none ci).
      * destruct (IH h1 h' r) as [F2 A]; [lia | exact Hr |].
        split; [eapply frame_trans; eauto | exact A].
      * pose proof (frame_append n cleaned_list h1 ci Hc) as F2.
        destruct (IH (Store.append h1 cleaned_list ci) h' r) as [F3 A];
          [destruct F2; lia | exact Hr |].
        split; [|exact A].
        eapply frame_trans; [exact F1|]. eapply frame_trans; eauto.
    + inversion Hr; subst. split; [exact F1 | discriminate].
Qed.
End LoopFrames.

Lemma clean_value_ok (depth : nat) : Store.call_ok (Store.clean_value depth).
Proof.
  induction depth as [|depth IH]; intros v h h' r Hr.
  - inversion Hr; subst. split; [apply frame_refl | discriminate].
  - cbn [Store.clean_value] in Hr.
    destruct (Store.is_large_float_list h v).
    { inversion Hr; subst. split; [apply frame_refl | discriminate]. }
    destruct v as [| | | | | |a];
      try (inversion Hr; subst; split; [apply frame_refl | discriminate]).
    destruct (h !! a) as [c|] eqn:Ea.
    + assert (Hstep : forall loop : nat -> Store.heap -> Store.heap * result Store.val,
                 (forall n cleaned, (n <= cleaned)%nat -> forall h1 h2 r2,
                       (n <= length h1)%nat -> loop cleaned h1 = (h2, r2) ->
                       Store.frame n h1 h2 /\ forall a, r2 = Ok (Store.VRef a) -> a = cleaned) ->
                 forall c0, loop (length h) (h ++ [c0]) = (h', r) ->
                 Store.frame (length h) h h'
                 /\ forall a, r = Ok (Store.VRef a) -> (length h <= a)%nat).
      { intros loop Hloop c0 Hl.
        assert (Hlen : (length h <= length (h ++ [c0]))%nat)
          by (rewrite length_app; simpl; lia).
        destruct (Hloop (length h) (length h) (Nat.le_refl _) _ _ _ Hlen Hl)
          as [F A].
        split.
        - eapply frame_trans; [apply frame_alloc; lia | exact F].
        - intros a' Ha'. rewrite (A _ Ha'). lia. }
      destruct c as [l|l|items|cls attrs]; cbn [Store.alloc] in Hr.
      * apply (Hstep (Store.clean_seq (Store.clean_value depth) l)
                 (fun n c Hc => clean_seq_frame _ IH n l c Hc) _ Hr).
      * apply (Hstep (Store.clean_seq (Store.clean_value depth) l)
                 (fun n c Hc => clean_seq_frame _ IH n l c Hc) _ Hr).
      * apply (Hstep (Store.clean_items (Store.clean_value depth) items)
                 (fun n c Hc => clean_items_frame _ IH n items c Hc) _ Hr).
      * apply (Hstep (Store.clean_attrs (Store.clean_value depth) attrs)
                 (fun n c Hc => clean_attrs_frame _ IH n attrs c Hc) _ Hr).
    + inversion Hr; subst. split; [apply frame_refl|].
      intros a' Ha'. inversion Ha'; subst. now apply lookup_ge_None_1.
Qed.

(** ** Reading values back *)

Lemma frame_lookup_lt (n a : nat) (h h' : Store.heap) :
  Store.frame n h h' -> (a < n)%nat -> h' !! a = h !! a.
Proof.
  intros [_ T] Ha.
  rewrite <- (lookup_take_lt h' n a), T by exact Ha. now apply lookup_take_lt.
Qed.

Lemma frame_agree (h h' : Store.heap) :
  Store.frame (length h) h h' -> Store.agree 0 (length h) h h'.
Proof. intros F a _ Ha. now apply (frame_lookup_lt _ _ _ _ F). Qed.

Lemma agree_trans (b e : nat) (h1 h2 h3 : Store.heap) :
  Store.agree b e h1 h2 -> Store.agree b e h2 h3 -> Store.agree b e h1 h3.
Proof. intros A B a Hb He. rewrite (B a Hb He). now apply A. Qed.

Lemma agree_weaken (b e b' e' : nat) (h h2 : Store.heap) :
  (b <= b')%nat -> (e' <= e)%nat ->
  Store.agree b e h h2 -> Store.agree b' e' h h2.
Proof. intros Hb He A a Ha1 Ha2. apply A; lia. Qed.

Lemma stable_transfer (b e b' e' : nat) (h h1 : Store.heap) v n t :
  (b' <= b)%nat -> (e <= e')%nat ->
  Store.agree b e h h1 ->
  Store.stable b e h v n t -> Store.stable b' e' h1 v n t.
Proof.
  intros Hb He A S h2 A2. apply S.
  eapply agree_trans; [exact A|]. eapply agree_weaken; [| |exact A2]; lia.
Qed.

Lemma stable_reads (b e : nat) (h : Store.heap) v n t :
  Store.stable b e h v n t -> Store.reify n h v = Some t.
Proof. intros S. apply S. intros a _ _. reflexivity. Qed.

Lemma reify_entries {K} (n : nat) (h : Store.heap)
      (items : list (K * Store.val)) (ts : list (K * pyval)) :
  mapM (fun '(k, x) => pair k <$> Store.reify n h x) items = Some ts <->
  Forall2 (fun s u => s.1 = u.1 /\ Store.reify n h s.2 = Some u.2) items ts.
Proof.
  rewrite mapM_Some. split; intros H; eapply Forall2_impl; try exact H.
  - intros [k x] [k' u] E. simpl in *.
    apply fmap_Some in E as (y & Hy & E). inversion E; subst. auto.
  - intros [k x] [k' u] [E1 E2]. simpl in *. subst. now rewrite E2.
Qed.

Lemma reify_ref (n a : nat) (h : Store.heap) (t : pyval) :
  Store.reify (S n) h (Store.VRef a) = Some t <->
  exists c, h !! a = Some c
            /\ Store.cell_rel (fun v u => Store.reify n h v = Some u) c t.
Proof.
  cbn [Store.reify]. split.
  - destruct (h !! a) as [[l|l|items|cls attrs]|]; [| | | |discriminate];
      intros H; apply fmap_Some in H as (ts & Hts & ->); eexists;
      (split; [reflexivity|]); cbn [Store.cell_rel].
    + now apply mapM_Some.
    + now apply mapM_Some.
    + now apply reify_entries.
    + split; [reflexivity | now apply reify_entries].
  - intros (c & -> & Hc).
    destruct c as [l|l|items|cls attrs], t; cbn [Store.cell_rel] in Hc;
      try contradiction.
    + apply mapM_Some in Hc. now rewrite Hc.
    + apply mapM_Some in Hc. now rewrite Hc.
    + apply reify_entries in Hc. now rewrite Hc.
    + destruct Hc as [-> Hc]. apply reify_entries in Hc. now rewrite Hc.
Qed.

Lemma cell_rel_impl (P Q : Store.val -> pyval -> Prop) c t :
  (forall v u, P v u -> Q v u) -> Store.cell_rel P c t -> Store.cell_rel Q c t.
Proof.
  intros HPQ. destruct c, t; cbn [Store.cell_rel]; try tauto.
  - intros H. eapply Forall2_impl; [exact H | exact HPQ].
  - intros H. eapply Forall2_impl; [exact H | exact HPQ].
  - intros H. eapply Forall2_impl; [exact H|]. intros ? ? [? ?]. auto.
  - intros [-> H]. split; [reflexivity|].
    eapply Forall2_impl; [exact H|]. intros ? ? [? ?]. auto.
Qed.

Lemma reify_scalar (n : nat) (h : Store.heap) (v : Store.val) :
  Store.val_ref v = None -> Store.reify n h v = Store.scalar_tree v.
Proof. destruct n, v; simpl; intros H; try reflexivity; discriminate. Qed.

(** A value reads back the same from any store that has the cells of [h]. *)
Lemma reify_agree (n : nat) : forall (h h2 : Store.heap) v t,
  Store.agree 0 (length h) h h2 ->
  Store.reify n h v = Some t -> Store.reify n h2 v = Some t.
Proof.
  induction n as [|n IH]; intros h h2 v t A H.
  - destruct v; try exact H.
  - destruct v as [| | | | | |a]; try exact H.
    apply reify_ref in H as (c & Ha & Hc). apply reify_ref. exists c. split.
    + rewrite (A a); [exact Ha | lia | now apply lookup_lt_Some in Ha].
    + revert Hc. apply cell_rel_impl. intros v u. now apply IH.
Qed.

Lemma reify_frame (n : nat) (h h' : Store.heap) v t :
  Store.frame (length h) h h' ->
  Store.reify n h v = Some t -> Store.reify n h' v = Some t.
Proof. intros F. apply reify_agree. now apply frame_agree. Qed.

Lemma reads_is_none (n : nat) (h : Store.heap) v t :
  Store.reify n h v = Some t -> Store.is_none v = is_none t.
Proof.
  destruct v as [| | | | | |a];
    try (rewrite reify_scalar by reflexivity; intros H; inversion H; reflexivity).
  destruct n; [discriminate|]. intros H. apply reify_ref in H as (c & _ & Hc).
  destruct c, t; cbn [Store.cell_rel] in Hc; try contradiction; reflexivity.
Qed.

Lemma reads_is_numeric (n : nat) (h : Store.heap) v t :
  Store.reify n h v = Some t -> Store.is_numeric v = is_numeric t.
Proof.
  destruct v as [| | | | | |a];
    try (rewrite reify_scalar by reflexivity; intros H; inversion H; reflexivity).
  destruct n; [discriminate|]. intros H. apply reify_ref in H as (c & _ & Hc).
  destruct c, t; cbn [Store.cell_rel] in Hc; try contradiction; reflexivity.
Qed.

Lemma forallb_numeric_reads (n : nat) (h : Store.heap) l ts :
  Forall2 (fun v u => Store.reify n h v = Some u) l ts ->
  forallb Store.is_numeric l = forallb is_numeric ts.
Proof.
  induction 1 as [|v u l ts Hvu _ IH]; [reflexivity|].
  cbn [forallb]. now rewrite IH, (reads_is_numeric _ _ _ _ Hvu).
Qed.

Lemma reads_is_large (n : nat) (h : Store.heap) v t :
  Store.reify n h v = Some t ->
  Store.is_large_float_list h v = is_large_float_list t.
Proof.
  destruct v as [| | | | | |a];
    try (rewrite reify_scalar by reflexivity; intros H; inversion H; reflexivity).
  destruct n; [discriminate|]. intros H. apply reify_ref in H as (c & Ha & Hc).
  cbn [Store.is_large_float_list]. rewrite Ha.
  destruct c, t; cbn [Store.cell_rel] in Hc; try contradiction; try reflexivity.
  unfold is_large_float_list. rewrite (Forall2_length _ _ _ Hc).
  now rewrite (forallb_numeric_reads n h _ _ (Forall2_take _ _ _ 64 Hc)).
Qed.

(** ** The loops of the two models step together *)

Lemma length_append (h : Store.heap) (a : nat) (v : Store.val) :
  length (Store.append h a v) = length h.
Proof.
  unfold Store.append. destruct (h !! a) as [[| | |]|]; try reflexivity.
  apply length_insert.
Qed.

Lemma length_set_item (h : Store.heap) (a : nat) k (v : Store.val) :
  length (Store.set_item h a k v) = length h.
Proof.
  unfold Store.set_item. destruct (h !! a) as [[| | |]|]; try reflexivity.
  apply length_insert.
Qed.

Lemma agree_insert (b e a : nat) (h : Store.heap) (c : Store.cell) :
  (a < b)%nat -> Store.agree b e h (<[a := c]> h).
Proof. intros Ha x Hb _. apply list_lookup_insert_ne. lia. Qed.

Lemma frame_agree_above (b : nat) (h h1 : Store.heap) :
  Store.frame (length h) h h1 -> Store.agree b (length h) h h1.
Proof. intros F a _ Ha. now apply (frame_lookup_lt _ _ _ _ F). Qed.

Lemma seq_inv_transfer (n base : nat) (h h1 : Store.heap) acc :
  (base < length h)%nat -> Store.frame (length h) h h1 ->
  seq_inv n base h acc -> seq_inv n base h1 acc.
Proof.
  intros Hb F (acc_s & Ha & Hacc). exists acc_s. split.
  - now rewrite (frame_lookup_lt _ _ _ _ F Hb).
  - eapply Forall2_impl; [exact Hacc|]. intros s t St.
    eapply stable_transfer; [| | |exact St]; [lia | apply F |].
    now apply frame_agree_above.
Qed.

Lemma seq_inv_append (n base m : nat) (h1 : Store.heap) acc r' t' :
  (base < m)%nat -> (m <= length h1)%nat ->
  seq_inv n base h1 acc ->
  Store.stable m (length h1) h1 r' n t' ->
  seq_inv n base (Store.append h1 base r') (acc ++ [t']).
Proof.
  intros Hb Hm (acc_s & Ha & Hacc) Sr.
  assert (Hlen : length (Store.append h1 base r') = length h1)
    by apply length_append.
  unfold Store.append in *. rewrite Ha in *.
  exists (acc_s ++ [r']). split.
  - apply list_lookup_insert_eq. lia.
  - apply Forall2_app.
    + eapply Forall2_impl; [exact Hacc|]. intros s t St.
      eapply stable_transfer; [| | |exact St]; [lia | lia |].
      apply agree_insert. lia.
    + constructor; [|constructor].
      eapply stable_transfer; [| | |exact Sr]; [lia | lia |].
      apply agree_insert. lia.
Qed.

Lemma Forall2_dict_set {V W} (P : V -> W -> Prop)
      (ds : list (pykey * V)) (dt : list (pykey * W)) k v w :
  Forall2 (fun s u => s.1 = u.1 /\ P s.2 u.2) ds dt -> P v w ->
  Forall2 (fun s u => s.1 = u.1 /\ P s.2 u.2) (dict_set ds k v) (dict_set dt k w).
Proof.
  intros H Hvw.
  induction H as [|[k1 x] [k2 y] ds dt [E Hxy] Hrest IH]; simpl in *.
  - constructor; [split; [reflexivity | exact Hvw] | constructor].
  - subst k2. destruct (key_eqb k1 k).
    + constructor; [split; [reflexivity | exact Hvw] | exact Hrest].
    + constructor; [split; [reflexivity | exact Hxy] | exact IH].
Qed.

Lemma dict_inv_transfer (n base : nat) (h h1 : Store.heap) acc :
  (base < length h)%nat -> Store.frame (length h) h h1 ->
  dict_inv n base h acc -> dict_inv n base h1 acc.
Proof.
  intros Hb F (acc_s & Ha & Hacc). exists acc_s. split.
  - now rewrite (frame_lookup_lt _ _ _ _ F Hb).
  - eapply Forall2_impl; [exact Hacc|]. intros s t [E St]. split; [exact E|].
    eapply stable_transfer; [| | |exact St]; [lia | apply F |].
    now apply frame_agree_above.
Qed.

Lemma dict_inv_set (n base m : nat) (h1 : Store.heap) acc k r' t' :
  (base < m)%nat -> (m <= length h1)%nat ->
  dict_inv n base h1 acc ->
  Store.stable m (length h1) h1 r' n t' ->
  dict_inv n base (Store.set_item h1 base k r') (dict_set acc k t').
Proof.
  intros Hb Hm (acc_s & Ha & Hacc) Sr.
  assert (Hlen : length (Store.set_item h1 base k r') = length h1)
    by apply length_set_item.
  unfold Store.set_item in *. rewrite Ha in *.
  exists (dict_set acc_s k r'). split.
  - apply list_lookup_insert_eq. lia.
  - apply (Forall2_dict_set
             (fun x y => Store.stable (S base)
                           (length (<[base := Store.CDict (dict_set acc_s k r')]> h1))
                           (<[base := Store.CDict (dict_set acc_s k r')]> h1) x n y)).
    + eapply Forall2_impl; [exact Hacc|]. intros s t [E St]. split; [exact E|].
      eapply stable_transfer; [| | |exact St]; [lia | lia |].
      apply agree_insert. lia.
    + eapply stable_transfer; [| | |exact Sr]; [lia | lia |].
      apply agree_insert. lia.
Qed.

Section LoopSim.
Variable rec : Store.val -> Store.heap -> Store.heap * result Store.val.
Variable n : nat.
Hypothesis rec_ok : Store.call_ok rec.
Hypothesis rec_sim : forall v h t h' r,
    Store.reify n h v = Some t -> rec v h = (h', r) -> store_sim n h h' r t.
Variable h0 : Store.heap.

(** One call of [rec] inside a loop on the store [h]. *)
Lemma rec_step (v : Store.val) (t : pyval) (h h1 : Store.heap) r1 :
  Store.frame (length h0) h0 h ->
  Store.reify n h0 v = Some t ->
  rec v h = (h1, r1) ->
  Store.frame (length h) h h1
  /\ Store.frame (length h0) h0 h1
  /\ match clean_value t with
     | Ok t' => exists r', r1 = Ok r'
                           /\ Store.is_none r' = is_none t'
                           /\ Store.stable (length h) (length h1) h1 r' n t'
     | Raise e => r1 = Raise e
     end.
Proof.
  intros F0 Hvt Ev.
  destruct (rec_ok _ _ _ _ Ev) as [F _].
  pose proof (rec_sim _ _ _ _ _ (reify_frame _ _ _ _ _ F0 Hvt) Ev) as Hs.
  split; [exact F|]. split.
  - eapply frame_trans; [exact F0|].
    eapply frame_weaken; [|exact F]. apply F0.
  - unfold store_sim in Hs. destruct (clean_value t) as [t'|e]; [|exact Hs].
    destruct Hs as (r' & -> & St). exists r'. split; [reflexivity|].
    split; [|exact St]. eapply reads_is_none. eapply stable_reads. exact St.
Qed.

Lemma clean_seq_sim (l : list Store.val) (ts : list pyval) :
  Forall2 (fun v t => Store.reify n h0 v = Some t) l ts ->
  forall h acc h' r,
    Store.frame (length h0) h0 h -> (length h0 < length h)%nat ->
    seq_inv n (length h0) h acc ->
    Store.clean_seq rec l (length h0) h = (h', r) ->
    match clean_seq clean_value ts acc with
    | Ok out =>
        r = Ok (Store.VRef (length h0))
        /\ (length h <= length h')%nat
        /\ exists out_t, out = PList out_t /\ seq_inv n (length h0) h' out_t
    | Raise e => r = Raise e
    end.
Proof.
  induction 1 as [|v t l ts Hvt _ IH]; intros h acc h' r F0 Hlt Hinv Hr.
  - inversion Hr; subst. cbn [clean_seq]. repeat apply conj; eauto.
  - cbn [Store.clean_seq] in Hr. cbn [clean_seq].
    destruct (rec v h) as [h1 r1] eqn:Ev.
    destruct (rec_step _ _ _ _ _ F0 Hvt Ev) as (F & F1 & Hs).
    destruct (clean_value t) as [t'|e].
    + destruct Hs as (r' & -> & Hn & St). rewrite Hn in Hr.
      pose proof (seq_inv_transfer _ _ _ _ _ Hlt F Hinv) as Hinv1.
      destruct F as [L _].
      destruct (is_none t').
      * specialize (IH h1 acc h' r F1 ltac:(lia) Hinv1 Hr).
        destruct (clean_seq clean_value ts acc); [|exact IH].
        destruct IH as (-> & L' & out_t & -> & Ho).
        repeat apply conj; [reflexivity | lia | eauto].
      * assert (F2 : Store.frame (length h0) h0
                       (Store.append h1 (length h0) r')).
        { eapply frame_trans; [exact F1|]. now apply frame_append. }
        specialize (IH (Store.append h1 (length h0) r') (acc ++ [t']) h' r F2).
        rewrite length_append in IH.
        specialize (IH ltac:(lia)
                       (seq_inv_append _ _ _ _ _ _ _ Hlt L Hinv1 St) Hr).
        destruct (clean_seq clean_value ts (acc ++ [t'])); [|exact IH].
        destruct IH as (-> & L' & out_t & -> & Ho).
        repeat apply conj; [reflexivity | lia | eauto].
    + subst r1. now inversion Hr.
Qed.
Lemma clean_items_sim (items : list (pykey * Store.val))
      (ts : list (pykey * pyval)) :
  Forall2 (fun s u => s.1 = u.1 /\ Store.reify n h0 s.2 = Some u.2) items ts ->
  forall h acc h' r,
    Store.frame (length h0) h0 h -> (length h0 < length h)%nat ->
    dict_inv n (length h0) h acc ->
    Store.clean_items rec items (length h0) h = (h', r) ->
    match clean_items clean_value ts acc with
    | Ok out =>
        r = Ok (Store.VRef (length h0))
        /\ (length h <= length h')%nat
        /\ exists out_t, out = PDict out_t /\ dict_inv n (length h0) h' out_t
    | Raise e => r = Raise e
    end.
Proof.
  induction 1 as [|[k v] [k' t] items ts [E Hvt] _ IH];
    intros h acc h' r F0 Hlt Hinv Hr.
  - inversion Hr; subst. cbn [clean_items]. repeat apply conj; eauto.
  - simpl in E, Hvt. subst k'.
    cbn [Store.clean_items] in Hr. cbn [clean_items].
    destruct (should_drop_key k) as [[|]|]; [now apply IH| |now inversion Hr].
    destruct (in_attributes k); [now apply IH|].
    destruct (rec v h) as [h1 r1] eqn:Ev.
    destruct (rec_step _ _ _ _ _ F0 Hvt Ev) as (F & F1 & Hs).
    destruct (clean_value t) as [t'|e].
    + destruct Hs as (r' & -> & Hn & St). rewrite Hn in Hr.
      pose proof (dict_inv_transfer _ _ _ _ _ Hlt F Hinv) as Hinv1.
      destruct F as [L _].
      destruct (is_none t').
      * specialize (IH h1 acc h' r F1 ltac:(lia) Hinv1 Hr).
        destruct (clean_items clean_value ts acc); [|exact IH].
        destruct IH as (-> & L' & out_t & -> & Ho).
        repeat apply conj; [reflexivity | lia | eauto].
      * assert (F2 : Store.frame (length h0) h0
                       (Store.set_item h1 (length h0) k r')).
        { eapply frame_trans; [exact F1|]. now apply frame_set_item. }
        specialize (IH (Store.set_item h1 (length h0) k r') (dict_set acc k t')
                       h' r F2).
        rewrite length_set_item in IH.
        specialize (IH ltac:(lia)
                       (dict_inv_set _ _ _ _ _ _ _ _ Hlt L Hinv1 St) Hr).
        destruct (clean_items clean_value ts (dict_set acc k t')); [|exact IH].
        destruct IH as (-> & L' & out_t & -> & Ho).
        repeat apply conj; [reflexivity | lia | eauto].
    + subst r1. now inversion Hr.
Qed.

Lemma clean_attrs_sim (attrs : list (string * Store.val))
      (ts : list (string * pyval)) :
  Forall2 (fun s u => s.1 = u.1 /\ Store.reify n h0 s.2 = Some u.2) attrs ts ->
  forall h acc h' r,
    Store.frame (length h0) h0 h -> (length h0 < length h)%nat ->
    dict_inv n (length h0) h acc ->
    Store.clean_attrs rec attrs (length h0) h = (h', r) ->
    match clean_attrs clean_value ts acc with
    | Ok out =>
        r = Ok (Store.VRef (length h0))
        /\ (length h <= length h')%nat
        /\ exists out_t, out = PDict out_t /\ dict_inv n (length h0) h' out_t
    | Raise e => r = Raise e
    end.
Proof.
  induction 1 as [|[k v] [k' t] attrs ts [E Hvt] _ IH];
    intros h acc h' r F0 Hlt Hinv Hr.
  - inversion Hr; subst. cbn [clean_attrs]. repeat apply conj; eauto.
  - simpl in E, Hvt. subst k'.
    cbn [Store.clean_attrs] in Hr. cbn [clean_attrs].
    destruct (should_drop_key (KStr k)) as [d|]; [|now inversion Hr].
    destruct (d || in_attributes (KStr k))%bool; [now apply IH|].
    destruct (rec v h) as [h1 r1] eqn:Ev.
    destruct (rec_step _ _ _ _ _ F0 Hvt Ev) as (F & F1 & Hs).
    destruct (clean_value t) as [t'|e].
    + destruct Hs as (r' & -> & Hn & St). rewrite Hn in Hr.
      pose proof (dict_inv_transfer _ _ _ _ _ Hlt F Hinv) as Hinv1.
      destruct F as [L _].
      destruct (is_none t').
      * specialize (IH h1 acc h' r F1 ltac:(lia) Hinv1 Hr).
        destruct (clean_attrs clean_value ts acc); [|exact IH].
        destruct IH as (-> & L' & out_t & -> & Ho).
        repeat apply conj; [reflexivity | lia | eauto].
      * assert (F2 : Store.frame (length h0) h0
                       (Store.set_item h1 (length h0) (KStr k) r')).
        { eapply frame_trans; [exact F1|]. now apply frame_set_item. }
        specialize (IH (Store.set_item h1 (length h0) (KStr k) r')
                       (dict_set acc (KStr k) t') h' r F2).
        rewrite length_set_item in IH.
        specialize (IH ltac:(lia)
                       (dict_inv_set _ _ _ _ _ _ _ _ Hlt L Hinv1 St) Hr).
        destruct (clean_attrs clean_value ts (dict_set acc (KStr k) t'));
          [|exact IH].
        destruct IH as (-> & L' & out_t & -> & Ho).
        repeat apply conj; [reflexivity | lia | eauto].
    + subst r1. now inversion Hr.
Qed.
End LoopSim.

Lemma seq_inv_stable (n base : nat) (h' : Store.heap) out :
  (base < length h')%nat -> seq_inv n base h' out ->
  Store.stable base (length h') h' (Store.VRef base) (S n) (PList out).
Proof.
  intros Hb (acc_s & Ha & Hacc) h2 A. apply reify_ref.
  exists (Store.CList acc_s). split.
  - rewrite (A base); [exact Ha | lia | exact Hb].
  - cbn [Store.cell_rel]. eapply Forall2_impl; [exact Hacc|].
    intros s t St. apply St. eapply agree_weaken; [| |exact A]; lia.
Qed.

Lemma dict_inv_stable (n base : nat) (h' : Store.heap) out :
  (base < length h')%nat -> dict_inv n base h' out ->
  Store.stable base (length h') h' (Store.VRef base) (S n) (PDict out).
Proof.
  intros Hb (acc_s & Ha & Hacc) h2 A. apply reify_ref.
  exists (Store.CDict acc_s). split.
  - rewrite (A base); [exact Ha | lia | exact Hb].
  - cbn [Store.cell_rel]. eapply Forall2_impl; [exact Hacc|].
    intros s t [E St]. split; [exact E|].
    apply St. eapply agree_weaken; [| |exact A]; lia.
Qed.

Lemma alloc_seq_inv (n : nat) (h : Store.heap) :
  seq_inv n (length h) (h ++ [Store.CList []]) [].
Proof.
  exists []. split; [|constructor].
  now rewrite lookup_app_r, Nat.sub_diag by lia.
Qed.

Lemma alloc_dict_inv (n : nat) (h : Store.heap) :
  dict_inv n (length h) (h ++ [Store.CDict []]) [].
Proof.
  exists []. split; [|constructor].
  now rewrite lookup_app_r, Nat.sub_diag by lia.
Qed.

Lemma scalar_sim (n depth : nat) (v : Store.val) (h h' : Store.heap) r t :
  Store.val_ref v = None ->
  Store.reify n h v = Some t ->
  Store.clean_value (S depth) v h = (h', r) ->
  store_sim n h h' r t.
Proof.
  intros Hv Ht Hr. rewrite reify_scalar in Ht by exact Hv.
  assert (Hc : clean_value t = Ok t)
    by (destruct v; inversion Ht; subst; reflexivity || discriminate).
  assert (Hs : (h', r) = (h, Ok v))
    by (rewrite <- Hr; destruct v; reflexivity || discriminate).
  inversion Hs; subst. unfold store_sim. rewrite Hc.
  exists v. split; [reflexivity|]. intros h2 _.
  now rewrite reify_scalar.
Qed.

(** The store model computes what the tree model computes. *)
Lemma clean_value_sim (n : nat) : forall depth v h t h' r,
  (n < depth)%nat ->
  Store.reify n h v = Some t ->
  Store.clean_value depth v h = (h', r) ->
  store_sim n h h' r t.
Proof.
  induction n as [|n IH]; intros depth v h t h' r Hd Ht Hr;
    (destruct depth as [|depth]; [lia|]);
    (destruct v as [| | | | | |a];
     try (refine (scalar_sim _ _ _ _ _ _ _ _ Ht Hr); reflexivity)).
  - discriminate.
  - pose proof (reads_is_large _ _ _ _ Ht) as Hl.
    apply reify_ref in Ht as (c & Ha & Hc).
    cbn [Store.clean_value] in Hr. rewrite Hl, Ha in Hr.
    unfold store_sim. rewrite clean_value_eq.
    destruct (is_large_float_list t).
    { inversion Hr; subst. exists Store.VNone. split; [reflexivity|].
      intros h2 _. reflexivity. }
    assert (IH' : forall v h t h' r,
               Store.reify n h v = Some t ->
               Store.clean_value depth v h = (h', r) -> store_sim n h h' r t)
      by (intros v0 h1 t1 h2 r2 H1 H2;
          apply (IH depth v0 h1 t1 h2 r2); [lia | exact H1 | exact H2]).
    assert (Hlt : (length h < length (h ++ [Store.CList []]))%nat)
      by (rewrite length_app; simpl; lia).
    assert (Hlt' : (length h < length (h ++ [Store.CDict []]))%nat)
      by (rewrite length_app; simpl; lia).
    destruct c as [l|l|items|cls attrs], t; cbn [Store.cell_rel] in Hc;
      try contradiction; cbn [Store.alloc] in Hr.
    + pose proof (clean_seq_sim _ n (clean_value_ok depth) IH' h _ _ Hc _ _ _ _
                    (frame_alloc _ _ _ (Nat.le_refl _)) Hlt
                    (alloc_seq_inv n h) Hr) as Hs.
      destruct (clean_seq clean_value l0 []); [|exact Hs].
      destruct Hs as (-> & L & out & -> & Hinv).
      eexists. split; [reflexivity|]. apply seq_inv_stable; [lia | exact Hinv].
    + pose proof (clean_seq_sim _ n (clean_value_ok depth) IH' h _ _ Hc _ _ _ _
                    (frame_alloc _ _ _ (Nat.le_refl _)) Hlt
                    (alloc_seq_inv n h) Hr) as Hs.
      destruct (clean_seq clean_value l0 []); [|exact Hs].
      destruct Hs as (-> & L & out & -> & Hinv).
      eexists. split; [reflexivity|]. apply seq_inv_stable; [lia | exact Hinv].
    + pose proof (clean_items_sim _ n (clean_value_ok depth) IH' h _ _ Hc _ _ _ _
                    (frame_alloc _ _ _ (Nat.le_refl _)) Hlt'
                    (alloc_dict_inv n h) Hr) as Hs.
      destruct (clean_items clean_value items0 []); [|exact Hs].
      destruct Hs as (-> & L & out & -> & Hinv).
      eexists. split; [reflexivity|]. apply dict_inv_stable; [lia | exact Hinv].
    + destruct Hc as [-> Hc].
      pose proof (clean_attrs_sim _ n (clean_value_ok depth) IH' h _ _ Hc _ _ _ _
                    (frame_alloc _ _ _ (Nat.le_refl _)) Hlt'
                    (alloc_dict_inv n h) Hr) as Hs.
      destruct (clean_attrs clean_value attrs0 []); [|exact Hs].
      destruct Hs as (-> & L & out & -> & Hinv).
      eexists. split; [reflexivity|]. apply dict_inv_stable; [lia | exact Hinv].
Qed.

(** ** A list that contains itself *)

Lemma cyclic_list_recursion (depth : nat) : forall h : Store.heap,
  h !! 0%nat = Some (Store.CList [Store.VRef 0]) ->
  (Store.clean_value depth (Store.VRef 0) h).2 = Raise RecursionError.
Proof.
  induction depth as [|depth IH]; intros h H0; [reflexivity|].
  cbn [Store.clean_value Store.is_large_float_list]. rewrite H0.
  cbn [length Nat.leb andb Store.alloc Store.clean_seq].
  specialize (IH (h ++ [Store.CList []]) (lookup_app_l_Some _ _ _ _ H0)).
  destruct (Store.clean_value depth (Store.VRef 0) (h ++ [Store.CList []]))
    as [h1 r1].
  simpl in IH. subst r1. reflexivity.
Qed.

(** ** Purity *)



End StoreFacts.

(** * Totality *)

(** C2, as stated, fails: a mapping with a non-string key makes
    [key.lower()] raise, outside the heuristic's [try]; and on a list that
    contains itself the recursion runs into the interpreter's limit, whatever
    that limit is. *)
Lemma totality_counterexample :
  clean_embedding_data (PDict [(KInt 1, PStr "a")]) = Raise AttributeError
  /\ forall depth,
      (Store.clean_embedding_data depth (Store.VRef 0)
         [Store.CList [Store.VRef 0]]).2
      = Raise RecursionError.
Proof.
  split; [reflexivity|].
  intros depth. now apply StoreFacts.cyclic_list_recursion.
Qed.

(** C2 (amended): on every stored value that reads back as a finite tree
    nested less deeply than the recursion limit, with mappings keyed by
    strings at every depth, the sanitizer returns a value. *)
Theorem totality_on_string_keys (depth n : nat) (value : Store.val)
        (h : Store.heap) (t : pyval) :
  (n < depth)%nat ->
  Store.reify n h value = Some t ->
  str_keyed t = true ->
  exists h' r, Store.clean_embedding_data depth value h = (h', Ok r).
Proof.
  intros Hd Ht Hk. unfold Store.clean_embedding_data.
  destruct (Store.clean_value depth value h) as [h' r] eqn:Hr.
  pose proof (StoreFacts.clean_value_sim n _ _ _ _ _ _ Hd Ht Hr) as Hs.
  unfold store_sim in Hs.
  destruct (clean_value_total t Hk) as [y Hy]. rewrite Hy in Hs.
  destruct Hs as (r' & -> & _). eauto.
Qed.

Lemma totality_on_string_keys_witness :
  (2 < 10)%nat
  /\ Store.reify 2 sample_store_flat (Store.VRef 0)
     = Some (PDict [(KStr "uuid", PStr "abc");
                    (KStr "name_embedding", PList (floats 40));
                    (KStr "coords", PTuple [PInt 1; PInt 2])])
  /\ exists h' r,
      Store.clean_embedding_data 10 (Store.VRef 0) sample_store_flat = (h', Ok r).
Proof.
  assert (Hd : (2 < 10)%nat) by lia.
  assert (Ht : Store.reify 2 sample_store_flat (Store.VRef 0)
               = Some (PDict [(KStr "uuid", PStr "abc");
                              (KStr "name_embedding", PList (floats 40));
                              (KStr "coords", PTuple [PInt 1; PInt 2])]))
    by (vm_compute; reflexivity).
  split; [exact Hd|]. split; [exact Ht|].
  apply (totality_on_string_keys 10 2 _ _ _ Hd Ht). vm_compute. reflexivity.
Defined.

(** * Shape preservation *)

(** C5, as stated, fails: none of these inputs holds an embedding-shaped
    value or a heavy key, and none is returned unchanged; and a list nested
    as deeply as the recursion limit allows frames is not returned at all. *)
Lemma shape_preservation_counterexample :
  (let x := PDict [(KStr "a", PNone)] in
   has_embedding x = false /\ has_heavy_key x = false
   /\ clean_embedding_data x = Ok (PDict []))
  /\ (let x := PTuple [PInt 1; PInt 2] in
      has_embedding x = false /\ has_heavy_key x = false
      /\ clean_embedding_data x = Ok (PList [PInt 1; PInt 2]))
  /\ (let x := PObj "EntityNode" [("uuid", PStr "u")] in
      has_embedding x = false /\ has_heavy_key x = false
      /\ clean_embedding_data x = Ok (PDict [(KStr "uuid", PStr "u")]))
  /\ (let h := [Store.CList [Store.VRef 1]; Store.CList [Store.VRef 2];
                Store.CList [Store.VInt 7]] in
      let t := PList [PList [PList [PInt 7]]] in
      Store.reify 3 h (Store.VRef 0) = Some t
      /\ plain t = true /\ has_embedding t = false /\ has_heavy_key t = false
      /\ (Store.clean_embedding_data 3 (Store.VRef 0) h).2
         = Raise RecursionError).
Proof. repeat apply conj; vm_compute; reflexivity. Qed.

(** C5 (amended): a stored value that reads back as a finite tree nested
    less deeply than the recursion limit and built from scalars, lists and
    string-keyed mappings only, with no [None] stored inside a container, no
    embedding-shaped value and no heavy key, is sanitized to a value that
    reads back as the same tree: same keys in the same order, same
    elements, same scalars. *)
Theorem shape_preservation (depth n : nat) (value : Store.val)
        (h : Store.heap) (t : pyval) :
  (n < depth)%nat ->
  Store.reify n h value = Some t ->
  plain t = true -> has_embedding t = false -> has_heavy_key t = false ->
  exists h' r,
    Store.clean_embedding_data depth value h = (h', Ok r)
    /\ Store.reify n h' r = Some t.
Proof.
  intros Hd Ht Hp He Hh. unfold Store.clean_embedding_data.
  destruct (Store.clean_value depth value h) as [h' r] eqn:Hr.
  pose proof (StoreFacts.clean_value_sim n _ _ _ _ _ _ Hd Ht Hr) as Hs.
  unfold store_sim in Hs.
  rewrite (clean_value_fixed t Hp Hh He) in Hs.
  destruct Hs as (r' & -> & St).
  exists h', r'. split; [reflexivity|].
  exact (StoreFacts.stable_reads _ _ _ _ _ _ St).
Qed.

Lemma shape_preservation_witness :
  let h := [Store.CDict [(KStr "uuid", Store.VStr "abc");
                         (KStr "tags", Store.VRef 1)];
            Store.CList [Store.VStr "a"; Store.VInt 1]] in
  let t := PDict [(KStr "uuid", PStr "abc");
                  (KStr "tags", PList [PStr "a"; PInt 1])] in
  (2 < 10)%nat
  /\ Store.reify 2 h (Store.VRef 0) = Some t
  /\ plain t = true /\ has_embedding t = false /\ has_heavy_key t = false
  /\ exists h' r,
      Store.clean_embedding_data 10 (Store.VRef 0) h = (h', Ok r)
      /\ Store.reify 2 h' r = Some t.
Proof.
  intros h t.
  assert (Hd : (2 < 10)%nat) by lia.
  assert (Ht : Store.reify 2 h (Store.VRef 0) = Some t) by (vm_compute; reflexivity).
  assert (Hp : plain t = true) by (vm_compute; reflexivity).
  assert (He : has_embedding t = false) by (vm_compute; reflexivity).
  assert (Hh : has_heavy_key t = false) by (vm_compute; reflexivity).
  repeat apply conj; try assumption.
  exact (shape_preservation 10 2 _ _ _ Hd Ht Hp He Hh).
Defined.

(** * Further properties of the sanitizer *)

(** ** Sequences keep their order *)

Lemma kept_count (l cs : list pyval) :
  Forall2 (fun e c => clean_value e = Ok c) l cs ->
  length (List.filter (fun c => negb (is_none c)) cs)
  = (length l - length (List.filter dropped_elem l))%nat.
Proof.
  induction 1 as [|e c l cs Hec H2 IH]; [reflexivity|].
  pose proof (filter_length_le dropped_elem l) as Hle.
  cbn [List.filter length]. unfold dropped_elem at 1.
  rewrite <- (clean_value_none _ _ Hec).
  destruct (is_none c); cbn [negb length]; lia.
Qed.

(** X1: a list or tuple that is not detected as an embedding is returned as
    the list of its sanitized elements, in their order, without those whose
    sanitized value is [None]; of N elements with K that are [None] or
    detected lists, N - K remain. *)
Theorem sequence_order_preserved (v : pyval) (l : list pyval) (y : pyval) :
  v = PList l \/ v = PTuple l ->
  is_large_float_list v = false ->
  clean_embedding_data v = Ok y ->
  exists cs,
    Forall2 (fun e c => clean_embedding_data e = Ok c) l cs
    /\ y = PList (List.filter (fun c => negb (is_none c)) cs)
    /\ length (List.filter (fun c => negb (is_none c)) cs)
       = (length l - length (List.filter dropped_elem l))%nat.
Proof.
  unfold clean_embedding_data. intros Hv Hl H.
  rewrite clean_value_eq, Hl in H.
  assert (Hs : clean_seq clean_value l [] = Ok y)
    by (destruct Hv; subst v; exact H).
  apply clean_seq_spec in Hs as (cs & H2 & ->).
  exists cs. repeat apply conj; [exact H2 | reflexivity | now apply kept_count].
Qed.

Lemma sequence_order_preserved_witness :
  let l := [PStr "a"; PNone; PList (floats 40); PInt 3; PTuple [PNone; PInt 1]] in
  is_large_float_list (PList l) = false
  /\ clean_embedding_data (PList l)
     = Ok (PList [PStr "a"; PInt 3; PList [PInt 1]])
  /\ exists cs,
      Forall2 (fun e c => clean_embedding_data e = Ok c) l cs
      /\ PList [PStr "a"; PInt 3; PList [PInt 1]]
         = PList (List.filter (fun c => negb (is_none c)) cs)
      /\ length (List.filter (fun c => negb (is_none c)) cs)
         = (length l - length (List.filter dropped_elem l))%nat.
Proof.
  intros l.
  assert (Hl : is_large_float_list (PList l) = false) by (vm_compute; reflexivity).
  assert (H : clean_embedding_data (PList l)
              = Ok (PList [PStr "a"; PInt 3; PList [PInt 1]]))
    by (vm_compute; reflexivity).
  split; [exact Hl|]. split; [exact H|].
  exact (sequence_order_preserved (PList l) l _ (or_introl eq_refl) Hl H).
Defined.

(** ** Heavy entries are not looked at *)

Lemma clean_items_skip_heavy (f : pyval -> result pyval) (s : string)
      (v : pyval) (pre post : list (pykey * pyval)) :
  heavy_key (KStr s) = true ->
  forall acc,
    clean_items f (pre ++ (KStr s, v) :: post) acc
    = clean_items f (pre ++ post) acc.
Proof.
  intros Hh. induction pre as [|[k x] pre IH]; intros acc.
  - cbn [app clean_items should_drop_key]. unfold heavy_key in Hh.
    destruct (contains "embedding" (lower s)
              || str_in (lower s) ["name_embedding"; "fact_embedding"])%bool;
      [reflexivity|].
    cbn [orb] in Hh. cbn [in_attributes]. now rewrite Hh.
  - cbn [app clean_items].
    destruct (should_drop_key k) as [[|]|]; [apply IH| |reflexivity].
    destruct (in_attributes k); [apply IH|].
    destruct (f x) as [cv|]; [|reflexivity].
    destruct (is_none cv); apply IH.
Qed.

(** X2: an entry under a heavy key is dropped without its value being
    looked at: whatever the value is, the mapping is sanitized as if the
    entry were not there. *)
Theorem heavy_entry_ignored (s : string) (v : pyval)
        (pre post : list (pykey * pyval)) :
  heavy_key (KStr s) = true ->
  clean_embedding_data (PDict (pre ++ (KStr s, v) :: post))
  = clean_embedding_data (PDict (pre ++ post)).
Proof.
  intros Hh. unfold clean_embedding_data. rewrite !clean_value_eq.
  cbn [is_large_float_list]. now apply clean_items_skip_heavy.
Qed.

Lemma heavy_entry_ignored_witness :
  heavy_key (KStr "Fact_Embedding") = true
  /\ clean_embedding_data
       (PDict ([(KStr "uuid", PStr "u")]
               ++ (KStr "Fact_Embedding", PDict [(KInt 1, PNone)])
               :: [(KStr "fact", PStr "f")]))
     = clean_embedding_data
         (PDict ([(KStr "uuid", PStr "u")] ++ [(KStr "fact", PStr "f")])).
Proof.
  assert (Hh : heavy_key (KStr "Fact_Embedding") = true)
    by (vm_compute; reflexivity).
  split; [exact Hh|].
  exact (heavy_entry_ignored "Fact_Embedding" _ _ _ Hh).
Defined.

(** ** Objects are sanitized as their attribute view *)

Lemma clean_attrs_as_items (f : pyval -> result pyval)
      (attrs : list (string * pyval)) :
  forall acc, clean_attrs f attrs acc = clean_items f (attrs_as_items attrs) acc.
Proof.
  induction attrs as [|[k v] attrs IH]; intros acc; [reflexivity|].
  cbn [attrs_as_items map clean_attrs clean_items]. fold (attrs_as_items attrs).
  cbn [should_drop_key].
  destruct (contains "embedding" (lower k)
            || str_in (lower k) ["name_embedding"; "fact_embedding"])%bool;
    cbn [orb]; [apply IH|].
  destruct (in_attributes (KStr k)); [apply IH|].
  destruct (f v) as [cv|]; [|reflexivity].
  destruct (is_none cv); apply IH.
Qed.

(** X3: an attribute-bearing object is sanitized exactly as the mapping of
    its attribute view; its class plays no part. *)
Theorem object_as_mapping (cls : string) (attrs : list (string * pyval)) :
  clean_embedding_data (PObj cls attrs)
  = clean_embedding_data (PDict (attrs_as_items attrs)).
Proof.
  unfold clean_embedding_data. rewrite !clean_value_eq.
  cbn [is_large_float_list]. apply clean_attrs_as_items.
Qed.

(** ** The only exceptions *)

(** The exceptions of [should_drop_key]. *)
Definition key_error (e : exn) : Prop := e = AttributeError \/ e = TypeError.

Section OnlyKeyErrors.
Variable f : pyval -> result pyval.

Lemma clean_items_raise (items : list (pykey * pyval)) :
  Forall (fun kv => forall e, f kv.2 = Raise e -> key_error e) items ->
  forall acc e, clean_items f items acc = Raise e -> key_error e.
Proof.
  induction 1 as [|[k v] rest Hv _ IH]; intros acc e Hr; [discriminate|].
  cbn [clean_items] in Hr.
  destruct k as [s|z|b];
    [|inversion Hr; now left|inversion Hr; now right].
  cbn [should_drop_key] in Hr.
  destruct (_ || _)%bool; [now apply (IH _ _ Hr)|].
  destruct (in_attributes (KStr s)); [now apply (IH _ _ Hr)|].
  destruct (f v) as [cv|e'] eqn:Ef.
  - destruct (is_none cv); now apply (IH _ _ Hr).
  - inversion Hr; subst. now apply Hv.
Qed.

Lemma clean_seq_raise (l : list pyval) :
  Forall (fun x => forall e, f x = Raise e -> key_error e) l ->
  forall acc e, clean_seq f l acc = Raise e -> key_error e.
Proof.
  induction 1 as [|x rest Hx _ IH]; intros acc e Hr; [discriminate|].
  cbn [clean_seq] in Hr.
  destruct (f x) as [cv|e'] eqn:Ef.
  - destruct (is_none cv); now apply (IH _ _ Hr).
  - inversion Hr; subst. now apply Hx.
Qed.
End OnlyKeyErrors.

Lemma clean_value_raise (x : pyval) (e : exn) :
  clean_value x = Raise e -> key_error e.
Proof.
  revert e.
  induction x as [| | | | | |l IH|l IH|items IH|cls attrs IH|kind entries IHo] using pyval_ind;
    intros e; rewrite clean_value_eq;
    destruct (is_large_float_list _); try discriminate.
  - now apply clean_seq_raise.
  - now apply clean_seq_raise.
  - now apply clean_items_raise.
  - rewrite clean_attrs_as_items. apply clean_items_raise.
    unfold attrs_as_items. apply Forall_forall. intros [k v] Hin.
    apply list_elem_of_In, in_map_iff in Hin as ([k' v'] & E & Hin).
    inversion E; subst. exact (Forall_In_at _ _ _ IH Hin).
Qed.

(** X4: on a stored value that reads back as a finite tree nested less
    deeply than the recursion limit, the sanitizer raises nothing but
    [AttributeError] or [TypeError], and only when the value holds a mapping
    with a key that is not a string. *)
Theorem only_key_errors (depth n : nat) (value : Store.val)
        (h h' : Store.heap) (t : pyval) (e : exn) :
  (n < depth)%nat ->
  Store.reify n h value = Some t ->
  Store.clean_embedding_data depth value h = (h', Raise e) ->
  (e = AttributeError \/ e = TypeError) /\ str_keyed t = false.
Proof.
  unfold Store.clean_embedding_data. intros Hd Ht Hr.
  pose proof (StoreFacts.clean_value_sim n _ _ _ _ _ _ Hd Ht Hr) as Hs.
  unfold store_sim in Hs.
  destruct (clean_value t) as [t'|e'] eqn:Hc.
  - destruct Hs as (r' & Hr' & _). discriminate.
  - inversion Hs; subst e'. split.
    + exact (clean_value_raise _ _ Hc).
    + destruct (str_keyed t) eqn:Hk; [|reflexivity].
      destruct (clean_value_total t Hk) as [y Hy]. congruence.
Qed.

Lemma only_key_errors_witness :
  let h := [Store.CList [Store.VRef 1; Store.VRef 2];
            Store.CDict [(KStr "ok", Store.VInt 1)];
            Store.CDict [(KBytes "raw", Store.VInt 1)]] in
  let t := PList [PDict [(KStr "ok", PInt 1)]; PDict [(KBytes "raw", PInt 1)]] in
  (2 < 10)%nat
  /\ Store.reify 2 h (Store.VRef 0) = Some t
  /\ (Store.clean_embedding_data 10 (Store.VRef 0) h).2 = Raise TypeError
  /\ (TypeError = AttributeError \/ TypeError = TypeError)
  /\ str_keyed t = false.
Proof.
  intros h t.
  assert (Hd : (2 < 10)%nat) by lia.
  assert (Ht : Store.reify 2 h (Store.VRef 0) = Some t) by (vm_compute; reflexivity).
  assert (Hr : Store.clean_embedding_data 10 (Store.VRef 0) h
               = ((Store.clean_embedding_data 10 (Store.VRef 0) h).1,
                  Raise TypeError)) by (vm_compute; reflexivity).
  split; [exact Hd|]. split; [exact Ht|]. split; [vm_compute; reflexivity|].
  exact (only_key_errors 10 2 _ _ _ _ _ Hd Ht Hr).
Defined.

(** ** Which keys are dropped *)

Lemma lower_app (a b : string) :
  lower (String.append a b) = String.append (lower a) (lower b).
Proof. induction a as [|c a IH]; simpl; [reflexivity | now rewrite IH]. Qed.

Lemma prefix_app (n b : string) : String.prefix n (String.append n b) = true.
Proof.
  induction n as [|c n IH]; simpl; [now destruct b|].
  destruct (ascii_dec c c); [exact IH | contradiction].
Qed.

Lemma contains_app (n a b : string) :
  contains n (String.append a (String.append n b)) = true.
Proof.
  assert (E : forall hay, String.prefix n hay = true -> contains n hay = true)
    by (intros hay H; destruct hay; cbn [contains]; rewrite H; reflexivity).
  induction a as [|c a IH].
  - change (String.append "" (String.append n b)) with (String.append n b).
    apply E. apply prefix_app.
  - change (String.append (String c a) (String.append n b))
      with (String c (String.append a (String.append n b))).
    cbn [contains]. rewrite IH. apply orb_true_r.
Qed.

(** X5: a key is dropped when it contains "embedding" in any mix of upper
    and lower case, wherever in the key it stands. *)
Theorem embedding_key_any_case (a e b : string) :
  lower e = "embedding" ->
  should_drop_key (KStr (String.append a (String.append e b))) = Ok true.
Proof.
  intros He. cbn [should_drop_key]. rewrite !lower_app, He, contains_app.
  reflexivity.
Qed.

Lemma embedding_key_any_case_witness :
  lower "EmBedding" = "embedding"
  /\ should_drop_key
       (KStr (String.append "summary_" (String.append "EmBedding" "_v2")))
     = Ok true.
Proof.
  assert (He : lower "EmBedding" = "embedding") by reflexivity.
  split; [exact He|]. exact (embedding_key_any_case "summary_" _ "_v2" He).
Defined.

(** X6: the two listed names add nothing to the substring test: a key is
    dropped by [should_drop_key] exactly when its lower-case form contains
    "embedding". *)
Theorem denylist_is_redundant (s : string) :
  should_drop_key (KStr s) = Ok (contains "embedding" (lower s)).
Proof.
  cbn [should_drop_key]. f_equal.
  destruct (contains "embedding" (lower s)) eqn:Ec; [reflexivity|].
  cbn [orb str_in existsb].
  destruct (String.eqb (lower s) "name_embedding") eqn:E1.
  { apply String.eqb_eq in E1. rewrite E1 in Ec. discriminate Ec. }
  destruct (String.eqb (lower s) "fact_embedding") eqn:E2.
  { apply String.eqb_eq in E2. rewrite E2 in Ec. discriminate Ec. }
  reflexivity.
Qed.

(** ** Mappings keep the order of their keys *)

Lemma distinct_keys_drop_mid (a b : list pykey) (k : pykey) :
  distinct_keys (a ++ k :: b) = true -> distinct_keys (a ++ b) = true.
Proof.
  induction a as [|x a IH]; simpl; intros H.
  - apply andb_true_iff in H. tauto.
  - apply andb_true_iff in H as [Hx Hd]. apply andb_true_iff. split.
    + apply negb_true_iff in Hx. apply negb_true_iff.
      rewrite key_in_app in Hx |- *. simpl in Hx.
      apply orb_false_iff in Hx as [H1 H2]. apply orb_false_iff in H2 as [_ H2].
      now rewrite H1, H2.
    + now apply IH.
Qed.

Lemma keys_app (a b : list (pykey * pyval)) : keys (a ++ b) = keys a ++ keys b.
Proof. unfold keys. apply map_app. Qed.

Lemma clean_items_keys (f : pyval -> result pyval)
      (items : list (pykey * pyval)) :
  forall acc d,
    distinct_keys (keys acc ++ keys items) = true ->
    clean_items f items acc = Ok (PDict d) ->
    exists ks, keys d = keys acc ++ ks /\ sublist ks (keys items).
Proof.
  induction items as [|[k v] rest IH]; intros acc d Hd Hr.
  - inversion Hr; subst. exists []. split; [now rewrite app_nil_r | constructor].
  - cbn [clean_items] in Hr. cbn [keys map fst] in Hd. fold (keys rest) in Hd.
    assert (Hskip : forall d, clean_items f rest acc = Ok (PDict d) ->
                    exists ks, keys d = keys acc ++ ks
                               /\ sublist ks (keys ((k, v) :: rest))).
    { intros d' Hr'.
      destruct (IH acc d' (distinct_keys_drop_mid _ _ _ Hd) Hr')
        as (ks & E & Hs).
      exists ks. split; [exact E | now apply sublist_cons]. }
    destruct (should_drop_key k) as [[|]|]; [now apply Hskip| |discriminate].
    destruct (in_attributes k); [now apply Hskip|].
    destruct (f v) as [cv|]; [|discriminate].
    destruct (is_none cv); [now apply Hskip|].
    rewrite dict_set_fresh in Hr by (eapply distinct_keys_mid; exact Hd).
    destruct (IH (acc ++ [(k, cv)]) d) as (ks & E & Hs).
    + rewrite keys_app. cbn [keys map fst]. now rewrite <- app_assoc.
    + exact Hr.
    + exists (k :: ks). split.
      * rewrite E, keys_app. cbn [keys map fst]. now rewrite <- app_assoc.
      * now apply sublist_skip.
Qed.

(** X7: the sanitized mapping has its keys in the order of the input: they
    are the input's keys with some left out, and no key is added. *)
Theorem mapping_key_order (items d : list (pykey * pyval)) :
  distinct_keys (keys items) = true ->
  clean_embedding_data (PDict items) = Ok (PDict d) ->
  sublist (keys d) (keys items).
Proof.
  unfold clean_embedding_data. intros Hd H.
  rewrite clean_value_eq in H. cbn [is_large_float_list] in H.
  destruct (clean_items_keys _ _ [] d Hd H) as (ks & E & Hs).
  now rewrite E.
Qed.

Lemma mapping_key_order_witness :
  let items := [(KStr "uuid", PStr "abc");
                (KStr "Name_Embedding", PList (floats 100));
                (KStr "valid_at", PNone);
                (KStr "fact", PStr "x works at Y")] in
  distinct_keys (keys items) = true
  /\ clean_embedding_data (PDict items)
     = Ok (PDict [(KStr "uuid", PStr "abc"); (KStr "fact", PStr "x works at Y")])
  /\ sublist [KStr "uuid"; KStr "fact"] (keys items).
Proof.
  intros items.
  assert (Hd : distinct_keys (keys items) = true) by (vm_compute; reflexivity).
  assert (H : clean_embedding_data (PDict items)
              = Ok (PDict [(KStr "uuid", PStr "abc");
                           (KStr "fact", PStr "x works at Y")]))
    by (vm_compute; reflexivity).
  split; [exact Hd|]. split; [exact H|].
  exact (mapping_key_order items _ Hd H).
Defined.

(** ** Short numeric lists *)

(** X8: a list of fewer than 32 numbers (coordinates, identifiers) is
    returned unchanged. *)
Theorem short_numeric_list_kept (l : list pyval) :
  (length l < 32)%nat -> forallb is_numeric l = true ->
  clean_embedding_data (PList l) = Ok (PList l).
Proof.
  intros Hlen Hnum. unfold clean_embedding_data. rewrite clean_value_eq.
  assert (El : is_large_float_list (PList l) = false).
  { unfold is_large_float_list. apply Nat.leb_gt in Hlen. now rewrite Hlen. }
  rewrite El, clean_seq_fixed; [reflexivity|].
  intros e Hin. rewrite forallb_forall in Hnum. specialize (Hnum e Hin).
  destruct e; try discriminate; split; reflexivity.
Qed.

Lemma short_numeric_list_kept_witness :
  let l := [PInt 1; PFloat 2; PBool true] in
  (length l < 32)%nat /\ forallb is_numeric l = true
  /\ clean_embedding_data (PList l) = Ok (PList l).
Proof.
  intros l.
  assert (Hlen : (length l < 32)%nat) by (simpl; lia).
  assert (Hnum : forallb is_numeric l = true) by reflexivity.
  split; [exact Hlen|]. split; [exact Hnum|].
  exact (short_numeric_list_kept l Hlen Hnum).
Defined.

(** * Further properties of the endpoints *)

(** ** Limits *)

Lemma limit_results_take {A} (limit : Z) (l : list A) :
  limit_results limit l
  = if limit =? 0 then l
    else if limit <? 0 then take (length l - Z.to_nat (- limit)) l
         else take (Z.to_nat limit) l.
Proof.
  unfold limit_results, py_slice, slice_index.
  destruct (Z.eqb_spec limit 0) as [->|Hz]; [reflexivity|]. cbn [negb andb].
  change (0 <? 0) with false. cbv iota.
  rewrite (Z.min_l 0) by lia. change (Z.to_nat 0) with 0%nat. cbn [drop].
  destruct (Z.ltb_spec limit 0) as [Hneg|Hpos].
  - destruct (Z.ltb_spec limit (Z.of_nat (length l))); [|lia].
    f_equal. lia.
  - destruct (Z.ltb_spec limit (Z.of_nat (length l))) as [Hlt|Hge].
    + f_equal. lia.
    + symmetry. apply firstn_all2. lia.
Qed.

(** X9: the truncation [if limit and len(xs) > limit: xs = xs[:limit]]
    keeps the first [limit] results for a positive limit, keeps everything
    for a limit of zero, and for a negative limit drops that many results
    from the end. *)
Theorem limit_semantics {A} (limit : Z) (l : list A) :
  limit_results limit l
  = if limit =? 0 then l
    else if limit <? 0 then take (length l - Z.to_nat (- limit)) l
         else take (Z.to_nat limit) l.
Proof.
  unfold limit_results, py_slice, slice_index.
  destruct (Z.eqb_spec limit 0) as [->|Hz]; [reflexivity|]. cbn [negb andb].
  change (0 <? 0) with false. cbv iota.
  rewrite (Z.min_l 0) by lia. change (Z.to_nat 0) with 0%nat. cbn [drop].
  destruct (Z.ltb_spec limit 0) as [Hneg|Hpos].
  - destruct (Z.ltb_spec limit (Z.of_nat (length l))); [|lia].
    f_equal. lia.
  - destruct (Z.ltb_spec limit (Z.of_nat (length l))) as [Hlt|Hge].
    + f_equal. lia.
    + symmetry. apply firstn_all2. lia.
Qed.

Lemma limit_results_length {A} (limit : Z) (l : list A) :
  (length (limit_results limit l) <= length l)%nat
  /\ (0 < limit -> Z.of_nat (length (limit_results limit l)) <= limit).
Proof.
  rewrite limit_results_take.
  destruct (Z.eqb_spec limit 0); [split; lia|].
  destruct (Z.ltb_spec limit 0); rewrite length_take; split; lia.
Qed.

Section MoreEndpointFacts.
Variable repr : pyval -> string.
Variable clock : nat -> Z.

Lemma nodes_loop_length (node_results : list pyval) : forall tick nodes,
  (length (nodes_loop repr clock node_results tick nodes)
   <= length nodes + length node_results)%nat.
Proof.
  induction node_results as [|r rest IH]; intros tick nodes; cbn [nodes_loop].
  - simpl. lia.
  - destruct (new_NodeResponse _ _ _ _ _).
    + specialize (IH (S tick) (nodes ++ [a])). rewrite length_app in IH.
      simpl in *. lia.
    + specialize (IH (S tick) nodes). simpl. lia.
Qed.

Lemma nodes_loop_plain (node_results : list pyval) :
  forallb (fun v => negb (is_object v)) node_results = true ->
  forall tick nodes,
    nodes_loop repr clock node_results tick nodes
    = nodes ++ imap (fun i _ => default_node (clock (tick + i)%nat)) node_results.
Proof.
  induction node_results as [|r rest IH]; intros Hall tick nodes.
  - simpl. now rewrite app_nil_r.
  - cbn [forallb] in Hall. apply andb_true_iff in Hall as [Hr Hall].
    cbn [nodes_loop imap].
    assert (E : forall name d, getattr r name d = d)
      by (intros; destruct r; try reflexivity; discriminate).
    rewrite !E. cbn. rewrite (IH Hall), <- app_assoc. cbn [app].
    rewrite Nat.add_0_r. do 2 f_equal.
    apply imap_ext. intros i x _. cbn. f_equal. f_equal. lia.
Qed.

Lemma facts_loop_length (results : list pyval) : forall facts out,
  facts_loop repr results facts = Ok out ->
  length out
  = (length facts + length (List.filter (fun r => hasattr r "fact") results))%nat.
Proof.
  induction results as [|r rest IH]; intros facts out H.
  - inversion H; subst. simpl. lia.
  - cbn [facts_loop List.filter] in *.
    destruct (hasattr r "fact").
    + destruct (clean_embedding_data r) as [c|]; [|discriminate].
      cbn [mbind result_bind] in H.
      destruct (fact_of_cleaned repr c) as [fr|]; [|discriminate].
      rewrite (IH _ _ H), length_app. simpl. lia.
    + now apply IH.
Qed.

Lemma episodes_loop_length (slicer : list pyval) : forall tick acc,
  (length (episodes_loop repr clock slicer tick acc)
   <= length acc + length slicer)%nat.
Proof.
  induction slicer as [|ep rest IH]; intros tick acc; cbn [episodes_loop].
  - simpl. lia.
  - destruct (clean_embedding_data ep) as [c|].
    + destruct (episode_of repr clock c tick).
      * specialize (IH (S (S tick)) (acc ++ [a])). rewrite length_app in IH.
        simpl in *. lia.
      * specialize (IH (S (S tick)) acc). simpl. lia.
    + specialize (IH tick acc). simpl. lia.
Qed.
End MoreEndpointFacts.

(** X10: Search nodes returns at most as many nodes as the engine gave, and
    at most [limit] of them when the limit is positive. *)
Theorem search_nodes_bounded (repr : pyval -> string) (clock : nat -> Z)
        (limit : Z) (node_results : list pyval) (tick : nat) :
  (length (search_nodes repr clock limit node_results tick)
   <= length node_results)%nat
  /\ (0 < limit ->
      Z.of_nat (length (search_nodes repr clock limit node_results tick))
      <= limit).
Proof.
  unfold search_nodes.
  pose proof (nodes_loop_length repr clock (limit_results limit node_results)
                tick []) as H.
  destruct (limit_results_length limit node_results) as [H1 H2].
  simpl in H. split; [lia|]. intros Hl. specialize (H2 Hl). lia.
Qed.

(** X11: Search nodes skips no result for a missing attribute: results
    that are not attribute-bearing objects (mappings, scalars) each give the
    node [Unknown] with empty uuid and summary, no labels and the clock
    reading of their turn. *)
Theorem search_nodes_defaults (repr : pyval -> string) (clock : nat -> Z)
        (limit : Z) (node_results : list pyval) (tick : nat) :
  forallb (fun v => negb (is_object v)) node_results = true ->
  search_nodes repr clock limit node_results tick
  = imap (fun i _ => default_node (clock (tick + i)%nat))
      (limit_results limit node_results).
Proof.
  intros Hall. unfold search_nodes. rewrite nodes_loop_plain; [reflexivity|].
  apply forallb_forall. intros v Hv.
  rewrite forallb_forall in Hall. apply Hall.
  assert (H : Forall (fun v => In v node_results)
                (limit_results limit node_results)).
  { apply limit_results_Forall. apply Forall_forall.
    intros x Hx. now apply list_elem_of_In. }
  exact (Forall_In_at _ _ _ H Hv).
Qed.

Lemma search_nodes_defaults_witness :
  let rows := [PDict [(KStr "name", PStr "Alice")]; PStr "row"] in
  forallb (fun v => negb (is_object v)) rows = true
  /\ search_nodes repr0 clock0 10 rows 0
     = [default_node (clock0 0); default_node (clock0 1)].
Proof.
  intros rows.
  assert (H : forallb (fun v => negb (is_object v)) rows = true) by reflexivity.
  split; [exact H|].
  exact (search_nodes_defaults repr0 clock0 10 rows 0 H).
Defined.

(** X12: when Search facts succeeds, it returns exactly one fact for each
    result, within the limit, that has a [fact] attribute; results without
    one are passed over. *)
Theorem search_facts_count (repr : pyval -> string) (limit : Z)
        (results : list pyval) (facts : list FactResponse) :
  search_facts repr limit results = Ok facts ->
  length facts
  = length (List.filter (fun r => hasattr r "fact")
              (limit_results limit results)).
Proof.
  unfold search_facts. intros H. now rewrite (facts_loop_length _ _ _ _ H).
Qed.

Lemma search_facts_count_witness :
  search_facts repr0 3 [sample_edge; sample_node; sample_edge_bare; sample_edge]
  = Ok [{| fact_uuid := "f"; fact_fact := "x works at Y";
           fact_valid_from := None; fact_valid_until := None;
           fact_source_node_uuid := "u" |};
        {| fact_uuid := "f"; fact_fact := "x works at Y";
           fact_valid_from := None; fact_valid_until := None;
           fact_source_node_uuid := "u" |}]
  /\ 2%nat
     = length (List.filter (fun r => hasattr r "fact")
                 (limit_results 3
                    [sample_edge; sample_node; sample_edge_bare; sample_edge])).
Proof.
  assert (H : search_facts repr0 3
                [sample_edge; sample_node; sample_edge_bare; sample_edge]
              = Ok [{| fact_uuid := "f"; fact_fact := "x works at Y";
                       fact_valid_from := None; fact_valid_until := None;
                       fact_source_node_uuid := "u" |};
                    {| fact_uuid := "f"; fact_fact := "x works at Y";
                       fact_valid_from := None; fact_valid_until := None;
                       fact_source_node_uuid := "u" |}])
    by (vm_compute; reflexivity).
  split; [exact H|].
  exact (search_facts_count repr0 3 _ _ H).
Defined.

(** ** The center-node filter of Search facts *)



(** ** Paging of List episodes *)

Lemma py_slice_length {A} (l : list A) (start : Z) (stop : option Z) :
  (length (py_slice l start stop) <= length l)%nat.
Proof.
  unfold py_slice. rewrite length_take, length_drop. lia.
Qed.

Lemma py_slice_window {A} (l : list A) (offset limit : Z) :
  0 <= offset -> 0 < limit ->
  Z.of_nat (length (py_slice l offset (Some (offset + limit)))) <= limit.
Proof.
  intros Ho Hl. unfold py_slice, slice_index.
  rewrite length_take, length_drop.
  destruct (Z.ltb_spec offset 0); [lia|].
  destruct (Z.ltb_spec (offset + limit) 0); lia.
Qed.

Lemma episodic_filter_spec (node_results : list pyval) : forall acc r,
  episodic_filter node_results acc = Ok r ->
  r = acc ++ List.filter episodic node_results.
Proof.
  induction node_results as [|n rest IH]; intros acc r Hr.
  - inversion Hr. cbn. now rewrite app_nil_r.
  - cbn [episodic_filter] in Hr. cbn [List.filter]. unfold episodic at 1.
    destruct (is_episodic n) as [[|]|]; cbn [mbind result_bind] in Hr;
      try discriminate.
    + rewrite (IH _ _ Hr). now rewrite <- app_assoc.
    + exact (IH _ _ Hr).
Qed.

(** X14: List episodes never returns more episodes than [limit] when the
    limit is positive and the offset is not negative; the reported total is
    the number of nodes that carry a label starting with "episodic",
    whatever its case, or whose class name contains [EpisodicNode]; it is
    the same for every limit, offset and clock. *)
Theorem episodes_paging (repr : pyval -> string) (clock : nat -> Z)
        (limit offset : Z) (node_results : list pyval) (tick : nat)
        (eps : list EpisodeResponse) (total : nat) :
  get_episodes repr clock limit offset node_results tick = Ok (eps, total) ->
  (length eps <= total)%nat
  /\ (0 <= offset -> 0 < limit -> Z.of_nat (length eps) <= limit)
  /\ (episodic_filter node_results [] = Ok (List.filter episodic node_results)
      /\ total = length (List.filter episodic node_results))
  /\ (forall repr' clock' limit' offset' tick',
         exists eps',
           get_episodes repr' clock' limit' offset' node_results tick'
           = Ok (eps', total)).
Proof.
  unfold get_episodes. intros H.
  destruct (episodic_filter node_results []) as [nodes|] eqn:Ef;
    cbn [mbind result_bind] in H; [|discriminate].
  inversion H; subst. clear H. repeat apply conj.
  - pose proof (episodes_loop_length repr clock
                  (py_slice nodes offset
                     (if negb (limit =? 0) then Some (offset + limit) else None))
                  tick []) as H1.
    pose proof (py_slice_length nodes offset
                  (if negb (limit =? 0) then Some (offset + limit) else None)).
    simpl in H1. lia.
  - intros Ho Hl.
    destruct (Z.eqb_spec limit 0) as [|_]; [lia|]. cbn [negb].
    pose proof (episodes_loop_length repr clock
                  (py_slice nodes offset (Some (offset + limit))) tick []) as H1.
    pose proof (py_slice_window nodes offset limit Ho Hl).
    simpl in H1. lia.
  - now rewrite (episodic_filter_spec _ _ _ Ef).
  - now rewrite (episodic_filter_spec _ _ _ Ef).
  - intros repr' clock' limit' offset' tick'. eexists.
    cbn [mbind result_bind]. reflexivity.
Qed.

Lemma episodes_paging_witness :
  get_episodes repr0 clock0 1 0 [sample_episode; sample_node; sample_episode] 0
  = Ok ([{| episode_uuid := ""; episode_name := ""; episode_content := "";
            episode_source_type := "text"; episode_source_description := None;
            episode_reference_time := clock0 0;
            episode_created_at := clock0 1 |}], 2%nat)
  /\ (1 <= 2)%nat
  /\ 2%nat
     = length (List.filter episodic [sample_episode; sample_node; sample_episode]).
Proof.
  assert (H : get_episodes repr0 clock0 1 0
                [sample_episode; sample_node; sample_episode] 0
              = Ok ([{| episode_uuid := ""; episode_name := "";
                        episode_content := ""; episode_source_type := "text";
                        episode_source_description := None;
                        episode_reference_time := clock0 0;
                        episode_created_at := clock0 1 |}], 2%nat))
    by (vm_compute; reflexivity).
  split; [exact H|]. split.
  - exact (proj1 (episodes_paging _ _ _ _ _ _ _ _ H)).
  - exact (proj2 (proj1 (proj2 (proj2 (episodes_paging _ _ _ _ _ _ _ _ H))))).
Defined.

(** ** Rows of a graph query *)

Lemma cypher_rows_spec (rows : list pyval) : forall processed out,
  cypher_rows rows processed = Ok out ->
  exists cs, Forall2 (fun row c => clean_embedding_data row = Ok c) rows cs
             /\ out = processed ++ cs.
Proof.
  induction rows as [|row rest IH]; intros processed out H.
  - inversion H; subst. exists []. split; [constructor | now rewrite app_nil_r].
  - cbn [cypher_rows] in H.
    destruct (clean_embedding_data row) as [c|] eqn:Ec; [|discriminate].
    cbn [mbind result_bind] in H.
    destruct (IH _ _ H) as (cs & H2 & ->).
    exists (c :: cs). split; [now constructor | now rewrite <- app_assoc].
Qed.

Lemma limit_results_nil {A} (limit : Z) : limit_results limit (@nil A) = [].
Proof.
  unfold limit_results, py_slice.
  destruct (_ && _)%bool; [|reflexivity]. now rewrite drop_nil, take_nil.
Qed.

(** X15: the rows a graph query returns are the sanitized rows of the
    driver's result, one for one and in order, cut by the limit: no row is
    left out by the sanitizer, so a row that is itself an embedding comes
    back as [None]; the reported total is the number of rows returned. *)
Theorem cypher_rows_sanitized (limit : option Z) (rows : list pyval)
        (data : CypherData) :
  execute_cypher_query limit rows = Ok data ->
  exists cs,
    Forall2 (fun row c => clean_embedding_data row = Ok c) rows cs
    /\ cypher_results data = limit_results_opt limit cs
    /\ cypher_total_results data = length (cypher_results data).
Proof.
  unfold execute_cypher_query. intros H.
  destruct rows as [|row rest].
  - cbn in H. inversion H; subst. exists []. cbn.
    repeat apply conj; [constructor | | reflexivity].
    destruct limit as [z|]; [|reflexivity]. cbn. now rewrite limit_results_nil.
  - cbn [length Nat.eqb negb] in H.
    destruct (cypher_rows (row :: rest) []) as [out|] eqn:Er; [|discriminate].
    cbn [mbind result_bind] in H. inversion H; subst. clear H.
    destruct (cypher_rows_spec _ _ _ Er) as (cs & H2 & ->).
    exists cs. cbn. repeat apply conj; [exact H2 | reflexivity | reflexivity].
Qed.

Lemma cypher_rows_sanitized_witness :
  let rows := [PDict [(KStr "n", PInt 1); (KStr "name_embedding", PList (floats 64))];
               PList (floats 40)] in
  execute_cypher_query (Some 100) rows
  = Ok {| cypher_results := [PDict [(KStr "n", PInt 1)]; PNone];
          cypher_total_results := 2;
          cypher_limited := Some (PBool false) |}
  /\ exists cs,
      Forall2 (fun row c => clean_embedding_data row = Ok c) rows cs
      /\ [PDict [(KStr "n", PInt 1)]; PNone] = limit_results_opt (Some 100) cs
      /\ 2%nat = length [PDict [(KStr "n", PInt 1)]; PNone].
Proof.
  intros rows.
  assert (H : execute_cypher_query (Some 100) rows
              = Ok {| cypher_results := [PDict [(KStr "n", PInt 1)]; PNone];
                      cypher_total_results := 2;
                      cypher_limited := Some (PBool false) |})
    by (vm_compute; reflexivity).
  split; [exact H|].
  exact (cypher_rows_sanitized _ _ _ H).
Defined.

(** X16: for a non-empty result and a positive limit, a graph query is
    flagged [limited] exactly when the driver returned at least [limit]
    rows, so also when it returned exactly [limit] rows and none was cut;
    with a limit of zero or no limit the flag is that falsy limit itself, and
    with a negative limit it is false. *)
Theorem cypher_limited_flag (limit : option Z) (rows : list pyval)
        (data : CypherData) :
  rows <> [] ->
  execute_cypher_query limit rows = Ok data ->
  cypher_limited data
  = Some (match limit with
          | None => PNone
          | Some z =>
              if z =? 0 then PInt 0
              else if 0 <? z then PBool (z <=? Z.of_nat (length rows))
                   else PBool false
          end).
Proof.
  unfold execute_cypher_query. intros Hne H.
  destruct rows as [|row rest]; [contradiction|].
  cbn [length Nat.eqb negb] in H.
  destruct (cypher_rows (row :: rest) []) as [out|] eqn:Er; [|discriminate].
  cbn [mbind result_bind] in H. inversion H; subst. clear H. cbn.
  destruct (cypher_rows_spec _ _ _ Er) as (cs & H2 & ->). cbn [app].
  apply Forall2_length in H2. cbn [length] in H2.
  destruct limit as [z|]; [|reflexivity]. cbn. f_equal.
  destruct (Z.eqb_spec z 0); [reflexivity|].
  destruct (limit_results_length z cs) as [L1 L2].
  rewrite limit_results_take in *.
  destruct (Z.eqb_spec z 0); [contradiction|].
  destruct (Z.ltb_spec 0 z) as [Hp|Hn].
  - destruct (Z.ltb_spec z 0); [lia|]. rewrite length_take. f_equal.
    destruct (Z.leb_spec z (Z.of_nat (S (length rest))));
      destruct (Z.eqb_spec (Z.of_nat (Nat.min (Z.to_nat z) (length cs))) z);
      try reflexivity; lia.
  - f_equal.
    destruct (Z.eqb_spec
                (Z.of_nat (length (if z <? 0
                                   then take (length cs - Z.to_nat (- z)) cs
                                   else take (Z.to_nat z) cs))) z);
      [lia | reflexivity].
Qed.

Lemma cypher_limited_flag_witness :
  let rows := [PInt 1; PInt 2] in
  rows <> []
  /\ execute_cypher_query (Some 2) rows
     = Ok {| cypher_results := [PInt 1; PInt 2]; cypher_total_results := 2;
             cypher_limited := Some (PBool true) |}
  /\ Some (PBool true) = Some (PBool (2 <=? Z.of_nat (length rows))).
Proof.
  intros rows.
  assert (Hne : rows <> []) by discriminate.
  assert (H : execute_cypher_query (Some 2) rows
              = Ok {| cypher_results := [PInt 1; PInt 2];
                      cypher_total_results := 2;
                      cypher_limited := Some (PBool true) |})
    by (vm_compute; reflexivity).
  split; [exact Hne|]. split; [exact H|].
  exact (cypher_limited_flag (Some 2) rows _ Hne H).
Defined.

(** * Properties of adding an episode *)

(** ** The identifier in the response *)

Lemma span_hexdash_run (u rest : string) :
  all_hexdash u = true ->
  span_hexdash (String.append u (String "'" rest)) = (u, String "'" rest).
Proof.
  induction u as [|c u IH]; intros H; [reflexivity|].
  cbn [all_hexdash] in H. apply andb_true_iff in H as [Hc Hu].
  change (String.append (String c u) ?x) with (String c (String.append u x)).
  cbn [span_hexdash]. now rewrite Hc, (IH Hu).
Qed.

Lemma match_uuid_at_here (u rest : string) :
  all_hexdash u = true -> u <> "" ->
  match_uuid_at (String.append "uuid='" (String.append u (String "'" rest)))
  = Some u.
Proof.
  intros Hu Hne. unfold match_uuid_at. rewrite prefix_app.
  change (string_drop 6 (String.append "uuid='" ?x)) with x.
  rewrite (span_hexdash_run _ _ Hu).
  destruct (String.eqb_spec u ""); [contradiction|]. cbn [negb andb].
  change (String "'" rest) with (String.append "'" rest).
  now rewrite prefix_app.
Qed.

Lemma prefix_true (n s : string) :
  String.prefix n s = true -> exists rest, s = String.append n rest.
Proof.
  revert s. induction n as [|c n IH]; intros s H.
  - exists s. reflexivity.
  - destruct s as [|d s]; [discriminate|]. cbn [String.prefix] in H.
    destruct (ascii_dec c d) as [->|]; [|discriminate].
    destruct (IH _ H) as [rest ->]. exists rest. reflexivity.
Qed.

Lemma no_quote_head (c : ascii) (s : string) :
  no_quote (String c s) = true -> c <> "'"%char /\ no_quote s = true.
Proof.
  cbn [no_quote]. intros H. apply andb_true_iff in H as [Hc Hs].
  split; [|exact Hs]. intros ->. discriminate.
Qed.

Lemma match_uuid_at_before (c : ascii) (pre tail : string) :
  no_quote (String c pre) = true ->
  match_uuid_at (String.append (String c pre) (String.append "uuid='" tail))
  = None.
Proof.
  intros Hq. unfold match_uuid_at.
  destruct (String.prefix "uuid='" _) eqn:E; [exfalso|reflexivity].
  apply prefix_true in E as [rest E].
  apply no_quote_head in Hq as [_ Hq].
  destruct pre as [|c2 pre]; [discriminate E|].
  apply no_quote_head in Hq as [_ Hq].
  destruct pre as [|c3 pre]; [discriminate E|].
  apply no_quote_head in Hq as [_ Hq].
  destruct pre as [|c4 pre]; [discriminate E|].
  apply no_quote_head in Hq as [_ Hq].
  destruct pre as [|c5 pre]; [discriminate E|].
  apply no_quote_head in Hq as [_ Hq].
  destruct pre as [|c6 pre]; [discriminate E|].
  apply no_quote_head in Hq as [Hc6 _].
  simpl in E. inversion E. contradiction.
Qed.

Lemma re_search_uuid_eq (s : string) :
  re_search_uuid s
  = match match_uuid_at s with
    | Some g => Some g
    | None =>
        match s with
        | String _ s' => re_search_uuid s'
        | EmptyString => None
        end
    end.
Proof. destruct s; reflexivity. Qed.

Lemma re_search_uuid_first (pre u rest : string) :
  no_quote pre = true -> all_hexdash u = true -> u <> "" ->
  re_search_uuid
    (String.append pre
       (String.append "uuid='" (String.append u (String "'" rest))))
  = Some u.
Proof.
  intros Hq Hu Hne. induction pre as [|c pre IH].
  - change (String.append "" ?x) with x.
    now rewrite re_search_uuid_eq, match_uuid_at_here.
  - rewrite re_search_uuid_eq, (match_uuid_at_before _ _ _ Hq).
    apply no_quote_head in Hq as [_ Hq].
    change (String.append (String c pre) ?x) with (String c (String.append pre x)).
    now apply IH.
Qed.

(** X17: when the engine's answer has no [uuid] attribute and prints as
    text in which the first quoted field is [uuid='...'], holding a
    non-empty run of hexadecimal digits and dashes, the response carries
    exactly that run as the episode identifier. *)
Theorem episode_uuid_extracted (repr : pyval -> string) (answer : pyval)
        (pre u rest : string) :
  hasattr answer "uuid" = false ->
  py_str repr answer
  = String.append pre
      (String.append "uuid='" (String.append u (String "'" rest))) ->
  no_quote pre = true -> all_hexdash u = true -> u <> "" ->
  episode_uuid_str repr answer = u.
Proof.
  intros Hh Hs Hq Hu Hne. unfold episode_uuid_str. rewrite Hh, Hs.
  rewrite contains_app. now rewrite re_search_uuid_first.
Qed.

Lemma episode_uuid_extracted_witness :
  let answer :=
    PObj "AddEpisodeResults"
      [("episode", PObj "EpisodicNode" [("uuid", PStr "3f2a-BC09")])] in
  let repr := fun _ : pyval =>
    "AddEpisodeResults(episode=EpisodicNode(uuid='3f2a-BC09', name='n'))" in
  hasattr answer "uuid" = false
  /\ no_quote "AddEpisodeResults(episode=EpisodicNode(" = true
  /\ all_hexdash "3f2a-BC09" = true
  /\ "3f2a-BC09" <> ""
  /\ episode_uuid_str repr answer = "3f2a-BC09".
Proof.
  intros answer repr.
  assert (Hh : hasattr answer "uuid" = false) by reflexivity.
  assert (Hq : no_quote "AddEpisodeResults(episode=EpisodicNode(" = true)
    by reflexivity.
  assert (Hu : all_hexdash "3f2a-BC09" = true) by reflexivity.
  assert (Hne : "3f2a-BC09" <> "") by discriminate.
  repeat apply conj; try assumption.
  exact (episode_uuid_extracted repr answer
           "AddEpisodeResults(episode=EpisodicNode(" "3f2a-BC09" ", name='n'))"
           Hh eq_refl Hq Hu Hne).
Defined.

(** ** Retries *)

(** X18: one request makes at most three calls of the engine, and none
    exactly when [get_graphiti] or the conversion of the reference time
    raised.  When the request ends in an error, the detail reports the text
    of the first failure: of [get_graphiti], else of the conversion, else of
    the first call, whatever the later attempts raised. *)
Theorem add_memory_reports_first_error (repr : pyval -> string)
        (add_episode : nat -> episode_call -> outcome pyval)
        (started : outcome unit) (request : AddMemoryRequest) :
  let '(calls, response) := add_memory repr add_episode started request in
  (length calls <= 3)%nat
  /\ (calls = [] <->
      (exists e, started = Failed e)
      \/ (exists e, reference_time_of request = Failed e))
  /\ forall detail,
      response = Http500 detail ->
      exists error_msg,
        detail = String.append "Failed to add episode: " error_msg
        /\ match started, reference_time_of request, calls !! 0%nat with
           | Failed e, _, _ => error_msg = e
           | Returned _, Failed e, _ => error_msg = e
           | Returned _, Returned _, Some c =>
               add_episode 0%nat c = Failed error_msg
           | Returned _, Returned _, None => False
           end.
Proof.
  unfold add_memory. cbv zeta.
  destruct started as [u|e0].
  2:{ split; [simpl; lia|]. split.
      - split; [intros _; left; eauto | reflexivity].
      - intros detail H. inversion H; subst. eauto. }
  destruct (reference_time_of request) as [rt|e1].
  2:{ split; [simpl; lia|]. split.
      - split; [intros _; right; eauto | reflexivity].
      - intros detail H. inversion H; subst. eauto. }
  assert (Hno : forall (c : episode_call) l,
             c :: l = [] <->
             (exists e, Returned u = @Failed unit e)
             \/ (exists e, Returned rt = @Failed pydatetime e)).
  { intros c l. split; [discriminate|].
    intros [[e H]|[e H]]; discriminate. }
  destruct (add_episode 0%nat _) as [v0|m0] eqn:E0.
  - split; [simpl; lia|]. split; [apply Hno | discriminate].
  - destruct (timezone_error m0).
    + destruct (add_episode 1%nat _) as [v1|m1].
      * split; [simpl; lia|]. split; [apply Hno | discriminate].
      * destruct (add_episode 2%nat _) as [v2|m2].
        -- split; [simpl; lia|]. split; [apply Hno | discriminate].
        -- split; [simpl; lia|]. split; [apply Hno|].
           intros detail H. inversion H; subst.
           exists m0. split; [reflexivity | exact E0].
    + split; [simpl; lia|]. split; [apply Hno|].
      intros detail H. inversion H; subst.
      exists m0. split; [reflexivity | exact E0].
Qed.

(** X19: a second call of the engine is made only after the first one
    failed with a text that mentions time zones. *)
Theorem add_memory_retries_only_timezone (repr : pyval -> string)
        (add_episode : nat -> episode_call -> outcome pyval)
        (started : outcome unit) (request : AddMemoryRequest) :
  (1 < length (add_memory repr add_episode started request).1)%nat ->
  exists c error_msg,
    (add_memory repr add_episode started request).1 !! 0%nat = Some c
    /\ add_episode 0%nat c = Failed error_msg
    /\ timezone_error error_msg = true.
Proof.
  unfold add_memory. cbv zeta.
  destruct started as [u|e0]; [|simpl; lia].
  destruct (reference_time_of request) as [rt|e1]; [|simpl; lia].
  destruct (add_episode 0%nat _) as [v0|m0] eqn:E0; [simpl; lia|].
  destruct (timezone_error m0) eqn:Et; [|simpl; lia].
  intros _. eexists _, m0.
  destruct (add_episode 1%nat _) as [v1|m1];
    [|destruct (add_episode 2%nat _) as [v2|m2]];
    (repeat apply conj; [reflexivity | exact E0 | exact Et]).
Qed.

Lemma add_memory_retries_only_timezone_witness :
  (1 < length (add_memory repr0 flaky_engine (Returned tt) sample_request).1)%nat
  /\ exists c error_msg,
      (add_memory repr0 flaky_engine (Returned tt) sample_request).1 !! 0%nat
      = Some c
      /\ flaky_engine 0%nat c = Failed error_msg
      /\ timezone_error error_msg = true.
Proof.
  assert (H : (1 < length (add_memory repr0 flaky_engine (Returned tt)
                             sample_request).1)%nat)
    by (vm_compute; lia).
  split; [exact H|].
  exact (add_memory_retries_only_timezone repr0 flaky_engine (Returned tt)
           sample_request H).
Defined.

Lemma to_naive_utc_returned (rt rt' : pydatetime) :
  to_naive_utc rt = Returned rt' ->
  rt' = {| dt_wall := dt_wall rt - default 0 (dt_utcoffset rt);
           dt_utcoffset := None |}.
Proof.
  destruct rt as [w [o|]]; unfold to_naive_utc; cbn.
  - destruct (_ && _)%bool; [|discriminate]. now intros [= <-].
  - intros [= <-]. f_equal. lia.
Qed.

Lemma reference_time_of_naive (request : AddMemoryRequest) (rt : pydatetime) :
  reference_time_of request = Returned rt -> dt_utcoffset rt = None.
Proof.
  unfold reference_time_of.
  destruct (request_reference_time request) as [rt0|].
  - intros H. now rewrite (to_naive_utc_returned _ _ H).
  - now intros [= <-].
Qed.

(** X20: every reference time that reaches the engine is naive.  When
    [get_graphiti] returns, a first call is made unless the request's time,
    moved to UTC, leaves the range of [datetime]; it passes that time (the
    same instant, without its offset), or 2024-01-01 12:00 when the request
    has none.  A second call passes 2024-01-01 12:00; a third passes no
    reference time. *)
Theorem add_memory_reference_times (repr : pyval -> string)
        (add_episode : nat -> episode_call -> outcome pyval)
        (started : outcome unit) (request : AddMemoryRequest) :
  let calls := (add_memory repr add_episode started request).1 in
  forallb naive_call calls = true
  /\ (forall u,
        started = Returned u ->
        match reference_time_of request with
        | Returned reference_time =>
            (call_reference_time <$> calls !! 0%nat)
            = Some (Some reference_time)
            /\ reference_time
               = match request_reference_time request with
                 | Some rt =>
                     {| dt_wall := dt_wall rt - default 0 (dt_utcoffset rt);
                        dt_utcoffset := None |}
                 | None => default_reference_time
                 end
        | Failed _ => calls = []
        end)
  /\ (forall c, calls !! 1%nat = Some c ->
                call_reference_time c = Some default_reference_time)
  /\ (forall c, calls !! 2%nat = Some c -> call_reference_time c = None).
Proof.
  cbv zeta. unfold add_memory. cbv zeta.
  destruct started as [u|e0].
  2:{ repeat apply conj; [reflexivity | discriminate | | ];
        intros c Hc; inversion Hc. }
  destruct (reference_time_of request) as [rt|e1] eqn:Ert.
  2:{ repeat apply conj; [reflexivity | reflexivity | | ];
        intros c Hc; inversion Hc. }
  pose proof (reference_time_of_naive _ _ Ert) as Hnaive.
  assert (Hrt : rt = match request_reference_time request with
                     | Some rt0 =>
                         {| dt_wall := dt_wall rt0 - default 0 (dt_utcoffset rt0);
                            dt_utcoffset := None |}
                     | None => default_reference_time
                     end).
  { unfold reference_time_of in Ert.
    destruct (request_reference_time request) as [rt0|].
    - now apply to_naive_utc_returned.
    - congruence. }
  destruct (add_episode 0%nat _) as [v0|m0];
    [|destruct (timezone_error m0);
      [destruct (add_episode 1%nat _) as [v1|m1];
       [|destruct (add_episode 2%nat _) as [v2|m2]]|]];
    cbn [fst forallb naive_call call_reference_time andb lookup list_lookup
         fmap option_fmap option_map];
    rewrite Hnaive;
    (repeat apply conj;
     [reflexivity
     |intros _ _; split; [reflexivity | exact Hrt]
     |intros c Hc; inversion Hc; reflexivity
     |intros c Hc; inversion Hc; reflexivity]).
Qed.

(** * Properties of start-up *)

Section StartupFacts.
Variables Graphiti_t Driver_t Llm_t Embedder_t Reranker_t : Type.
Variable Neo4jDriver : string -> string -> string -> string -> outcome Driver_t.
Variable OpenAIGenericClient :
  option string -> string -> string -> string -> outcome Llm_t.
Variable py_int : string -> outcome Z.
Variable OpenAIEmbedder : string -> string -> Z -> string -> outcome Embedder_t.
Variable BGERerankerClient : environment -> outcome Reranker_t.
Variable Graphiti :
  Driver_t -> Llm_t -> Embedder_t -> option Reranker_t -> outcome Graphiti_t.
Variable build_indices_and_constraints : Graphiti_t -> outcome unit.

#[local] Abbreviation boot available :=
  (@get_graphiti _ _ _ _ _ Neo4jDriver OpenAIGenericClient py_int
     OpenAIEmbedder available BGERerankerClient Graphiti
     build_indices_and_constraints).

#[local] Abbreviation health_of available :=
  (@health_check _ _ _ _ _ Neo4jDriver OpenAIGenericClient py_int
     OpenAIEmbedder available BGERerankerClient Graphiti
     build_indices_and_constraints).

(** Where a call that found no instance can end. *)
Lemma boot_cases (available : bool) (st st' : app_state Graphiti_t Driver_t)
      (r : outcome Graphiti_t) :
  graphiti_instance st = None ->
  boot available st = (st', r) ->
  (graphiti_instance st' = None /\ exists e, r = Failed e)
  \/ (exists g, graphiti_instance st' = Some g
                /\ (r = Returned g
                    \/ exists e, r = Failed e
                                 /\ build_indices_and_constraints g = Failed e)).
Proof.
  intros Hn H. unfold get_graphiti in H. rewrite Hn in H.
  destruct (negb _); [inversion H; subst; left; eauto|].
  destruct (Neo4jDriver _ _ _ _); [|inversion H; subst; left; eauto].
  destruct (OpenAIGenericClient _ _ _ _); [|inversion H; subst; left; eauto].
  destruct (py_int _); [|inversion H; subst; left; eauto].
  destruct (OpenAIEmbedder _ _ _ _); [|inversion H; subst; left; eauto].
  destruct (if bge_enabled (environ st) && available
            then _ else _) as [env2 cross_encoder].
  destruct (Graphiti _ _ _ _) as [g|]; [|inversion H; subst; left; eauto].
  destruct (build_indices_and_constraints g) eqn:Eb;
    inversion H; subst; right; exists g; cbn; eauto.
Qed.

(** X21: once a call has returned an instance, every later call returns
    that same instance and leaves the state as it is. *)
Theorem get_graphiti_once (available : bool)
        (st st' : app_state Graphiti_t Driver_t) (g : Graphiti_t) :
  boot available st = (st', Returned g) ->
  boot available st' = (st', Returned g).
Proof.
  intros H. destruct (graphiti_instance st) as [g0|] eqn:Hi.
  - unfold get_graphiti in H. rewrite Hi in H. inversion H; subst.
    unfold get_graphiti. now rewrite Hi.
  - destruct (boot_cases _ _ _ _ Hi H) as [[_ [e He]]|(g1 & Hg & [Hr|(e & He & _)])];
      try discriminate.
    inversion Hr; subst. unfold get_graphiti. now rewrite Hg.
Qed.

(** X22: when no instance exists and one of the four Neo4j variables is
    unset or empty, the call fails with the message naming them and changes
    nothing: no driver is created. *)
Theorem get_graphiti_needs_neo4j (available : bool)
        (st : app_state Graphiti_t Driver_t) (name : string) :
  graphiti_instance st = None ->
  In name ["NEO4J_URI"; "NEO4J_USERNAME"; "NEO4J_PASSWORD"; "NEO4J_DATABASE"] ->
  env_truthy (environ st) name = false ->
  boot available st = (st, Failed missing_neo4j_message).
Proof.
  intros Hn Hin Hf. unfold get_graphiti. rewrite Hn.
  destruct Hin as [<-|[<-|[<-|[<-|[]]]]]; rewrite Hf;
    rewrite ?andb_false_r; reflexivity.
Qed.

(** X23: when a call fails but leaves an instance stored, the failure came
    from building the indices, and the next call returns that instance
    without building them: the health check then reports healthy. *)
Theorem failed_index_build_is_kept (available : bool)
        (st st' : app_state Graphiti_t Driver_t) (e : string) (g : Graphiti_t) :
  graphiti_instance st = None ->
  boot available st = (st', Failed e) ->
  graphiti_instance st' = Some g ->
  build_indices_and_constraints g = Failed e
  /\ boot available st' = (st', Returned g)
  /\ exists enabled,
      health_of available st'
      = (st', Healthy true enabled available (enabled && available)).
Proof.
  intros Hn H Hg.
  assert (Hb : boot available st' = (st', Returned g))
    by (unfold get_graphiti; now rewrite Hg).
  destruct (boot_cases _ _ _ _ Hn H) as [[Hn' _]|(g1 & Hg1 & [Hr|(e1 & He & Hf)])].
  - congruence.
  - discriminate.
  - inversion He; subst. rewrite Hg in Hg1. inversion Hg1; subst.
    repeat apply conj; [exact Hf | exact Hb |].
    eexists. unfold health_check. rewrite Hb. reflexivity.
Qed.

(** X24: a reranker that cannot be built never fails start-up: the call
    ends as it would with the reranker unavailable. *)
Theorem reranker_failure_is_swallowed
        (st : app_state Graphiti_t Driver_t) :
  (forall env, exists e, BGERerankerClient env = Failed e) ->
  (boot true st).2 = (boot false st).2.
Proof.
  intros Hfail. unfold get_graphiti.
  destruct (graphiti_instance st); [reflexivity|].
  destruct (negb _); [reflexivity|].
  destruct (Neo4jDriver _ _ _ _); [|reflexivity].
  destruct (OpenAIGenericClient _ _ _ _); [|reflexivity].
  destruct (py_int _); [|reflexivity].
  destruct (OpenAIEmbedder _ _ _ _); [|reflexivity].
  rewrite andb_false_r.
  destruct (bge_enabled (environ st)); cbn [andb]; [|reflexivity].
  destruct (Hfail (setenv (environ st) "HF_HOME"
                     (getenv (environ st) "BGE_MODEL_CACHE_DIR"
                        "/app/models/bge-reranker"))) as [e ->].
  destruct (Graphiti _ _ _ None) as [g|]; [|reflexivity].
  destruct (build_indices_and_constraints g); reflexivity.
Qed.
End StartupFacts.

Lemma get_graphiti_once_witness :
  exists st',
    sample_boot (Returned tt) sample_state = (st', Returned 1%nat)
    /\ sample_boot (Returned tt) st' = (st', Returned 1%nat).
Proof.
  eexists. split; [reflexivity|].
  unfold sample_boot. apply get_graphiti_once with (st := sample_state).
  reflexivity.
Defined.

Lemma get_graphiti_needs_neo4j_witness :
  let st : app_state nat nat :=
    {| graphiti_instance := None; neo4j_driver_instance := None;
       environ := setenv sample_env "NEO4J_PASSWORD" "" |} in
  env_truthy (environ st) "NEO4J_PASSWORD" = false
  /\ sample_boot (Returned tt) st = (st, Failed missing_neo4j_message).
Proof.
  intros st.
  assert (Hf : env_truthy (environ st) "NEO4J_PASSWORD" = false) by reflexivity.
  split; [exact Hf|].
  unfold sample_boot.
  apply get_graphiti_needs_neo4j with (name := "NEO4J_PASSWORD");
    [reflexivity | simpl; auto | exact Hf].
Defined.

Lemma failed_index_build_is_kept_witness :
  exists st',
    sample_boot (Failed "index build timed out") sample_state
    = (st', Failed "index build timed out")
    /\ graphiti_instance st' = Some 1%nat
    /\ sample_boot (Failed "index build timed out") st' = (st', Returned 1%nat).
Proof.
  eexists. split; [reflexivity|]. split; [reflexivity|].
  unfold sample_boot.
  eapply failed_index_build_is_kept with (st := sample_state);
    reflexivity.
Defined.

Lemma reranker_failure_is_swallowed_witness :
  (forall env : environment,
      exists e, (fun _ : environment => @Failed unit "no model files") env
                = Failed e)
  /\ (sample_boot (Returned tt) sample_state).2 = Returned 1%nat.
Proof.
  assert (H : forall env : environment,
             exists e, (fun _ : environment => @Failed unit "no model files") env
                       = Failed e)
    by (intros env; eexists; reflexivity).
  split; [exact H|].
  unfold sample_boot.
  rewrite reranker_failure_is_swallowed by exact H.
  reflexivity.
Defined.

(** * Properties of the result tracker *)

(** X25: after any run of [add_result] on a fresh tracker, the total it
    prints is the number of results recorded, in the order they were added,
    nothing is ever counted as skipped, and [print_summary] answers true
    exactly when every recorded result passed. *)
Theorem test_results_tally (rs : list test_result) :
  let self := fold_left add_result rs TestResults_init in
  tr_results self = rs
  /\ summary_total self = length rs
  /\ tr_skipped self = 0%nat
  /\ print_summary self = forallb result_passed rs.
Proof.
  cbv zeta.
  assert (G : forall self,
             let out := fold_left add_result rs self in
             tr_results out = tr_results self ++ rs
             /\ summary_total out = (summary_total self + length rs)%nat
             /\ tr_skipped out = tr_skipped self
             /\ print_summary out
                = (print_summary self && forallb result_passed rs)%bool).
  { induction rs as [|r rs IH]; intros self; cbv zeta; cbn [fold_left].
    - rewrite app_nil_r, andb_true_r. repeat apply conj; try reflexivity.
      simpl. lia.
    - destruct (IH (add_result self r)) as (H1 & H2 & H3 & H4).
      rewrite H1, H2, H3, H4. unfold summary_total, print_summary, add_result.
      cbn. repeat apply conj.
      + now rewrite <- app_assoc.
      + destruct (result_passed r); lia.
      + reflexivity.
      + destruct (result_passed r); cbn; [reflexivity|].
        now rewrite andb_false_r. }
  destruct (G TestResults_init) as (H1 & H2 & H3 & H4).
  repeat apply conj; assumption.
Qed.

(** * The endpoints and the sanitizer *)

Section EndpointShapes.
Variable repr : pyval -> string.
Variable clock : nat -> Z.

Lemma facts_loop_mapM (results : list pyval) : forall facts,
  facts_loop repr results facts
  = (fs ← mapM (fun r => c ← clean_embedding_data r; fact_of_cleaned repr c)
            (List.filter (fun r => hasattr r "fact") results);
     Ok (facts ++ fs)).
Proof.
  induction results as [|r rest IH]; intros facts;
    cbn [facts_loop List.filter].
  - cbn. now rewrite app_nil_r.
  - destruct (hasattr r "fact"); [|apply IH].
    cbn [mapM].
    destruct (clean_embedding_data r) as [c|]; cbn [mbind result_bind];
      [|reflexivity].
    destruct (fact_of_cleaned repr c) as [f|]; cbn [mbind result_bind];
      [|reflexivity].
    rewrite IH.
    destruct (mapM _ _) as [fs|]; cbn [mbind result_bind mret result_ret];
      [|reflexivity].
    now rewrite <- app_assoc.
Qed.

Lemma nodes_loop_imap (node_results : list pyval) : forall tick nodes,
  nodes_loop repr clock node_results tick nodes
  = nodes
    ++ omap id
         (imap (fun i r =>
                  result_ok
                    (new_NodeResponse
                       (py_str repr (getattr r "uuid" (PStr "")))
                       (getattr r "name" (PStr "Unknown"))
                       (getattr r "content_summary"
                          (getattr r "summary" (PStr "")))
                       (getattr r "labels" (PList []))
                       (getattr r "created_at"
                          (PDatetime (clock (tick + i)%nat)))))
            node_results).
Proof.
  induction node_results as [|r rest IH]; intros tick nodes.
  - cbn. now rewrite app_nil_r.
  - cbn [nodes_loop imap omap list_omap]. rewrite Nat.add_0_r.
    destruct (new_NodeResponse _ _ _ _ _) as [n|]; cbn [result_ok id];
      rewrite IH.
    + rewrite <- app_assoc. cbn [app]. do 3 f_equal.
      apply imap_ext. intros i x _. cbn. now rewrite Nat.add_succ_r.
    + do 2 f_equal. apply imap_ext. intros i x _. cbn.
      now rewrite Nat.add_succ_r.
Qed.

(** One episode for each sliced node on which the sanitizer returns, read
    from the sanitized value. *)
Lemma episodes_loop_spec (slicer : list pyval) :
  Forall (fun n => exists cls attrs, n = PObj cls attrs) slicer ->
  forall tick acc,
  exists eps,
    episodes_loop repr clock slicer tick acc = acc ++ eps
    /\ Forall2 (fun ep e =>
                  exists c t, clean_embedding_data ep = Ok c
                              /\ episode_of repr clock c t = Ok e)
         (List.filter (fun ep => is_ok (clean_embedding_data ep)) slicer) eps.
Proof.
  induction 1 as [|ep rest (cls & attrs & ->) _ IH]; intros tick acc.
  - exists []. split; [cbn; now rewrite app_nil_r | constructor].
  - cbn [episodes_loop List.filter].
    destruct (clean_embedding_data (PObj cls attrs)) as [c|] eqn:Ec;
      cbn [is_ok]; [|apply IH].
    destruct (clean_value_shape _ _ Ec) as [d ->].
    destruct (episode_of_dict repr clock d tick) as (r & Er & _).
    rewrite Er.
    destruct (IH (S (S tick)) (acc ++ [r])) as (eps & -> & H2).
    exists (r :: eps). split; [now rewrite <- app_assoc|].
    constructor; [|exact H2]. exists (PDict d), tick. now split.
Qed.

Lemma cypher_rows_mapM (rows : list pyval) : forall processed,
  cypher_rows rows processed
  = (cs ← mapM clean_embedding_data rows; Ok (processed ++ cs)).
Proof.
  induction rows as [|row rest IH]; intros processed; cbn [cypher_rows mapM].
  - cbn. now rewrite app_nil_r.
  - destruct (clean_embedding_data row) as [c|]; cbn [mbind result_bind];
      [|reflexivity].
    rewrite IH.
    destruct (mapM _ _) as [cs|]; cbn [mbind result_bind mret result_ret];
      [|reflexivity].
    now rewrite <- app_assoc.
Qed.
End EndpointShapes.

(** C6 (amended): of the four operations that return results of the
    engine, three pass them through the sanitizer and one does not.
    Search facts sanitizes every result that carries a [fact] attribute, in
    order, and builds each response from the entries of the sanitized
    mapping; List episodes sanitizes every sliced episodic node and builds
    one response from each sanitized value on which the sanitizer returned;
    a graph query returns its rows sanitized, cut by the limit.  Search
    nodes does not call the sanitizer: each response is built from the raw
    node's own attributes, a node is left out exactly when the response
    model rejects them, and attributes under heavy keys play no part.  Add
    episode does not call it either: on success its response carries the
    identifier extracted from the raw answer of the call that succeeded. *)
Theorem endpoints_and_sanitizer (repr : pyval -> string) (clock : nat -> Z) :
  (forall limit results,
      search_facts repr limit results
      = mapM (fun r => c ← clean_embedding_data r; fact_of_cleaned repr c)
          (List.filter (fun r => hasattr r "fact")
             (limit_results limit results)))
  /\ (forall r c,
         hasattr r "fact" = true -> clean_embedding_data r = Ok c ->
         exists d, c = PDict d
           /\ fact_of_cleaned repr c
              = new_FactResponse
                  (py_str repr (dict_get_default d "uuid" (PStr "")))
                  (dict_get_default d "fact" (PStr ""))
                  (dict_get_default d "valid_from" PNone)
                  (dict_get_default d "valid_until" PNone)
                  (py_str repr (dict_get_default d "source_node_uuid" (PStr ""))))
  /\ (forall limit node_results tick,
         search_nodes repr clock limit node_results tick
         = omap id
             (imap (fun i r =>
                      result_ok
                        (new_NodeResponse
                           (py_str repr (getattr r "uuid" (PStr "")))
                           (getattr r "name" (PStr "Unknown"))
                           (getattr r "content_summary"
                              (getattr r "summary" (PStr "")))
                           (getattr r "labels" (PList []))
                           (getattr r "created_at"
                              (PDatetime (clock (tick + i)%nat)))))
                (limit_results limit node_results)))
  /\ (forall limit node_results tick,
         search_nodes repr clock limit (map strip_heavy node_results) tick
         = search_nodes repr clock limit node_results tick)
  /\ (forall limit offset node_results tick nodes,
         episodic_filter node_results [] = Ok nodes ->
         exists eps,
           get_episodes repr clock limit offset node_results tick
           = Ok (eps, length nodes)
           /\ Forall2 (fun ep e =>
                         exists c t, clean_embedding_data ep = Ok c
                                     /\ episode_of repr clock c t = Ok e)
                (List.filter (fun ep => is_ok (clean_embedding_data ep))
                   (py_slice nodes offset
                      (if negb (limit =? 0) then Some (offset + limit)
                       else None)))
                eps)
  /\ (forall limit rows,
         cypher_results <$> execute_cypher_query limit rows
         = limit_results_opt limit <$> mapM clean_embedding_data rows)
  /\ (forall add_episode started request message episode_uuid,
         (add_memory repr add_episode started request).2
         = Http200 message episode_uuid ->
         exists i c answer,
           last (add_memory repr add_episode started request).1 = Some c
           /\ add_episode i c = Returned answer
           /\ episode_uuid = episode_uuid_str repr answer).
Proof.
  repeat apply conj.
  - intros limit results. unfold search_facts. rewrite facts_loop_mapM.
    now destruct (mapM _ _).
  - intros r c Hf Hc. destruct r; try discriminate Hf.
    destruct (clean_value_shape _ _ Hc) as [d ->]. exists d. now split.
  - intros limit node_results tick. unfold search_nodes.
    now rewrite nodes_loop_imap.
  - intros limit node_results tick. unfold search_nodes.
    rewrite limit_results_map. apply nodes_loop_strip.
  - intros limit offset node_results tick nodes Ef. unfold get_episodes.
    rewrite Ef. cbn [mbind result_bind].
    destruct (episodes_loop_spec repr clock
                (py_slice nodes offset
                   (if negb (limit =? 0) then Some (offset + limit) else None)))
      with (tick := tick) (acc := @nil EpisodeResponse) as (eps & -> & H2).
    { unfold py_slice. apply Forall_take, Forall_drop.
      eapply episodic_filter_objs; [exact Ef | constructor]. }
    exists eps. now split.
  - intros limit rows. unfold execute_cypher_query.
    destruct rows as [|row rest].
    + cbn. f_equal. destruct limit as [z|]; [|reflexivity].
      cbn. now rewrite limit_results_nil.
    + cbn [length Nat.eqb negb]. rewrite cypher_rows_mapM.
      destruct (mapM _ _) as [cs|]; reflexivity.
  - intros add_episode started request message episode_uuid.
    unfold add_memory. cbv zeta.
    destruct started as [u|e0]; [|discriminate].
    destruct (reference_time_of request) as [rt|e1]; [|discriminate].
    destruct (add_episode 0%nat _) as [v0|m0] eqn:E0.
    { intros [= _ <-]. eexists 0%nat, _, v0.
      repeat apply conj; [reflexivity | exact E0 | reflexivity]. }
    destruct (timezone_error m0); [|discriminate].
    destruct (add_episode 1%nat _) as [v1|m1] eqn:E1.
    { intros [= _ <-]. eexists 1%nat, _, v1.
      repeat apply conj; [reflexivity | exact E1 | reflexivity]. }
    destruct (add_episode 2%nat _) as [v2|m2] eqn:E2; [|discriminate].
    intros [= _ <-]. eexists 2%nat, _, v2.
    repeat apply conj; [reflexivity | exact E2 | reflexivity].
Qed.

Lemma endpoints_and_sanitizer_witness :
  hasattr sample_edge "fact" = true
  /\ clean_embedding_data sample_edge
     = Ok (PDict [(KStr "uuid", PStr "f"); (KStr "fact", PStr "x works at Y");
                  (KStr "source_node_uuid", PStr "u")])
  /\ search_facts repr0 10 [sample_edge; sample_node]
     = Ok [{| fact_uuid := "f"; fact_fact := "x works at Y";
              fact_valid_from := None; fact_valid_until := None;
              fact_source_node_uuid := "u" |}]
  /\ exists d,
      PDict [(KStr "uuid", PStr "f"); (KStr "fact", PStr "x works at Y");
             (KStr "source_node_uuid", PStr "u")] = PDict d
      /\ fact_of_cleaned repr0
           (PDict [(KStr "uuid", PStr "f"); (KStr "fact", PStr "x works at Y");
                   (KStr "source_node_uuid", PStr "u")])
         = new_FactResponse
             (py_str repr0 (dict_get_default d "uuid" (PStr "")))
             (dict_get_default d "fact" (PStr ""))
             (dict_get_default d "valid_from" PNone)
             (dict_get_default d "valid_until" PNone)
             (py_str repr0 (dict_get_default d "source_node_uuid" (PStr ""))).
Proof.
  assert (Hf : hasattr sample_edge "fact" = true) by reflexivity.
  assert (Hc : clean_embedding_data sample_edge
               = Ok (PDict [(KStr "uuid", PStr "f");
                            (KStr "fact", PStr "x works at Y");
                            (KStr "source_node_uuid", PStr "u")]))
    by (vm_compute; reflexivity).
  split; [exact Hf|]. split; [exact Hc|]. split; [vm_compute; reflexivity|].
  exact (proj1 (proj2 (endpoints_and_sanitizer repr0 clock0)) _ _ Hf Hc).
Defined.
